(** * YCSB benchmark driver for the C interface of FASTER

    A shallow embedding of [cc/benchmark-dir/benchmark-c.cc]: the operation
    mixers, the merge callback, the key-file loader, the two worker loops,
    the phase coordinators and [main], followed by the properties of the
    harness that are stated about them. *)

From Stdlib Require Import ZArith QArith Lia.
From Stdlib.Strings Require Import String Byte.
From stdpp Require Import base list gmap.

Local Open Scope Z_scope.

(** ** Fixed-width integers *)

(** [uint64_t] arithmetic wraps modulo [2^64]. *)
Definition wrap64 (x : Z) : Z := x mod 2 ^ 64.

(** Conversion of a [long] to the underlying type [int] of an [enum class]. *)
Definition to_int32 (x : Z) : Z := (x + 2 ^ 31) mod 2 ^ 32 - 2 ^ 31.

(** [uint8_t] truncation, as in [static_cast<uint8_t>(a + b)]. *)
Definition wrap8 (x : Z) : Z := x mod 256.

(** ** Operations and workloads *)

Inductive Op : Set :=
| Insert
| Read
| Upsert
| Scan
| ReadModifyWrite.

Definition Op_code (o : Op) : Z :=
  match o with
  | Insert => 0
  | Read => 1
  | Upsert => 2
  | Scan => 3
  | ReadModifyWrite => 4
  end.

#[global] Instance Op_eq_dec : EqDecision Op.
Proof. solve_decision. Defined.

Inductive Workload : Set :=
| A_50_50
| RMW_100
| UPSERT_100
| READ_100.

(** [static_cast<Workload>(n)] for an [int] [n]: the enumerator of that
    value.  The enumeration can hold every other [int] as well; for those
    there is no enumerator, and a [switch] takes its [default]. *)
Definition Workload_of_int (n : Z) : option Workload :=
  if n =? 0 then Some A_50_50
  else if n =? 1 then Some RMW_100
  else if n =? 2 then Some UPSERT_100
  else if n =? 3 then Some READ_100
  else None.

(** The compile-time constants of the benchmark.  The source fixes them
    (see [ycsb]); the definitions below take them as a record so that the
    loops can also be run on corpora of a few keys. *)
Record Config : Set := mkConfig {
  kInitCount : Z;
  kTxnCount : Z;
  kChunkSize : Z;
  kRefreshInterval : Z;
  kCompletePendingInterval : Z
}.

Definition ycsb : Config :=
  {| kInitCount := 250000000;
     kTxnCount := 1000000000;
     kChunkSize := 3200 * 8;
     kRefreshInterval := 64 * 8;
     kCompletePendingInterval := 1600 * 8 |}.

Definition kNanosPerSecond : Z := 1000000000.

(** The three [static_assert]s of the source, computed in [uint64_t]. *)
Definition static_asserts (c : Config) : bool :=
  (wrap64 (kInitCount c * 8) mod kChunkSize c =? 0)
  && (wrap64 (kTxnCount c * 8) mod kChunkSize c =? 0)
  && (kCompletePendingInterval c mod kRefreshInterval c =? 0).

(** ** Operation mixers

    Every mixer receives the generator by reference; only [ycsb_a_50_50]
    draws from it.  A mixer is embedded as a function of the value [rng()]
    would return, a 32-bit unsigned number. *)

Definition ycsb_a_50_50 (draw : Z) : Op :=
  if draw mod 100 <? 50 then Read else Upsert.

Definition ycsb_rmw_100 (draw : Z) : Op := ReadModifyWrite.

Definition ycsb_upsert_100 (draw : Z) : Op := Upsert.

Definition ycsb_read_100 (draw : Z) : Op := Read.

(** Number of draws [r] with [0 <= r < n] that a mixer maps to [o]. *)
Fixpoint count_draws (FN : Z -> Op) (o : Op) (n : nat) : Z :=
  match n with
  | O => 0
  | S k => count_draws FN o k + (if decide (FN (Z.of_nat k) = o) then 1 else 0)
  end.

(** The outputs of [std::mt19937] range over [0, 2^32). *)
Definition mt19937_range : nat := Z.to_nat 4294967296.


(** ** Results of running a piece of the program

    [exit(n)] ends the whole process, after the line that was printed just
    before it; loops are run with fuel, and a loop that has not left by
    then yields [OutOfFuel].  [Undefined] stands for a process that ends
    after it has done something C++ gives no meaning (a store outside an
    allocation): nothing is said of its exit status or of its output. *)
Inductive outcome (A : Type) : Type :=
| Done (a : A)
| Exit (code : Z) (message : string)
| OutOfFuel
| Undefined.
Arguments Done {A} a.
Arguments Exit {A} code message.
Arguments OutOfFuel {A}.
Arguments Undefined {A}.

Definition bind {A B : Type} (m : outcome A) (k : A -> outcome B) : outcome B :=
  match m with
  | Done a => k a
  | Exit code message => Exit code message
  | OutOfFuel => OutOfFuel
  | Undefined => Undefined
  end.

Notation "'let*' x ':=' m 'in' k" := (bind m (fun x => k))
  (at level 10, x name, m at level 100, k at level 200).

(** ** Calls into the engine

    What a worker asks of the store, in program order.  [key] is the byte
    offset of the key inside the corpus ([&txn_keys_.get()[idx]]); the
    first byte of the value or of the modification and the length that is
    passed are recorded as well. *)
Inductive Call : Set :=
| faster_start_session
| faster_refresh_session
| faster_complete_pending (wait : bool)
| faster_upsert (key key_length value0 value_length : Z)
| faster_read (key key_length : Z)
| faster_rmw (key key_length modification0 length : Z)
| faster_stop_session.

#[global] Instance Call_eq_dec : EqDecision Call.
Proof. solve_decision. Defined.

(** A call together with the loop index [idx] it is issued at ([None]
    outside the item loop). *)
Definition Logged : Set := option Z * Call.

(** The session maintenance at the head of the item loop's body. *)
Definition maintain (c : Config) (idx : Z) : list Logged :=
  if idx mod kRefreshInterval c =? 0 then
    (Some idx, faster_refresh_session)
    :: (if idx mod kCompletePendingInterval c =? 0
        then [(Some idx, faster_complete_pending false)]
        else [])
  else [].

(** ** The merge callback [rmw_cb]

    A byte of a buffer is [None] while nothing has been stored in it.
    [assert] aborts the process when the build keeps assertions; reading a
    byte that lies outside its buffer or was never stored has no defined
    result ([InvalidRead]). *)
Inductive cb_result : Set :=
| AssertionFailed
| InvalidRead
| Returned (ret : Z) (dst : option (list (option Z))).

Definition rmw_cb (assertions : bool)
    (current : list (option Z)) (length : Z)
    (modification : list (option Z)) (modification_length : Z)
    (dst : option (list (option Z))) : cb_result :=
  if assertions && negb (length =? 8) then AssertionFailed
  else if assertions && negb (modification_length =? 8) then AssertionFailed
  else
    match dst with
    | Some d =>
        match current !! 0%nat, modification !! 0%nat with
        | Some (Some cur0), Some (Some mod0) =>
            let val := Some (wrap8 (cur0 + mod0)) :: replicate 7 None in
            Returned 8 (Some (val ++ drop 8 d))
        | _, _ => InvalidRead
        end
    | None => Returned 8 None
    end.

(** The modification buffer of the measurement loop:
    [uint8_t modification[8]; modification[0] = 0;]. *)
Definition rmw_modification : list (option Z) := Some 0 :: replicate 7 None.

(** The length the measurement loop passes with it. *)
Definition rmw_modification_length : Z := 1.

(** ** What the environment decides during one phase

    The harness seeds every thread's generator from [std::random_device],
    the engine answers every read-modify-write with a status code, the
    clock is read at both ends of a measurement thread, and the operating
    system interleaves the threads.  A key offset is claimed by one thread
    only, so the draw and the status are given per offset. *)
Record Oracle : Type := mkOracle {
  draw : Z -> Z;
  rmw_status : Z -> Z;
  start_time : nat -> Z;
  end_time : nat -> Z;
  schedule : list nat
}.

(** ** Threads *)

(** The locals of a worker: the calls it has issued, the chunks it has
    claimed from [idx_], its two counters, and whether it has returned. *)
Record Thread : Set := mkThread {
  calls : list Logged;
  claimed : list Z;
  reads_done : Z;
  writes_done : Z;
  finished : bool
}.

Definition log (l : list Logged) (th : Thread) : Thread :=
  mkThread (calls th ++ l) (claimed th) (reads_done th) (writes_done th)
           (finished th).

Definition claim (chunk_idx : Z) (th : Thread) : Thread :=
  mkThread (calls th) (claimed th ++ [chunk_idx]) (reads_done th)
           (writes_done th) (finished th).

(** [++reads_done] and [++writes_done] on [int64_t].  No wrap-around is
    written out: the overflow of a signed counter has no defined result,
    and the counters stay at most the number of items processed (see
    [ops_inv]). *)
Definition incr_reads (th : Thread) : Thread :=
  mkThread (calls th) (claimed th) (reads_done th + 1) (writes_done th)
           (finished th).

Definition incr_writes (th : Thread) : Thread :=
  mkThread (calls th) (claimed th) (reads_done th) (writes_done th + 1)
           (finished th).

Definition finish (th : Thread) : Thread :=
  mkThread (calls th) (claimed th) (reads_done th) (writes_done th) true.

(** A thread that has run up to its loop: the session is open. *)
Definition thread_start : Thread :=
  mkThread [(None, faster_start_session)] [] 0 0 false.

(** *** Item bodies *)

(** Body of the item loop of [thread_setup_store]. *)
Definition setup_item (c : Config) (idx : Z) (th : Thread) : outcome Thread :=
  Done (log (maintain c idx ++ [(Some idx, faster_upsert idx 8 42 8)]) th).

(** Body of the item loop of [thread_run_benchmark<FN>]. *)
Definition run_item (c : Config) (o : Oracle) (FN : Z -> Op)
    (idx : Z) (th : Thread) : outcome Thread :=
  let th := log (maintain c idx) th in
  match FN (draw o idx) with
  | Insert | Upsert =>
      Done (incr_writes (log [(Some idx, faster_upsert idx 8 42 8)] th))
  | Scan => Exit 1 "Scan currently not supported!"
  | Read =>
      Done (incr_reads (log [(Some idx, faster_read idx 8)] th))
  | ReadModifyWrite =>
      let result := wrap8 (rmw_status o idx) in
      let th :=
        log [(Some idx, faster_rmw idx 8 0 rmw_modification_length)] th in
      Done (if result =? 0 then incr_writes th else th)
  end.

(** [for(idx = chunk_idx; idx < chunk_idx + kChunkSize; idx += 8)]. *)
Fixpoint item_loop (fuel : nat) (body : Z -> Thread -> outcome Thread)
    (idx hi : Z) (th : Thread) : outcome Thread :=
  match fuel with
  | O => OutOfFuel
  | S fuel' =>
      if idx <? hi then
        let* th' := body idx th in
        item_loop fuel' body (wrap64 (idx + 8)) hi th'
      else Done th
  end.

Definition process_chunk (c : Config) (body : Z -> Thread -> outcome Thread)
    (chunk_idx : Z) (th : Thread) : outcome Thread :=
  item_loop (S (Z.to_nat (kChunkSize c))) body
            chunk_idx (wrap64 (chunk_idx + kChunkSize c)) th.

(** ** Shared state *)

(** The process-wide atomics. *)
Record Globals : Set := mkGlobals {
  idx_ : Z;
  threads_waiting_ : Z;
  total_duration_ : Z;
  total_reads_done_ : Z;
  total_writes_done_ : Z
}.

(** A phase in flight: the atomics, the spawned threads by [thread_idx],
    and the chunks handed out so far, oldest first, each with the thread
    that received it. *)
Record System : Set := mkSystem {
  globals : Globals;
  threads : list Thread;
  issued : list (nat * Z)
}.

(** [idx_.fetch_add(kChunkSize)]: the old value, and the state after. *)
Definition fetch_add_idx (c : Config) (g : Globals) : Z * Globals :=
  (idx_ g,
   mkGlobals (wrap64 (idx_ g + kChunkSize c)) (threads_waiting_ g)
             (total_duration_ g) (total_reads_done_ g) (total_writes_done_ g)).

(** [threads_waiting_.fetch_sub(1)]. *)
Definition fetch_sub_waiting (g : Globals) : Globals :=
  mkGlobals (idx_ g) (wrap64 (threads_waiting_ g - 1))
            (total_duration_ g) (total_reads_done_ g) (total_writes_done_ g).

(** The three [+=] at the end of [thread_run_benchmark]. *)
Definition publish (duration reads writes : Z) (g : Globals) : Globals :=
  mkGlobals (idx_ g) (threads_waiting_ g)
            (wrap64 (total_duration_ g + duration))
            (wrap64 (total_reads_done_ g + reads))
            (wrap64 (total_writes_done_ g + writes)).

(** The calls after the chunk loop. *)
Definition epilogue : list Logged :=
  [(None, faster_complete_pending true); (None, faster_stop_session)].

(** One turn of thread [thread_idx] in [thread_setup_store]: a
    [fetch_add], then the whole chunk, or the exit from the loop. *)
Definition thread_setup_store (c : Config) (thread_idx : nat) (s : System)
    : outcome System :=
  match threads s !! thread_idx with
  | None => Done s
  | Some th =>
      if finished th then Done s
      else
        let '(chunk_idx, g) := fetch_add_idx c (globals s) in
        if chunk_idx <? wrap64 (kInitCount c * 8) then
          let* th' := process_chunk c (setup_item c) chunk_idx
                                    (claim chunk_idx th) in
          Done (mkSystem g (<[thread_idx := th']> (threads s))
                         (issued s ++ [(thread_idx, chunk_idx)]))
        else
          Done (mkSystem g
                  (<[thread_idx := finish (log epilogue th)]> (threads s))
                  (issued s))
  end.

(** One turn of thread [thread_idx] in [thread_run_benchmark<FN>]. *)
Definition thread_run_benchmark (c : Config) (o : Oracle) (FN : Z -> Op)
    (thread_idx : nat) (s : System) : outcome System :=
  match threads s !! thread_idx with
  | None => Done s
  | Some th =>
      if finished th then Done s
      else
        let '(chunk_idx, g) := fetch_add_idx c (globals s) in
        if kTxnCount c <=? chunk_idx / 8 then
          let th' := finish (log epilogue th) in
          let duration := end_time o thread_idx - start_time o thread_idx in
          Done (mkSystem
                  (publish duration (reads_done th') (writes_done th')
                           (fetch_sub_waiting g))
                  (<[thread_idx := th']> (threads s))
                  (issued s))
        else
          let* th' := process_chunk c (run_item c o FN) chunk_idx
                                    (claim chunk_idx th) in
          Done (mkSystem g (<[thread_idx := th']> (threads s))
                         (issued s ++ [(thread_idx, chunk_idx)]))
  end.

(** An interleaving: the threads take their turns in the given order. *)
Fixpoint run_schedule (step : nat -> System -> outcome System)
    (sched : list nat) (s : System) : outcome System :=
  match sched with
  | [] => Done s
  | t :: rest => let* s' := step t s in run_schedule step rest s'
  end.

(** [thread.join()]: thread [t] is given turns until it has returned. *)
Fixpoint join (fuel : nat) (step : nat -> System -> outcome System)
    (t : nat) (s : System) : outcome System :=
  match threads s !! t with
  | None => Done s
  | Some th =>
      if finished th then Done s
      else
        match fuel with
        | O => OutOfFuel
        | S fuel' => let* s' := step t s in join fuel' step t s'
        end
  end.

Fixpoint join_all (fuel : nat) (step : nat -> System -> outcome System)
    (ts : list nat) (s : System) : outcome System :=
  match ts with
  | [] => Done s
  | t :: rest => let* s' := join fuel step t s in join_all fuel step rest s'
  end.

(** [threads.emplace_back(...)] for [thread_idx] below [num_threads]. *)
Definition spawn (num_threads : Z) : list Thread :=
  replicate (Z.to_nat num_threads) thread_start.

(** ** Coordinators *)

(** A [double] value.  Arithmetic on finite values is exact here (no
    rounding); a division by zero gives an infinity or a NaN. *)
Inductive double : Set :=
| Finite (q : Q)
| Infinity
| NaN.

(** Division of two non-negative [double]s. *)
Definition double_div (a b : Q) : double :=
  if Qeq_bool b 0 then (if Qeq_bool a 0 then NaN else Infinity)
  else Finite (a / b)%Q.

(** [((double)total_reads_done_ + (double)total_writes_done_) /
     ((double)total_duration_ / kNanosPerSecond)]. *)
Definition ops_per_second_per_thread (g : Globals) : double :=
  double_div
    (inject_Z (total_reads_done_ g) + inject_Z (total_writes_done_ g))%Q
    (inject_Z (total_duration_ g) / inject_Z kNanosPerSecond)%Q.

(** Turns a thread may need to leave its loop once it is joined: one per
    chunk of the corpus and one more. *)
Definition join_fuel (c : Config) (corpus : Z) : nat :=
  S (Z.to_nat (corpus / kChunkSize c)).

Definition thread_ids (s : System) : list nat := seq 0 (length (threads s)).

(** [setup_store]: reset [idx_], spawn, let the threads run in the order
    the scheduler picks, join them all. *)
Definition setup_store (c : Config) (o : Oracle) (num_threads : Z)
    (g : Globals) : outcome System :=
  let g0 := mkGlobals 0 (threads_waiting_ g) (total_duration_ g)
                      (total_reads_done_ g) (total_writes_done_ g) in
  let s0 := mkSystem g0 (spawn num_threads) [] in
  let* s1 := run_schedule (thread_setup_store c) (schedule o) s0 in
  join_all (join_fuel c (wrap64 (kInitCount c * 8)))
           (thread_setup_store c) (thread_ids s1) s1.

(** [run_benchmark<FN>]: reset the atomics, spawn, let the threads run in
    the order the scheduler picks and take their remaining turns while the
    coordinator sleeps; the polling loop is left when [threads_waiting_]
    is no longer positive, and never if it still is once every thread has
    returned.  The result is the throughput and the final state. *)
Definition run_benchmark (c : Config) (o : Oracle) (FN : Z -> Op)
    (num_threads : Z) : outcome (double * System) :=
  let g0 := mkGlobals 0 num_threads 0 0 0 in
  let s0 := mkSystem g0 (spawn num_threads) [] in
  let* s1 := run_schedule (thread_run_benchmark c o FN) (schedule o) s0 in
  let* s2 := join_all (join_fuel c (kTxnCount c * 8))
                      (thread_run_benchmark c o FN) (thread_ids s1) s1 in
  if 0 <? threads_waiting_ (globals s2) then OutOfFuel
  else Done (ops_per_second_per_thread (globals s2), s2).

(** ** Loading the key files *)

Definition kFileChunkSize : Z := 131072.

(** Modelled from the spec: [FASTER::benchmark::File::Read] is declared in
    [file.h], which is not among the sources.  A file is read in blocks at
    increasing offsets until a short read signals its end: a read returns
    the bytes from [offset] on, at most [size] of them. *)
Definition File_Read (file : list byte) (size offset : Z) : list byte :=
  take (Z.to_nat size) (drop (Z.to_nat offset) file).

(** A key array: the allocation's size in bytes, the bytes stored so far
    (the stores go to the indices 0, 1, 2, ... in this order, so the list is
    the initial segment of the array), and whether a store fell outside
    the allocation, which C++ gives no meaning. *)
Record Keys : Set := mkKeys {
  capacity : Z;
  stored : list byte;
  overrun : bool
}.

Definition alloc_aligned (size : Z) : Keys := mkKeys size [] false.

(** [keys.get()[count] = b]. *)
Definition store (count : Z) (b : byte) (k : Keys) : Keys :=
  if count <? capacity k then mkKeys (capacity k) (stored k ++ [b]) (overrun k)
  else mkKeys (capacity k) (stored k) true.

(** The inner [for] loop: every byte of the block is stored and counted. *)
Fixpoint copy_chunk (chunk : list byte) (k : Keys) (count : Z) : Keys * Z :=
  match chunk with
  | [] => (k, count)
  | b :: rest => copy_chunk rest (store count b k) (wrap64 (count + 1))
  end.

(** The [while(true)] loop over the blocks of a file. *)
Fixpoint load_loop (fuel : nat) (file : list byte) (offset : Z)
    (k : Keys) (count : Z) : outcome (Keys * Z) :=
  match fuel with
  | O => OutOfFuel
  | S fuel' =>
      let chunk := File_Read file kFileChunkSize offset in
      let size := Z.of_nat (length chunk) in
      let '(k', count') := copy_chunk chunk k count in
      if size =? kFileChunkSize then
        load_loop fuel' file (wrap64 (offset + kFileChunkSize)) k' count'
      else Done (k', count')
  end.

(** What follows the loading of the array [k].  An [exit] ends the
    process and the array goes with it: when a store into [k] fell outside
    the allocation, the process ends after something C++ gives no meaning,
    which is [Undefined].  A result that is handed on keeps the array and
    its [overrun]. *)
Definition exit_after {A : Type} (k : Keys) (r : outcome A) : outcome A :=
  match r with
  | Exit code message => if overrun k then Undefined else Exit code message
  | _ => r
  end.

(** One half of [load_files]: allocate, read the file, compare the number
    of keys with the expected one. *)
Definition load_keys (expected : Z) (message : string) (file : list byte)
    : outcome Keys :=
  let* r := load_loop (S (length file)) file 0
                      (alloc_aligned (wrap64 (expected * 8))) 0 in
  let '(k, count) := r in
  exit_after k (if negb (expected =? count / 8) then Exit 1 message
                else Done k).

Definition load_files (c : Config) (load_file run_file : list byte)
    : outcome (Keys * Keys) :=
  let* init_keys_ := load_keys (kInitCount c) "Init file load fail!" load_file in
  let* txn_keys_ :=
    exit_after init_keys_
      (load_keys (kTxnCount c) "Txn file load fail!" run_file) in
  Done (init_keys_, txn_keys_).

(** ** The process *)

Inductive PhaseKind : Set := Populate | Measure.

#[global] Instance PhaseKind_eq_dec : EqDecision PhaseKind.
Proof. solve_decision. Defined.

(** A record of one call of [setup_store] or [run_benchmark]: the thread
    count it was passed and how the phase it started ended. *)
Record PhaseRun : Type := mkPhaseRun {
  phase_kind : PhaseKind;
  phase_threads : Z;
  phase_result : outcome System
}.

(** The globals of the process, and the phases it has run, oldest first. *)
Record Process : Type := mkProcess {
  init_keys_ : Keys;
  txn_keys_ : Keys;
  atomics : Globals;
  results_ : gmap Z (list double);
  phases : list PhaseRun
}.

(** Statements of [main]: they change the process and return, exit, or
    never finish. *)
Definition M (A : Type) : Type := Process -> Process * outcome A.

Definition ret {A : Type} (a : A) : M A := fun p => (p, Done a).

Definition exit {A : Type} (code : Z) (message : string) : M A :=
  fun p => (p, Exit code message).

Definition seqM {A B : Type} (m : M A) (k : A -> M B) : M B :=
  fun p =>
    match m p with
    | (p', Done a) => k a p'
    | (p', Exit code message) => (p', Exit code message)
    | (p', OutOfFuel) => (p', OutOfFuel)
    | (p', Undefined) => (p', Undefined)
    end.

Notation "'do' x '<-' m ';' k" := (seqM m (fun x => k))
  (at level 10, x name, m at level 100, k at level 200).

Fixpoint for_each {A : Type} (l : list A) (body : A -> M unit) : M unit :=
  match l with
  | [] => ret tt
  | a :: rest => do _ <- body a; for_each rest body
  end.

(** What the environment decides during one trial. *)
Record TrialOracle : Type := mkTrialOracle {
  populate_oracle : Oracle;
  measure_oracle : Oracle
}.

(** [setup_store(store, num_threads)] as a statement of [main]. *)
Definition call_setup_store (c : Config) (o : Oracle) (num_threads : Z)
    : M unit :=
  fun p =>
    let r := setup_store c o num_threads (atomics p) in
    let run := mkPhaseRun Populate num_threads r in
    match r with
    | Done s =>
        (mkProcess (init_keys_ p) (txn_keys_ p) (globals s) (results_ p)
                   (phases p ++ [run]), Done tt)
    | Exit code message =>
        (mkProcess (init_keys_ p) (txn_keys_ p) (atomics p) (results_ p)
                   (phases p ++ [run]), Exit code message)
    | OutOfFuel =>
        (mkProcess (init_keys_ p) (txn_keys_ p) (atomics p) (results_ p)
                   (phases p ++ [run]), OutOfFuel)
    | Undefined =>
        (mkProcess (init_keys_ p) (txn_keys_ p) (atomics p) (results_ p)
                   (phases p ++ [run]), Undefined)
    end.

(** [run_benchmark<FN>(store, num_threads)] as a statement of [main]. *)
Definition call_run_benchmark (c : Config) (o : Oracle) (FN : Z -> Op)
    (num_threads : Z) : M double :=
  fun p =>
    let r := run_benchmark c o FN num_threads in
    let run := mkPhaseRun Measure num_threads
                 (let* x := r in Done (snd x)) in
    match r with
    | Done (result, s) =>
        (mkProcess (init_keys_ p) (txn_keys_ p) (globals s) (results_ p)
                   (phases p ++ [run]), Done result)
    | Exit code message =>
        (mkProcess (init_keys_ p) (txn_keys_ p) (atomics p) (results_ p)
                   (phases p ++ [run]), Exit code message)
    | OutOfFuel =>
        (mkProcess (init_keys_ p) (txn_keys_ p) (atomics p) (results_ p)
                   (phases p ++ [run]), OutOfFuel)
    | Undefined =>
        (mkProcess (init_keys_ p) (txn_keys_ p) (atomics p) (results_ p)
                   (phases p ++ [run]), Undefined)
    end.

(** [results_[key] = v]. *)
Definition set_results (key : Z) (v : list double) : M unit :=
  fun p =>
    (mkProcess (init_keys_ p) (txn_keys_ p) (atomics p)
               (<[key := v]> (results_ p)) (phases p), Done tt).

(** [results_[key]], which is the empty vector for a key not yet there. *)
Definition get_results (key : Z) : M (list double) :=
  fun p => (p, Done (default [] (results_ p !! key))).

(** [thread_configurations] after the [push_back]s. *)
Definition thread_configurations (num_threads : Z) : list Z :=
  if num_threads =? 0 then [1; 2; 4; 8; 16; 32; 48] else [num_threads].

(** The body of the loop over [j]: one trial.  The loop variable of the
    enclosing loop, [num_benchmark_threads], is in scope. *)
Definition trial (c : Config) (workload num_threads : Z)
    (num_benchmark_threads : Z) (o : TrialOracle) : M unit :=
  do _ <- call_setup_store c (populate_oracle o) 48;
  do result <-
    match Workload_of_int workload with
    | Some A_50_50 =>
        call_run_benchmark c (measure_oracle o) ycsb_a_50_50 num_threads
    | Some RMW_100 =>
        call_run_benchmark c (measure_oracle o) ycsb_rmw_100 num_threads
    | Some UPSERT_100 =>
        call_run_benchmark c (measure_oracle o) ycsb_upsert_100 num_threads
    | Some READ_100 =>
        call_run_benchmark c (measure_oracle o) ycsb_read_100 num_threads
    | None => exit 1 "Unknown workload!"
    end;
  do v <- get_results num_threads;
  set_results num_threads (v ++ [result]).

(** [main].  [argv1] and [argv2] are what [atol] makes of the first two
    arguments; the two files are given by their contents; [world i j]
    is the environment of trial [j] of the [i]-th thread configuration. *)
Definition main (c : Config) (argc argv1 argv2 : Z)
    (load_file run_file : list byte) (world : nat -> nat -> TrialOracle)
    : M Z :=
  if negb (argc =? 4 + 1) then
    exit 0 "Usage: benchmark.exe <workload> <# threads> <load_filename> <run_filename>"
  else
    let workload := to_int32 argv1 in
    let num_threads := wrap64 argv2 in
    do _ <- (fun p =>
               match load_files c load_file run_file with
               | Done (ik, tk) =>
                   (mkProcess ik tk (atomics p) (results_ p) (phases p),
                    Done tt)
               | Exit code message => (p, Exit code message)
               | OutOfFuel => (p, OutOfFuel)
               | Undefined => (p, Undefined)
               end);
    do _ <- for_each (imap pair (thread_configurations num_threads))
              (fun '(i, num_benchmark_threads) =>
                 do _ <- set_results num_threads [];
                 for_each (seq 0 3)
                   (fun j => trial c workload num_threads
                                   num_benchmark_threads (world i j)));
    ret 0.

(** The process as it starts: nothing loaded, every atomic zero. *)
Definition process_start : Process :=
  mkProcess (alloc_aligned 0) (alloc_aligned 0) (mkGlobals 0 0 0 0 0) ∅ [].

(** ** Notions used in the statements *)

(** The indices [lo], [lo + 8], ... of [n] consecutive items. *)
Fixpoint items_from (n : nat) (lo : Z) : list Z :=
  match n with
  | O => []
  | S k => lo :: items_from k (lo + 8)
  end.

(** The items of the chunk that starts at [chunk_idx]: the values [idx]
    takes in the item loop. *)
Definition chunk_items (c : Config) (chunk_idx : Z) : list Z :=
  items_from (Z.to_nat ((kChunkSize c + 7) / 8)) chunk_idx.

(** A body run on a list of items in turn. *)
Fixpoint fold_items (body : Z -> Thread -> outcome Thread) (l : list Z)
    (th : Thread) : outcome Thread :=
  match l with
  | [] => Done th
  | idx :: rest => let* th' := body idx th in fold_items body rest th'
  end.

(** The constants are positive and pass the [static_assert]s. *)
Definition well_formed (c : Config) : Prop :=
  0 < kChunkSize c /\ 0 < kRefreshInterval c
  /\ 0 < kCompletePendingInterval c
  /\ 0 <= kInitCount c /\ 0 <= kTxnCount c
  /\ static_asserts c = true.

(** A corpus of [corpus] bytes and [num_threads] threads stay within
    [uint64_t]: neither [idx_] nor the index of the item loop wraps. *)
Definition fits (c : Config) (corpus num_threads : Z) : Prop :=
  0 <= corpus /\ 0 <= num_threads
  /\ corpus + (num_threads + 1) * kChunkSize c + 8 <= 2 ^ 64.

(** The common shape of the two thread functions: [more] is the test on
    the value the [fetch_add] returned, [body] the body of the item loop,
    [leave] what is done to the atomics on the way out. *)
Definition turn (c : Config) (more : Z -> bool)
    (body : Z -> Thread -> outcome Thread)
    (leave : nat -> Thread -> Globals -> Globals)
    (thread_idx : nat) (s : System) : outcome System :=
  match threads s !! thread_idx with
  | None => Done s
  | Some th =>
      if finished th then Done s
      else
        let '(chunk_idx, g) := fetch_add_idx c (globals s) in
        if more chunk_idx then
          let* th' := process_chunk c body chunk_idx (claim chunk_idx th) in
          Done (mkSystem g (<[thread_idx := th']> (threads s))
                         (issued s ++ [(thread_idx, chunk_idx)]))
        else
          let th' := finish (log epilogue th) in
          Done (mkSystem (leave thread_idx th' g)
                         (<[thread_idx := th']> (threads s)) (issued s))
  end.

(** Number of threads that have returned. *)
Fixpoint count_finished (ths : list Thread) : nat :=
  match ths with
  | [] => O
  | th :: rest => ((if finished th then 1 else 0) + count_finished rest)%nat
  end.

(** The starts [0], [C], [2C], ... of the first [n] chunks. *)
Definition chunk_starts (c : Config) (n : nat) : list Z :=
  map (fun k => Z.of_nat k * kChunkSize c) (seq 0 n).

(** The byte range of the chunk that starts at [start]. *)
Definition in_chunk (c : Config) (start x : Z) : Prop :=
  start <= x < start + kChunkSize c.

(** [chunks] tile [[0, corpus)]: two chunks at different positions of the
    list share no byte, and the bytes of the chunks are those of the
    corpus. *)
Definition partitions (c : Config) (corpus : Z) (chunks : list Z) : Prop :=
  (forall (i j : nat) (a b : Z),
      i <> j -> chunks !! i = Some a -> chunks !! j = Some b ->
      forall x, ~ (in_chunk c a x /\ in_chunk c b x))
  /\ (forall x, 0 <= x < corpus <-> exists a, a ∈ chunks /\ in_chunk c a x).

(** What holds of [idx_] and of the chunks handed out at every moment
    of a phase over a corpus of [corpus] bytes with [W] threads. *)
Definition counter_inv (c : Config) (corpus : Z) (W : nat) (s : System)
    : Prop :=
  length (threads s) = W
  /\ idx_ (globals s)
     = wrap64 (Z.of_nat (length (issued s) + count_finished (threads s))
               * kChunkSize c)
  /\ map snd (issued s) = chunk_starts c (length (issued s))
  /\ Z.of_nat (length (issued s)) * kChunkSize c <= corpus
  /\ ((0 < count_finished (threads s))%nat ->
      Z.of_nat (length (issued s)) * kChunkSize c = corpus).

Definition all_finished (s : System) : Prop :=
  Forall (fun th => finished th = true) (threads s).

Definition finished_at (s : System) (t : nat) : Prop :=
  exists th, threads s !! t = Some th /\ finished th = true.

(** The corpus of a phase, in bytes. *)
Definition corpus_length (c : Config) (k : PhaseKind) : Z :=
  match k with
  | Populate => kInitCount c * 8
  | Measure => kTxnCount c * 8
  end.

(** The starts of the chunks handed out during one phase, oldest first:
    the population phase run by [setup_store] or the measurement phase run
    by [run_benchmark<FN>]. *)
Definition phase_chunks (c : Config) (o : Oracle) (k : PhaseKind)
    (FN : Z -> Op) (num_threads : Z) (g : Globals) : outcome (list Z) :=
  match k with
  | Populate =>
      let* s := setup_store c o num_threads g in Done (map snd (issued s))
  | Measure =>
      let* x := run_benchmark c o FN num_threads in
      Done (map snd (issued (snd x)))
  end.

(** A configuration of a few keys, for running the definitions: 16 keys
    in either file, chunks of 8 keys, a refresh every 4 keys and a drain
    every 8. *)
Definition small : Config := mkConfig 16 16 64 32 64.

(** An environment for [small]: the draws follow the offsets, one
    read-modify-write is turned down, thread [t] runs for [25 + t]
    nanoseconds, and the scheduler starts with thread 1. *)
Definition small_oracle : Oracle :=
  mkOracle (fun idx => idx / 8 * 50)
           (fun idx => if idx =? 8 then 3 else 0)
           (fun t => 10) (fun t => 35 + Z.of_nat t)
           [1%nat; 0%nat; 1%nat].

(** The maintenance calls due at item [idx], read off the intervals:
    a refresh at the multiples of the refresh interval, a non-blocking
    drain at the multiples of the complete-pending interval. *)
Definition cadence (c : Config) (idx : Z) : list Call :=
  (if idx mod kRefreshInterval c =? 0 then [faster_refresh_session] else [])
  ++ (if idx mod kCompletePendingInterval c =? 0
      then [faster_complete_pending false] else []).

(** The data operations among the calls. *)
Definition is_operation (cl : Call) : bool :=
  match cl with
  | faster_upsert _ _ _ _ | faster_read _ _ | faster_rmw _ _ _ _ => true
  | _ => false
  end.

(** The operation the population loop issues for the key at [idx]. *)
Definition setup_operation (idx : Z) : Call := faster_upsert idx 8 42 8.

(** The operation the measurement loop issues for the key at [idx] (for
    [Scan] there is none: the process exits). *)
Definition run_operation (o : Oracle) (FN : Z -> Op) (idx : Z) : Call :=
  match FN (draw o idx) with
  | Read => faster_read idx 8
  | ReadModifyWrite => faster_rmw idx 8 0 rmw_modification_length
  | _ => faster_upsert idx 8 42 8
  end.

(** The calls of one item: what is due, then the operation. *)
Definition item_calls (c : Config) (ops : Z -> Call) (idx : Z)
    : list Logged :=
  map (pair (Some idx)) (cadence c idx ++ [ops idx]).

(** All items of a list of chunks, in order. *)
Definition items_of (c : Config) (chunks : list Z) : list Z :=
  flat_map (chunk_items c) chunks.

(** The calls of a whole session over the given chunks. *)
Definition session_calls (c : Config) (ops : Z -> Call) (chunks : list Z)
    : list Logged :=
  (None, faster_start_session)
  :: flat_map (item_calls c ops) (items_of c chunks)
  ++ [(None, faster_complete_pending true); (None, faster_stop_session)].

(** The calls of a thread follow its chunks. *)
Definition calls_inv (c : Config) (ops : Z -> Call) (th : Thread) : Prop :=
  calls th
  = (None, faster_start_session)
    :: flat_map (item_calls c ops) (items_of c (claimed th))
    ++ (if finished th then epilogue else []).

(** The sum of [f thread_idx th] over the threads from index [k] on:
    over all of them, and over those that have returned. *)
Fixpoint sum_threads_from (f : nat -> Thread -> Z) (k : nat)
    (ths : list Thread) : Z :=
  match ths with
  | [] => 0
  | th :: rest => f k th + sum_threads_from f (S k) rest
  end.

Definition sum_threads (f : nat -> Thread -> Z) (ths : list Thread) : Z :=
  sum_threads_from f 0 ths.

Fixpoint published (f : nat -> Thread -> Z) (k : nat) (ths : list Thread)
    : Z :=
  match ths with
  | [] => 0
  | th :: rest => (if finished th then f k th else 0) + published f (S k) rest
  end.

(** The time thread [t] measures for itself, in nanoseconds. *)
Definition duration (o : Oracle) (t : nat) : Z := end_time o t - start_time o t.

(** The sum of the durations of the threads [k], ..., [k + n - 1]. *)
Fixpoint sum_durations (o : Oracle) (k n : nat) : Z :=
  match n with
  | O => 0
  | S n' => duration o k + sum_durations o (S k) n'
  end.

(** The accumulators hold what the returned threads have published, and
    [threads_waiting_] counts the threads still running. *)
Definition accum_inv (o : Oracle) (W : Z) (s : System) : Prop :=
  total_duration_ (globals s)
  = wrap64 (published (fun t _ => duration o t) 0 (threads s))
  /\ total_reads_done_ (globals s)
     = wrap64 (published (fun _ th => reads_done th) 0 (threads s))
  /\ total_writes_done_ (globals s)
     = wrap64 (published (fun _ th => writes_done th) 0 (threads s))
  /\ threads_waiting_ (globals s)
     = wrap64 (W - Z.of_nat (count_finished (threads s))).

(** Items per chunk. *)
Definition items_per_chunk (c : Config) : Z := (kChunkSize c + 7) / 8.

(** The counters are not negative and count at most one operation per
    item of the chunks handed out. *)
Definition ops_inv (c : Config) (s : System) : Prop :=
  Forall (fun th => 0 <= reads_done th /\ 0 <= writes_done th) (threads s)
  /\ sum_threads (fun _ th => reads_done th + writes_done th) (threads s)
     <= items_per_chunk c * Z.of_nat (length (issued s)).

(** The key array after the bytes of [file] have been stored into an
    allocation of [size] bytes, one after the other from index 0. *)
Definition keys_after (size : Z) (file : list byte) : Keys :=
  mkKeys size (take (Z.to_nat size) file) (size <? Z.of_nat (length file)).

(** A statement keeps a property of the process. *)
Definition preserves {A : Type} (Inv : Process -> Prop) (m : M A) : Prop :=
  forall p, Inv p -> Inv (m p).1.

(** A statement returns, whatever the process. *)
Definition succeeds {A : Type} (m : M A) : Prop :=
  forall p, exists p' a, m p = (p', Done a).

(** The phases of a process were started with the thread counts [main]
    hands to them: 48 for a population, [num_threads] for a measurement;
    and a phase that ended had spawned as many threads. *)
Definition phase_threads_ok (num_threads : Z) (run : PhaseRun) : Prop :=
  phase_threads run
  = match phase_kind run with Populate => 48 | Measure => num_threads end
  /\ forall s, phase_result run = Done s ->
               length (threads s) = Z.to_nat (phase_threads run).

(** What a process shows of its phases: kind, thread count passed, and
    number of threads spawned. *)
Definition phase_summary (p : Process) : list (PhaseKind * Z * option nat) :=
  map (fun run =>
         (phase_kind run, phase_threads run,
          match phase_result run with
          | Done s => Some (length (threads s))
          | _ => None
          end))
      (phases p).

(** Files of 16 keys for [small], and an environment for its trials. *)
Definition small_file : list byte := replicate 128 "000"%byte.

Definition small_world (i j : nat) : TrialOracle :=
  mkTrialOracle small_oracle small_oracle.

(** A configuration with chunks of 16 keys, a refresh every 8 keys and a
    drain every 16, over 32 keys. *)
Definition sixteen : Config := mkConfig 32 32 128 64 128.

(** The calls of a thread other than the data operations. *)
Definition maintenance_calls (th : Thread) : list Logged :=
  filter (fun e : Logged => is_operation e.2 = false) (calls th).

(** ** Thread affinity

    [SetThreadAffinity] has three bodies, chosen by the preprocessor.  Each
    is given by what it computes from [core], a [size_t]: the CPU number
    handed to [CPU_SET], or the processor group and mask handed to
    [SetThreadGroupAffinity]. *)

Definition kCoreCount : Z := 36.

(** Without [_WIN32] and without [NUMA]: [switch(core % 2)]. *)
Definition SetThreadAffinity (core : Z) : Z :=
  if core mod 2 =? 0 then core
  else wrap64 (wrap64 (core - 1) + kCoreCount).

(** Without [_WIN32], with [NUMA]: [switch(core % 4)]. *)
Definition SetThreadAffinity_NUMA (core : Z) : Z :=
  if core mod 4 =? 0 then core / 2
  else if core mod 4 =? 1 then wrap64 (kCoreCount + wrap64 (core - 1) / 2)
  else if core mod 4 =? 2 then core / 2
  else wrap64 (kCoreCount + wrap64 (core - 1) / 2).

(** With [_WIN32]: the group is a [WORD] (16 bits), the mask the 64-bit
    value [0x1llu << (core - kCoreCount * group)]; a shift by 64 or more
    has no defined result and is given as 0 here. *)
Definition SetThreadAffinity_WIN32 (core : Z) : Z * Z :=
  let group := (core / kCoreCount) mod 2 ^ 16 in
  let shift := wrap64 (core - wrap64 (kCoreCount * group)) in
  (group, if shift <? 64 then 2 ^ shift else 0).

(** ** Coverage of a corpus *)

(** The data operations a thread has issued, in program order. *)
Definition operations (th : Thread) : list Call :=
  filter (fun cl => is_operation cl = true) (map snd (calls th)).

(** The data operations of all threads of a phase. *)
Definition all_operations (s : System) : list Call :=
  flat_map operations (threads s).

(** The byte offsets of the keys of a corpus of [count] keys. *)
Definition corpus_keys (count : Z) : list Z := items_from (Z.to_nat count) 0.

(** What the item at [idx] adds to [reads_done] and to [writes_done] in
    the measurement loop. *)
Definition item_reads (o : Oracle) (FN : Z -> Op) (idx : Z) : Z :=
  match FN (draw o idx) with
  | Read => 1
  | _ => 0
  end.

Definition item_writes (o : Oracle) (FN : Z -> Op) (idx : Z) : Z :=
  match FN (draw o idx) with
  | Insert | Upsert => 1
  | ReadModifyWrite => if wrap8 (rmw_status o idx) =? 0 then 1 else 0
  | _ => 0
  end.

Definition sum_items (f : Z -> Z) (l : list Z) : Z :=
  foldr (fun idx acc => f idx + acc) 0 l.

(** Every chunk handed out is in the list of one thread, once. *)
Definition claims_inv (s : System) : Prop :=
  flat_map claimed (threads s) ≡ₚ map snd (issued s).

(** The counters of a measurement thread follow its chunks. *)
Definition counters_inv (c : Config) (o : Oracle) (FN : Z -> Op)
    (th : Thread) : Prop :=
  reads_done th = sum_items (item_reads o FN) (items_of c (claimed th))
  /\ writes_done th = sum_items (item_writes o FN) (items_of c (claimed th)).

(** ** A whole run *)

(** The mixer [main] instantiates [run_benchmark] with for a workload. *)
Definition workload_mixer (w : Workload) : Z -> Op :=
  match w with
  | A_50_50 => ycsb_a_50_50
  | RMW_100 => ycsb_rmw_100
  | UPSERT_100 => ycsb_upsert_100
  | READ_100 => ycsb_read_100
  end.



(** ** The order of a thread's work *)

(** Every element of the list is at least [gap] below the later ones. *)
Fixpoint spaced (gap : Z) (l : list Z) : Prop :=
  match l with
  | [] => True
  | a :: rest => Forall (fun b => a + gap <= b) rest /\ spaced gap rest
  end.

(** The list is strictly increasing. *)
Definition ascending (l : list Z) : Prop :=
  forall (i j : nat) (a b : Z),
    (i < j)%nat -> l !! i = Some a -> l !! j = Some b -> a < b.

(** The chunks of every thread lie a chunk apart, in the order they were
    claimed, and below the next chunk to be handed out. *)
Definition order_inv (c : Config) (s : System) : Prop :=
  Forall (fun th =>
            spaced (kChunkSize c) (claimed th)
            /\ Forall (fun a => a + kChunkSize c
                                <= Z.of_nat (length (issued s)) * kChunkSize c)
                      (claimed th))
         (threads s).

(** * Properties *)

(** Linear arithmetic with divisions and remainders by constants. *)
Ltac div_lia := Z.to_euclidean_division_equations; lia.

(** ** The 50/50 mixer over the generator's range *)

Section Counting.
Variable FN : Z -> Op.
Variable o : Op.

Lemma count_draws_app (n m : nat) :
  count_draws FN o (n + m)
  = count_draws FN o n + count_draws (fun r => FN (Z.of_nat n + r)) o m.
Proof.
  induction m as [|m IH].
  - rewrite Nat.add_0_r. simpl. lia.
  - rewrite Nat.add_succ_r. simpl. rewrite IH.
    replace (Z.of_nat (n + m)) with (Z.of_nat n + Z.of_nat m) by lia. lia.
Qed.

Lemma count_draws_ext (G : Z -> Op) (n : nat) :
  (forall r, 0 <= r < Z.of_nat n -> FN r = G r) ->
  count_draws FN o n = count_draws G o n.
Proof.
  induction n as [|n IH]; intros Hext; simpl; [reflexivity|].
  rewrite IH by (intros; apply Hext; lia).
  rewrite (Hext (Z.of_nat n)) by lia. reflexivity.
Qed.
End Counting.

Lemma ycsb_a_50_50_periodic (r : Z) (k : nat) :
  ycsb_a_50_50 (Z.of_nat (100 * k) + r) = ycsb_a_50_50 r.
Proof.
  unfold ycsb_a_50_50.
  replace (Z.of_nat (100 * k) + r) with (r + Z.of_nat k * 100) by lia.
  rewrite Z_mod_plus_full. reflexivity.
Qed.

Lemma count_a_50_50_periods (o : Op) (q r : nat) :
  count_draws ycsb_a_50_50 o (100 * q + r)
  = Z.of_nat q * count_draws ycsb_a_50_50 o 100 + count_draws ycsb_a_50_50 o r.
Proof.
  rewrite count_draws_app.
  rewrite (count_draws_ext _ o ycsb_a_50_50 r)
    by (intros; apply ycsb_a_50_50_periodic).
  f_equal.
  induction q as [|q IH]; [reflexivity|].
  replace (100 * S q)%nat with (100 * q + 100)%nat by lia.
  rewrite count_draws_app.
  rewrite (count_draws_ext _ o ycsb_a_50_50 100%nat)
    by (intros; apply ycsb_a_50_50_periodic).
  rewrite IH. lia.
Qed.

Lemma mt19937_range_periods : mt19937_range = (100 * Z.to_nat 42949672 + 96)%nat.
Proof. unfold mt19937_range. lia. Qed.

(** C8 (as the code has it): a draw is a read exactly when its residue
    modulo 100 is below 50, and of the [2^32] values the generator can
    return 2147483650 are mapped to a read and 2147483646 to a write. *)
Theorem a_50_50_split :
  (forall r, ycsb_a_50_50 r = Read <-> r mod 100 < 50)
  /\ (forall r, ycsb_a_50_50 r = Upsert <-> 50 <= r mod 100)
  /\ count_draws ycsb_a_50_50 Read mt19937_range = 2147483650
  /\ count_draws ycsb_a_50_50 Upsert mt19937_range = 2147483646.
Proof.
  split; [|split; [|split]].
  - intros r. unfold ycsb_a_50_50. destruct (Z.ltb_spec (r mod 100) 50).
    + split; [lia | reflexivity].
    + split; [discriminate | lia].
  - intros r. unfold ycsb_a_50_50. destruct (Z.ltb_spec (r mod 100) 50).
    + split; [discriminate | lia].
    + split; [lia | reflexivity].
  - rewrite mt19937_range_periods, count_a_50_50_periods.
    change (count_draws ycsb_a_50_50 Read 100) with 50.
    change (count_draws ycsb_a_50_50 Read 96) with 50. lia.
  - rewrite mt19937_range_periods, count_a_50_50_periods.
    change (count_draws ycsb_a_50_50 Upsert 100) with 50.
    change (count_draws ycsb_a_50_50 Upsert 96) with 46. lia.
Qed.

(** C8 (as stated) fails: the reads are not half of the [2^32] draws. *)
Lemma a_50_50_not_exact_half :
  ~ (count_draws ycsb_a_50_50 Read mt19937_range = 2 ^ 31
     /\ count_draws ycsb_a_50_50 Upsert mt19937_range = 2 ^ 31).
Proof.
  intros [Hr _]. rewrite mt19937_range_periods, count_a_50_50_periods in Hr.
  change (count_draws ycsb_a_50_50 Read 100) with 50 in Hr.
  change (count_draws ycsb_a_50_50 Read 96) with 50 in Hr. lia.
Qed.



(** ** The item loop *)

Lemma items_from_app (n m : nat) (lo : Z) :
  items_from (n + m) lo = items_from n lo ++ items_from m (lo + 8 * Z.of_nat n).
Proof.
  revert lo. induction n as [|n IH]; intros lo.
  - simpl. f_equal. lia.
  - cbn [Nat.add items_from app]. rewrite IH.
    replace (lo + 8 + 8 * Z.of_nat n) with (lo + 8 * Z.of_nat (S n)) by lia.
    reflexivity.
Qed.

Lemma elem_of_items_from (n : nat) (lo x : Z) :
  x ∈ items_from n lo <-> exists k, 0 <= k < Z.of_nat n /\ x = lo + 8 * k.
Proof.
  revert lo. induction n as [|n IH]; intros lo; cbn [items_from].
  - rewrite elem_of_nil. split; [tauto | intros (k & ? & _); lia].
  - rewrite elem_of_cons, IH. split.
    + intros [-> | (k & Hk & ->)].
      * exists 0. lia.
      * exists (k + 1). lia.
    + intros (k & Hk & ->). destruct (decide (k = 0)) as [-> | Hne].
      * left. lia.
      * right. exists (k - 1). lia.
Qed.

Lemma items_from_NoDup (n : nat) (lo : Z) : NoDup (items_from n lo).
Proof.
  revert lo. induction n as [|n IH]; intros lo; cbn [items_from];
    constructor; auto.
  rewrite elem_of_items_from. intros (k & ? & ?). lia.
Qed.

Lemma wrap64_small (x : Z) : 0 <= x < 2 ^ 64 -> wrap64 x = x.
Proof. intros H. unfold wrap64. apply Z.mod_small. exact H. Qed.

Lemma wrap64_range (x : Z) : 0 <= wrap64 x < 2 ^ 64.
Proof. unfold wrap64. apply Z.mod_pos_bound. lia. Qed.

Lemma wrap64_add_l (a b : Z) : wrap64 (wrap64 a + b) = wrap64 (a + b).
Proof. unfold wrap64. apply Zplus_mod_idemp_l. Qed.

(** With enough fuel and no wrap-around the loop is the fold of its body
    over the items between [lo] and [hi]. *)
Lemma item_loop_fold (body : Z -> Thread -> outcome Thread) (n : nat) :
  forall (fuel : nat) (lo hi : Z) (th : Thread),
    0 <= lo -> hi + 8 <= 2 ^ 64 ->
    lo + 8 * (Z.of_nat n - 1) < hi <= lo + 8 * Z.of_nat n ->
    (n < fuel)%nat ->
    item_loop fuel body lo hi th = fold_items body (items_from n lo) th.
Proof.
  induction n as [|n IH]; intros fuel lo hi th Hlo Hhi Hn Hfuel.
  - destruct fuel as [|fuel]; [lia|]. cbn [item_loop items_from fold_items].
    destruct (Z.ltb_spec lo hi); [lia | reflexivity].
  - destruct fuel as [|fuel]; [lia|]. cbn [item_loop items_from fold_items].
    destruct (Z.ltb_spec lo hi); [|lia].
    destruct (body lo th) as [th' | | |]; cbn [bind]; try reflexivity.
    rewrite wrap64_small by lia.
    apply IH; lia.
Qed.

Lemma process_chunk_fold (c : Config) (body : Z -> Thread -> outcome Thread)
    (chunk_idx : Z) (th : Thread) :
  0 < kChunkSize c -> 0 <= chunk_idx ->
  chunk_idx + kChunkSize c + 8 <= 2 ^ 64 ->
  process_chunk c body chunk_idx th
  = fold_items body (chunk_items c chunk_idx) th.
Proof.
  intros HC Hlo Hhi. unfold process_chunk, chunk_items.
  rewrite wrap64_small by lia.
  apply item_loop_fold; try lia.
  - rewrite Z2Nat.id by (apply Z.div_pos; lia).
    pose proof (Z.div_mod (kChunkSize c + 7) 8 ltac:(lia)).
    pose proof (Z.mod_pos_bound (kChunkSize c + 7) 8 ltac:(lia)). lia.
  - assert ((kChunkSize c + 7) / 8 <= kChunkSize c).
    { apply Z.div_le_upper_bound; lia. }
    lia.
Qed.

(** ** The two thread functions have the common shape *)

Lemma thread_setup_store_turn (c : Config) (t : nat) (s : System) :
  thread_setup_store c t s
  = turn c (fun chunk_idx => chunk_idx <? wrap64 (kInitCount c * 8))
         (setup_item c) (fun _ _ g => g) t s.
Proof. reflexivity. Qed.

Lemma thread_run_benchmark_turn (c : Config) (o : Oracle) (FN : Z -> Op)
    (t : nat) (s : System) :
  thread_run_benchmark c o FN t s
  = turn c (fun chunk_idx => negb (kTxnCount c <=? chunk_idx / 8))
         (run_item c o FN)
         (fun t th g =>
            publish (end_time o t - start_time o t) (reads_done th)
                    (writes_done th) (fetch_sub_waiting g)) t s.
Proof.
  unfold thread_run_benchmark, turn.
  destruct (threads s !! t) as [th|]; [|reflexivity].
  destruct (finished th); [reflexivity|].
  cbn [fetch_add_idx].
  destruct (kTxnCount c <=? idx_ (globals s) / 8); reflexivity.
Qed.

(** ** Finished threads under update *)

Lemma count_finished_insert (ths : list Thread) (t : nat) (th th' : Thread) :
  ths !! t = Some th -> finished th = false ->
  count_finished (<[t := th']> ths)
  = ((if finished th' then 1 else 0) + count_finished ths)%nat.
Proof.
  revert t. induction ths as [|x ths IH]; intros t Hl Hf; [discriminate|].
  destruct t as [|t]; simpl in Hl |- *.
  - injection Hl as ->. rewrite Hf. reflexivity.
  - rewrite (IH t Hl Hf). lia.
Qed.

Lemma count_finished_le (ths : list Thread) :
  (count_finished ths <= length ths)%nat.
Proof.
  induction ths as [|x ths IH]; cbn; [lia|]. destruct (finished x); lia.
Qed.

Lemma count_finished_lt (ths : list Thread) (t : nat) (th : Thread) :
  ths !! t = Some th -> finished th = false ->
  (count_finished ths < length ths)%nat.
Proof.
  revert t. induction ths as [|x ths IH]; intros t Hl Hf; [discriminate|].
  destruct t as [|t]; simpl in Hl |- *.
  - injection Hl as ->. rewrite Hf. pose proof (count_finished_le ths). lia.
  - specialize (IH t Hl Hf). destruct (finished x); lia.
Qed.

Lemma count_finished_all (ths : list Thread) :
  Forall (fun th => finished th = true) ths ->
  count_finished ths = length ths.
Proof.
  induction 1 as [|x ths Hx _ IH]; cbn; [reflexivity|]. rewrite Hx, IH. lia.
Qed.

Lemma count_finished_replicate (n : nat) :
  count_finished (replicate n thread_start) = O.
Proof. induction n as [|n IH]; cbn; [reflexivity | exact IH]. Qed.

(** ** Tiling by consecutive chunks *)

Lemma chunk_starts_S (c : Config) (n : nat) :
  chunk_starts c (S n) = chunk_starts c n ++ [Z.of_nat n * kChunkSize c].
Proof. unfold chunk_starts. rewrite seq_S, map_app. reflexivity. Qed.

Lemma chunk_starts_lookup (c : Config) (n i : nat) (a : Z) :
  chunk_starts c n !! i = Some a ->
  a = Z.of_nat i * kChunkSize c /\ (i < n)%nat.
Proof.
  unfold chunk_starts. rewrite list_lookup_fmap.
  destruct (seq 0 n !! i) as [k|] eqn:Hk; [|discriminate].
  apply lookup_seq in Hk as [-> Hlt]. cbn. intros [= <-]. split; [reflexivity | exact Hlt].
Qed.

Lemma chunk_starts_partitions (c : Config) (corpus : Z) (n : nat) :
  0 < kChunkSize c -> Z.of_nat n * kChunkSize c = corpus ->
  partitions c corpus (chunk_starts c n).
Proof.
  intros HC Hn. split.
  - intros i j a b Hij Ha Hb x [[Ha1 Ha2] [Hb1 Hb2]].
    apply chunk_starts_lookup in Ha as [-> _].
    apply chunk_starts_lookup in Hb as [-> _].
    destruct (Nat.lt_ge_cases i j).
    + assert ((Z.of_nat i + 1) * kChunkSize c <= Z.of_nat j * kChunkSize c)
        by (apply Z.mul_le_mono_nonneg_r; lia).
      lia.
    + assert ((Z.of_nat j + 1) * kChunkSize c <= Z.of_nat i * kChunkSize c)
        by (apply Z.mul_le_mono_nonneg_r; lia).
      lia.
  - intros x. split.
    + intros Hx. exists (x / kChunkSize c * kChunkSize c). split.
      * unfold chunk_starts. apply list_elem_of_fmap.
        exists (Z.to_nat (x / kChunkSize c)).
        assert (0 <= x / kChunkSize c) by (apply Z.div_pos; lia).
        split; [rewrite Z2Nat.id by lia; reflexivity|].
        apply elem_of_seq. split; [lia|].
        assert (x / kChunkSize c < Z.of_nat n); [|lia].
        apply Z.div_lt_upper_bound; lia.
      * unfold in_chunk.
        pose proof (Z.div_mod x (kChunkSize c) ltac:(lia)).
        pose proof (Z.mod_pos_bound x (kChunkSize c) HC). lia.
    + intros (a & Ha & Hx1 & Hx2). unfold chunk_starts in Ha.
      apply list_elem_of_fmap in Ha as (k & -> & Hk).
      apply elem_of_seq in Hk.
      assert ((Z.of_nat k + 1) * kChunkSize c <= Z.of_nat n * kChunkSize c)
        by (apply Z.mul_le_mono_nonneg_r; lia).
      assert (0 <= Z.of_nat k * kChunkSize c) by (apply Z.mul_nonneg_nonneg; lia).
      lia.
Qed.

(** ** The work distributor

    The counter and the chunks handed out, for any thread function of the
    common shape whose test tells the chunks of the corpus from the rest. *)

Lemma item_loop_finished (body : Z -> Thread -> outcome Thread) :
  (forall idx th th', body idx th = Done th' -> finished th' = finished th) ->
  forall fuel idx hi th th',
    item_loop fuel body idx hi th = Done th' -> finished th' = finished th.
Proof.
  intros Hbody. induction fuel as [|fuel IH]; intros idx hi th th' H;
    cbn [item_loop] in H; [discriminate|].
  destruct (idx <? hi); [|injection H as <-; reflexivity].
  destruct (body idx th) as [th1| | |] eqn:Hb; cbn [bind] in H; try discriminate.
  rewrite (IH _ _ _ _ H). eapply Hbody, Hb.
Qed.

Section Distributor.
Variable c : Config.
Variable corpus : Z.
Variable W : nat.
Variable more : Z -> bool.
Variable body : Z -> Thread -> outcome Thread.
Variable leave : nat -> Thread -> Globals -> Globals.

Hypothesis HC : 0 < kChunkSize c.
Hypothesis Hdiv : corpus mod kChunkSize c = 0.
Hypothesis Hfit : corpus + Z.of_nat W * kChunkSize c <= 2 ^ 64.
Hypothesis Hmore : forall i, 0 <= i -> (more i = true <-> i < corpus).
Hypothesis Hbody :
  forall idx th th', body idx th = Done th' -> finished th' = finished th.
Hypothesis Hleave : forall t th g, idx_ (leave t th g) = idx_ g.

Lemma turn_counter_inv (t : nat) (s s' : System) :
  counter_inv c corpus W s ->
  turn c more body leave t s = Done s' ->
  counter_inv c corpus W s'.
Proof.
  intros (HW & Hidx & Hst & Hle & Hfin). unfold turn.
  destruct (threads s !! t) as [th|] eqn:Hth;
    [|intros [= <-]; repeat split; assumption].
  destruct (finished th) eqn:Hf; [intros [= <-]; repeat split; assumption|].
  cbn [fetch_add_idx].
  pose proof (count_finished_lt _ _ _ Hth Hf) as Hlt. rewrite HW in Hlt.
  set (n := (length (issued s) + count_finished (threads s))%nat) in *.
  assert (Hrange : 0 <= Z.of_nat n * kChunkSize c < 2 ^ 64).
  { split; [apply Z.mul_nonneg_nonneg; lia|].
    assert (Z.of_nat (count_finished (threads s)) * kChunkSize c
            <= (Z.of_nat W - 1) * kChunkSize c)
      by (apply Z.mul_le_mono_nonneg_r; lia).
    unfold n. rewrite Nat2Z.inj_add. lia. }
  assert (Hold : idx_ (globals s) = Z.of_nat n * kChunkSize c)
    by (rewrite Hidx; apply wrap64_small, Hrange).
  assert (Hnew : wrap64 (idx_ (globals s) + kChunkSize c)
                 = wrap64 (Z.of_nat (S n) * kChunkSize c))
    by (rewrite Hold; f_equal; lia).
  destruct (more (idx_ (globals s))) eqn:Hm.
  - apply Hmore in Hm; [|lia].
    destruct (process_chunk c body (idx_ (globals s)) (claim (idx_ (globals s)) th))
      as [th'| | |] eqn:Hp; cbn [bind]; try discriminate.
    intros [= <-]. unfold counter_inv. cbn [threads globals issued idx_].
    assert (Hf' : finished th' = false).
    { unfold process_chunk in Hp.
      apply (item_loop_finished body Hbody) in Hp. rewrite Hp. exact Hf. }
    assert (Hz : count_finished (threads s) = O).
    { destruct (Nat.eq_dec (count_finished (threads s)) O) as [E|E];
        [exact E|].
      assert (Z.of_nat (length (issued s)) * kChunkSize c = corpus)
        by (apply Hfin; lia).
      assert (Z.of_nat (length (issued s) + 1) * kChunkSize c
              <= Z.of_nat n * kChunkSize c)
        by (apply Z.mul_le_mono_nonneg_r; unfold n; lia).
      lia. }
    rewrite (count_finished_insert _ _ _ _ Hth Hf), Hf', Hz, length_app.
    cbn [length]. rewrite length_insert.
    unfold n in *. rewrite Hz, Nat.add_0_r in *.
    repeat split.
    + exact HW.
    + rewrite Hnew. f_equal. lia.
    + rewrite map_app, Hst, Nat.add_1_r, chunk_starts_S. cbn. rewrite Hold.
      reflexivity.
    + apply Z.mod_divide in Hdiv; [|lia]. destruct Hdiv as [q ->].
      assert (Z.of_nat (length (issued s)) < q)
        by (apply (Z.mul_lt_mono_pos_r (kChunkSize c)); lia).
      replace (Z.of_nat (length (issued s) + 1))
        with (Z.of_nat (length (issued s)) + 1) by lia.
      apply Z.mul_le_mono_nonneg_r; lia.
    + cbn. lia.
  - assert (Hge : corpus <= idx_ (globals s)).
    { destruct (Z.lt_ge_cases (idx_ (globals s)) corpus) as [Hlt'|]; [|assumption].
      apply Hmore in Hlt'; [congruence | lia]. }
    intros [= <-]. unfold counter_inv. cbn [threads globals issued idx_].
    rewrite (count_finished_insert _ _ _ _ Hth Hf), length_insert, Hleave.
    cbn [finish finished idx_].
    assert (Hall : Z.of_nat (length (issued s)) * kChunkSize c = corpus).
    { destruct (Nat.eq_dec (count_finished (threads s)) O) as [E|E].
      - unfold n in Hold. rewrite E, Nat.add_0_r in Hold. lia.
      - apply Hfin. lia. }
    split; [exact HW|]. split; [rewrite Hnew; f_equal; unfold n; lia|].
    split; [exact Hst|]. split; [exact Hle|]. intros _. exact Hall.
Qed.

Lemma run_schedule_counter_inv (sched : list nat) :
  forall s s', counter_inv c corpus W s ->
    run_schedule (turn c more body leave) sched s = Done s' ->
    counter_inv c corpus W s'.
Proof.
  induction sched as [|t sched IH]; intros s s' Hinv H; cbn in H.
  - injection H as <-. exact Hinv.
  - destruct (turn c more body leave t s) as [s1| | |] eqn:Ht; cbn [bind] in H;
      try discriminate.
    eapply IH; [|exact H]. eapply turn_counter_inv; eassumption.
Qed.

Lemma join_counter_inv (fuel : nat) (t : nat) :
  forall s s', counter_inv c corpus W s ->
    join fuel (turn c more body leave) t s = Done s' ->
    counter_inv c corpus W s'.
Proof.
  induction fuel as [|fuel IH]; intros s s' Hinv H; cbn [join] in H.
  - destruct (threads s !! t) as [th|]; [|injection H as <-; exact Hinv].
    destruct (finished th); [injection H as <-; exact Hinv | discriminate].
  - destruct (threads s !! t) as [th|]; [|injection H as <-; exact Hinv].
    destruct (finished th); [injection H as <-; exact Hinv|].
    destruct (turn c more body leave t s) as [s1| | |] eqn:Ht; cbn [bind] in H;
      try discriminate.
    eapply IH; [|exact H]. eapply turn_counter_inv; eassumption.
Qed.

Lemma join_all_counter_inv (fuel : nat) (ts : list nat) :
  forall s s', counter_inv c corpus W s ->
    join_all fuel (turn c more body leave) ts s = Done s' ->
    counter_inv c corpus W s'.
Proof.
  induction ts as [|t ts IH]; intros s s' Hinv H; cbn [join_all] in H.
  - injection H as <-. exact Hinv.
  - destruct (join fuel (turn c more body leave) t s) as [s1| | |] eqn:Ht;
      cbn [bind] in H; try discriminate.
    eapply IH; [|exact H]. eapply join_counter_inv; eassumption.
Qed.

(** Once every thread of a phase with at least one thread has returned,
    the chunks handed out are the chunks of the corpus, in order. *)
Lemma counter_inv_final (s : System) :
  (0 < W)%nat -> counter_inv c corpus W s -> all_finished s ->
  map snd (issued s) = chunk_starts c (Z.to_nat (corpus / kChunkSize c))
  /\ partitions c corpus (map snd (issued s)).
Proof.
  intros HW (Hlen & _ & Hst & _ & Hfin) Hall.
  assert (Hn : Z.of_nat (length (issued s)) * kChunkSize c = corpus).
  { apply Hfin. rewrite (count_finished_all _ Hall). lia. }
  rewrite Hst. split.
  - f_equal. rewrite <- Hn, Z.div_mul by lia. lia.
  - apply chunk_starts_partitions; assumption.
Qed.
End Distributor.

(** ** Joining *)

Section Joining.
Variable c : Config.
Variable more : Z -> bool.
Variable body : Z -> Thread -> outcome Thread.
Variable leave : nat -> Thread -> Globals -> Globals.

Let step := turn c more body leave.

Lemma turn_length (t : nat) (s s' : System) :
  step t s = Done s' -> length (threads s') = length (threads s).
Proof.
  unfold step, turn.
  destruct (threads s !! t) as [th|]; [|intros [= <-]; reflexivity].
  destruct (finished th); [intros [= <-]; reflexivity|].
  cbn [fetch_add_idx]. destruct (more _).
  - destruct (process_chunk _ _ _ _); cbn [bind]; try discriminate.
    intros [= <-]. cbn. apply length_insert.
  - intros [= <-]. cbn. apply length_insert.
Qed.

Lemma turn_finished_at (t u : nat) (s s' : System) :
  finished_at s u -> step t s = Done s' -> finished_at s' u.
Proof.
  intros (thu & Hu & Hfu). unfold step, turn.
  destruct (threads s !! t) as [th|] eqn:Hth;
    [|intros [= <-]; exists thu; auto].
  destruct (finished th) eqn:Hf; [intros [= <-]; exists thu; auto|].
  assert (t <> u) by (intros ->; congruence).
  cbn [fetch_add_idx]. destruct (more _).
  - destruct (process_chunk _ _ _ _); cbn [bind]; try discriminate.
    intros [= <-]. exists thu. cbn. rewrite list_lookup_insert_ne; auto.
  - intros [= <-]. exists thu. cbn. rewrite list_lookup_insert_ne; auto.
Qed.

Lemma join_spec (fuel : nat) (t : nat) :
  forall s s', join fuel step t s = Done s' ->
    length (threads s') = length (threads s)
    /\ (forall u, finished_at s u -> finished_at s' u)
    /\ ((t < length (threads s))%nat -> finished_at s' t).
Proof.
  induction fuel as [|fuel IH]; intros s s' H; cbn [join] in H.
  - destruct (threads s !! t) as [th|] eqn:Hth.
    + destruct (finished th) eqn:Hf; [|discriminate]. injection H as <-.
      repeat split; auto. intros _. exists th. auto.
    + injection H as <-. repeat split; auto.
      intros Hlt. apply lookup_ge_None in Hth. lia.
  - destruct (threads s !! t) as [th|] eqn:Hth.
    + destruct (finished th) eqn:Hf.
      * injection H as <-. repeat split; auto. intros _. exists th. auto.
      * destruct (step t s) as [s1| | |] eqn:Ht; cbn [bind] in H;
          try discriminate.
        destruct (IH _ _ H) as (Hlen & Hkeep & Hdone).
        pose proof (turn_length _ _ _ Ht) as Hlen1.
        repeat split.
        -- congruence.
        -- intros u Hu. apply Hkeep. eapply turn_finished_at; eassumption.
        -- intros Hlt. apply Hdone. lia.
    + injection H as <-. repeat split; auto.
      intros Hlt. apply lookup_ge_None in Hth. lia.
Qed.

Lemma join_all_spec (fuel : nat) (ts : list nat) :
  forall s s', join_all fuel step ts s = Done s' ->
    length (threads s') = length (threads s)
    /\ (forall u, finished_at s u -> finished_at s' u)
    /\ (forall t, t ∈ ts -> (t < length (threads s))%nat -> finished_at s' t).
Proof.
  induction ts as [|t ts IH]; intros s s' H; cbn [join_all] in H.
  - injection H as <-. repeat split; auto. intros t Ht. inversion Ht.
  - destruct (join fuel step t s) as [s1| | |] eqn:Ht; cbn [bind] in H;
      try discriminate.
    destruct (join_spec _ _ _ _ Ht) as (Hlen1 & Hkeep1 & Hdone1).
    destruct (IH _ _ H) as (Hlen & Hkeep & Hdone).
    repeat split.
    + congruence.
    + auto.
    + intros u Hu Hlt. apply elem_of_cons in Hu as [-> | Hu].
      * apply Hkeep, Hdone1, Hlt.
      * apply Hdone; [exact Hu | lia].
Qed.

Lemma join_all_finished (fuel : nat) (s s' : System) :
  join_all fuel step (thread_ids s) s = Done s' ->
  length (threads s') = length (threads s) /\ all_finished s'.
Proof.
  intros H. destruct (join_all_spec _ _ _ _ H) as (Hlen & _ & Hdone).
  split; [exact Hlen|]. unfold all_finished. apply Forall_lookup.
  intros t th Hth.
  assert (Hlt : (t < length (threads s))%nat)
    by (rewrite <- Hlen; eapply lookup_lt_Some; eassumption).
  destruct (Hdone t) as (th' & Hth' & Hf); [|exact Hlt|congruence].
  unfold thread_ids. apply elem_of_seq. lia.
Qed.

Lemma run_schedule_length (sched : list nat) :
  forall s s', run_schedule step sched s = Done s' ->
    length (threads s') = length (threads s).
Proof.
  induction sched as [|t sched IH]; intros s s' H; cbn in H.
  - injection H as <-. reflexivity.
  - destruct (step t s) as [s1| | |] eqn:Ht; cbn [bind] in H; try discriminate.
    rewrite (IH _ _ H). eapply turn_length, Ht.
Qed.
End Joining.

(** ** The bodies keep a thread running *)

Lemma setup_item_finished (c : Config) (idx : Z) (th th' : Thread) :
  setup_item c idx th = Done th' -> finished th' = finished th.
Proof. intros [= <-]. reflexivity. Qed.

Lemma run_item_finished (c : Config) (o : Oracle) (FN : Z -> Op)
    (idx : Z) (th th' : Thread) :
  run_item c o FN idx th = Done th' -> finished th' = finished th.
Proof.
  unfold run_item. destruct (FN (draw o idx)); try discriminate;
    try (intros [= <-]; reflexivity).
  destruct (wrap8 (rmw_status o idx) =? 0); intros [= <-]; reflexivity.
Qed.

Lemma spawn_counter_inv (c : Config) (corpus W : Z) (g : Globals) :
  0 <= corpus -> idx_ g = 0 ->
  counter_inv c corpus (Z.to_nat W) (mkSystem g (spawn W) []).
Proof.
  intros HL Hg. unfold counter_inv, spawn. cbn [threads globals issued length].
  rewrite length_replicate, count_finished_replicate, Hg.
  repeat split; try reflexivity; lia.
Qed.

Lemma run_more_spec (K i : Z) :
  0 <= i -> negb (K <=? i / 8) = true <-> i < K * 8.
Proof.
  intros Hi. rewrite negb_true_iff, Z.leb_gt. split; intros H.
  - destruct (Z.lt_ge_cases i (K * 8)) as [|Hge]; [assumption|].
    assert (K <= i / 8) by (apply Z.div_le_lower_bound; lia). lia.
  - apply Z.div_lt_upper_bound; lia.
Qed.

Lemma run_schedule_ext (step step' : nat -> System -> outcome System) :
  (forall t s, step t s = step' t s) ->
  forall sched s, run_schedule step sched s = run_schedule step' sched s.
Proof.
  intros Hext. induction sched as [|t sched IH]; intros s; cbn; [reflexivity|].
  rewrite Hext. destruct (step' t s); cbn [bind]; auto.
Qed.

Lemma join_ext (step step' : nat -> System -> outcome System) :
  (forall t s, step t s = step' t s) ->
  forall fuel t s, join fuel step t s = join fuel step' t s.
Proof.
  intros Hext. induction fuel as [|fuel IH]; intros t s; cbn [join];
    [reflexivity|].
  destruct (threads s !! t) as [th|]; [|reflexivity].
  destruct (finished th); [reflexivity|].
  rewrite Hext. destruct (step' t s); cbn [bind]; auto.
Qed.

Lemma join_all_ext (step step' : nat -> System -> outcome System) :
  (forall t s, step t s = step' t s) ->
  forall fuel ts s, join_all fuel step ts s = join_all fuel step' ts s.
Proof.
  intros Hext fuel. induction ts as [|t ts IH]; intros s; cbn [join_all];
    [reflexivity|].
  rewrite (join_ext _ _ Hext). destruct (join fuel step' t s); cbn [bind]; auto.
Qed.

(** What [setup_store] leaves behind. *)
Lemma setup_store_counter (c : Config) (o : Oracle) (W : Z) (g : Globals)
    (s : System) :
  0 < kChunkSize c ->
  wrap64 (kInitCount c * 8) mod kChunkSize c = 0 ->
  wrap64 (kInitCount c * 8) + Z.of_nat (Z.to_nat W) * kChunkSize c <= 2 ^ 64 ->
  setup_store c o W g = Done s ->
  counter_inv c (wrap64 (kInitCount c * 8)) (Z.to_nat W) s /\ all_finished s.
Proof.
  intros HC Hdiv Hfit Hs. unfold setup_store in Hs.
  set (L := wrap64 (kInitCount c * 8)) in *.
  set (s0 := mkSystem _ (spawn W) []) in Hs.
  assert (Hinv0 : counter_inv c L (Z.to_nat W) s0)
    by (apply spawn_counter_inv; [apply wrap64_range | reflexivity]).
  destruct (run_schedule (thread_setup_store c) (schedule o) s0)
    as [s1| | |] eqn:H1; cbn [bind] in Hs; try discriminate.
  rewrite (run_schedule_ext _ _ (thread_setup_store_turn c)) in H1.
  rewrite (join_all_ext _ _ (thread_setup_store_turn c)) in Hs.
  assert (Hmore : forall i, 0 <= i -> (i <? L) = true <-> i < L)
    by (intros; apply Z.ltb_lt).
  assert (Hinv1 : counter_inv c L (Z.to_nat W) s1).
  { eapply (run_schedule_counter_inv c L (Z.to_nat W) (fun i => i <? L));
      [exact HC | exact Hdiv | exact Hfit | exact Hmore
      | apply setup_item_finished | | exact Hinv0 | exact H1].
    reflexivity. }
  split.
  - eapply (join_all_counter_inv c L (Z.to_nat W) (fun i => i <? L));
      [exact HC | exact Hdiv | exact Hfit | exact Hmore
      | apply setup_item_finished | | exact Hinv1 | exact Hs].
    reflexivity.
  - apply join_all_finished in Hs as [_ Hall]. exact Hall.
Qed.

(** What [run_benchmark] leaves behind. *)
Lemma run_benchmark_counter (c : Config) (o : Oracle) (FN : Z -> Op) (W : Z)
    (r : double) (s : System) :
  0 < kChunkSize c ->
  (kTxnCount c * 8) mod kChunkSize c = 0 ->
  0 <= kTxnCount c * 8 ->
  kTxnCount c * 8 + Z.of_nat (Z.to_nat W) * kChunkSize c <= 2 ^ 64 ->
  run_benchmark c o FN W = Done (r, s) ->
  counter_inv c (kTxnCount c * 8) (Z.to_nat W) s /\ all_finished s.
Proof.
  intros HC Hdiv HL Hfit Hs. unfold run_benchmark in Hs.
  set (L := kTxnCount c * 8) in *.
  set (s0 := mkSystem _ (spawn W) []) in Hs.
  assert (Hinv0 : counter_inv c L (Z.to_nat W) s0)
    by (apply spawn_counter_inv; [exact HL | reflexivity]).
  destruct (run_schedule (thread_run_benchmark c o FN) (schedule o) s0)
    as [s1| | |] eqn:H1; cbn [bind] in Hs; try discriminate.
  destruct (join_all _ (thread_run_benchmark c o FN) (thread_ids s1) s1)
    as [s2| | |] eqn:H2; cbn [bind] in Hs; try discriminate.
  destruct (0 <? threads_waiting_ (globals s2)); [discriminate|].
  injection Hs as _ <-.
  rewrite (run_schedule_ext _ _ (thread_run_benchmark_turn c o FN)) in H1.
  rewrite (join_all_ext _ _ (thread_run_benchmark_turn c o FN)) in H2.
  assert (Hmore : forall i, 0 <= i ->
            negb (kTxnCount c <=? i / 8) = true <-> i < L)
    by (intros; apply run_more_spec; assumption).
  assert (Hinv1 : counter_inv c L (Z.to_nat W) s1).
  { eapply (run_schedule_counter_inv c L (Z.to_nat W));
      [exact HC | exact Hdiv | exact Hfit | exact Hmore
      | apply (run_item_finished c o FN) | | exact Hinv0 | exact H1].
    reflexivity. }
  split.
  - eapply (join_all_counter_inv c L (Z.to_nat W));
      [exact HC | exact Hdiv | exact Hfit | exact Hmore
      | apply (run_item_finished c o FN) | | exact Hinv1 | exact H2].
    reflexivity.
  - apply join_all_finished in H2 as [_ Hall]. exact Hall.
Qed.

Lemma phase_chunks_tile (c : Config) (o : Oracle) (k : PhaseKind)
    (FN : Z -> Op) (W : Z) (g : Globals) (chunks : list Z) :
  0 < kChunkSize c ->
  0 <= corpus_length c k ->
  corpus_length c k mod kChunkSize c = 0 ->
  1 <= W ->
  corpus_length c k + W * kChunkSize c <= 2 ^ 64 ->
  phase_chunks c o k FN W g = Done chunks ->
  chunks = chunk_starts c (Z.to_nat (corpus_length c k / kChunkSize c))
  /\ partitions c (corpus_length c k) chunks.
Proof.
  intros HC HL Hdiv HW Hfit H.
  assert (Hfit' : corpus_length c k + Z.of_nat (Z.to_nat W) * kChunkSize c
                  <= 2 ^ 64) by (rewrite Z2Nat.id; lia).
  assert (HWn : (0 < Z.to_nat W)%nat) by lia.
  destruct k; cbn [phase_chunks corpus_length] in *.
  - destruct (setup_store c o W g) as [s| | |] eqn:Hs; cbn [bind] in H;
      try discriminate.
    injection H as <-.
    assert (Hw : wrap64 (kInitCount c * 8) = kInitCount c * 8)
      by (apply wrap64_small; nia).
    apply setup_store_counter in Hs as [Hinv Hall]; rewrite ?Hw; try assumption.
    rewrite Hw in Hinv.
    eapply counter_inv_final; eassumption.
  - destruct (run_benchmark c o FN W) as [[r s]| | |] eqn:Hs; cbn [bind] in H;
      try discriminate.
    injection H as <-. cbn [snd].
    apply run_benchmark_counter in Hs as [Hinv Hall]; try assumption.
    eapply counter_inv_final; eassumption.
Qed.



(** ** One item *)

Lemma maintain_cadence (c : Config) (idx : Z) :
  0 < kRefreshInterval c ->
  kCompletePendingInterval c mod kRefreshInterval c = 0 ->
  maintain c idx = map (pair (Some idx)) (cadence c idx).
Proof.
  intros HR HP. unfold maintain, cadence.
  destruct (Z.eqb_spec (idx mod kRefreshInterval c) 0) as [E|E].
  - destruct (idx mod kCompletePendingInterval c =? 0); reflexivity.
  - destruct (Z.eqb_spec (idx mod kCompletePendingInterval c) 0) as [E'|E'];
      [|reflexivity].
    exfalso. apply E.
    apply Z.mod_divide in HP; [|lia]. destruct HP as [q Hq].
    destruct (Z.eq_dec (kCompletePendingInterval c) 0) as [E0|E0].
    + rewrite E0, Z.mod_0_r in E'. subst idx. apply Z.mod_0_l. lia.
    + apply Z.mod_divide in E'; [|exact E0]. destruct E' as [q' ->].
      rewrite Hq, Z.mul_assoc. apply Z_mod_mult.
Qed.

Lemma setup_item_calls (c : Config) (idx : Z) (th th' : Thread) :
  0 < kRefreshInterval c ->
  kCompletePendingInterval c mod kRefreshInterval c = 0 ->
  setup_item c idx th = Done th' ->
  calls th' = calls th ++ item_calls c setup_operation idx
  /\ claimed th' = claimed th /\ finished th' = finished th.
Proof.
  intros HR HP [= <-]. cbn [log calls claimed finished].
  rewrite maintain_cadence by assumption.
  unfold item_calls. rewrite map_app. auto.
Qed.

Lemma run_item_calls (c : Config) (o : Oracle) (FN : Z -> Op)
    (idx : Z) (th th' : Thread) :
  0 < kRefreshInterval c ->
  kCompletePendingInterval c mod kRefreshInterval c = 0 ->
  run_item c o FN idx th = Done th' ->
  calls th' = calls th ++ item_calls c (run_operation o FN) idx
  /\ claimed th' = claimed th /\ finished th' = finished th.
Proof.
  intros HR HP. unfold run_item, item_calls, run_operation.
  rewrite maintain_cadence by assumption. rewrite map_app.
  destruct (FN (draw o idx)); try discriminate.
  - intros [= <-]. cbn. rewrite <- app_assoc. auto.
  - intros [= <-]. cbn. rewrite <- app_assoc. auto.
  - intros [= <-]. cbn. rewrite <- app_assoc. auto.
  - destruct (wrap8 (rmw_status o idx) =? 0); intros [= <-]; cbn;
      rewrite <- app_assoc; auto.
Qed.

(** C3: a read-modify-write of the measurement loop whose status code (a
    [uint8_t]) is 0 adds one to [writes_done]; any other status leaves it
    as it was; [reads_done] is the same either way. *)
Theorem rmw_counts_iff_status_zero (c : Config) (o : Oracle) (FN : Z -> Op)
    (idx : Z) (th : Thread) :
  FN (draw o idx) = ReadModifyWrite ->
  0 <= rmw_status o idx < 256 ->
  exists th',
    run_item c o FN idx th = Done th'
    /\ reads_done th' = reads_done th
    /\ (writes_done th' = writes_done th + 1 <-> rmw_status o idx = 0)
    /\ (rmw_status o idx <> 0 -> writes_done th' = writes_done th).
Proof.
  intros HFN Hst. unfold run_item. rewrite HFN.
  assert (Hw : wrap8 (rmw_status o idx) = rmw_status o idx)
    by (unfold wrap8; apply Z.mod_small; exact Hst).
  rewrite Hw.
  destruct (Z.eqb_spec (rmw_status o idx) 0) as [E|E]; eexists;
    (split; [reflexivity|]); cbn; repeat split; intros; try lia.
Qed.

Lemma rmw_counts_iff_status_zero_witness :
  exists th',
    run_item small small_oracle ycsb_rmw_100 8 thread_start = Done th'
    /\ reads_done th' = reads_done thread_start
    /\ (writes_done th' = writes_done thread_start + 1
        <-> rmw_status small_oracle 8 = 0)
    /\ (rmw_status small_oracle 8 <> 0
        -> writes_done th' = writes_done thread_start).
Proof.
  apply (rmw_counts_iff_status_zero small small_oracle ycsb_rmw_100 8
           thread_start); [reflexivity | cbn; lia].
Defined.

(** ** Invariants of a phase *)

Lemma turn_cases (c : Config) (more : Z -> bool)
    (body : Z -> Thread -> outcome Thread)
    (leave : nat -> Thread -> Globals -> Globals)
    (t : nat) (s s' : System) :
  turn c more body leave t s = Done s' ->
  s' = s
  \/ (exists th th',
        threads s !! t = Some th /\ finished th = false
        /\ more (idx_ (globals s)) = true
        /\ process_chunk c body (idx_ (globals s))
                         (claim (idx_ (globals s)) th) = Done th'
        /\ s' = mkSystem (snd (fetch_add_idx c (globals s)))
                         (<[t := th']> (threads s))
                         (issued s ++ [(t, idx_ (globals s))]))
  \/ (exists th,
        threads s !! t = Some th /\ finished th = false
        /\ more (idx_ (globals s)) = false
        /\ s' = mkSystem (leave t (finish (log epilogue th))
                                (snd (fetch_add_idx c (globals s))))
                         (<[t := finish (log epilogue th)]> (threads s))
                         (issued s)).
Proof.
  unfold turn. destruct (threads s !! t) as [th|] eqn:Hth;
    [|intros [= <-]; left; reflexivity].
  destruct (finished th) eqn:Hf; [intros [= <-]; left; reflexivity|].
  cbn [fetch_add_idx]. destruct (more (idx_ (globals s))) eqn:Hm.
  - destruct (process_chunk _ _ _ _) as [th'| | |] eqn:Hp; cbn [bind];
      try discriminate.
    intros [= <-]. right; left. exists th, th'. auto.
  - intros [= <-]. right; right. exists th. auto.
Qed.

Section Preservation.
Variable step : nat -> System -> outcome System.
Variable I : System -> Prop.
Hypothesis Hstep : forall t s s', I s -> step t s = Done s' -> I s'.

Lemma run_schedule_preserves (sched : list nat) :
  forall s s', I s -> run_schedule step sched s = Done s' -> I s'.
Proof.
  induction sched as [|t sched IH]; intros s s' Hinv H; cbn in H.
  - injection H as <-. exact Hinv.
  - destruct (step t s) as [s1| | |] eqn:Ht; cbn [bind] in H; try discriminate.
    eapply IH; [|exact H]. eapply Hstep; eassumption.
Qed.

Lemma join_preserves (fuel : nat) (t : nat) :
  forall s s', I s -> join fuel step t s = Done s' -> I s'.
Proof.
  induction fuel as [|fuel IH]; intros s s' Hinv H; cbn [join] in H.
  - destruct (threads s !! t) as [th|]; [|injection H as <-; exact Hinv].
    destruct (finished th); [injection H as <-; exact Hinv | discriminate].
  - destruct (threads s !! t) as [th|]; [|injection H as <-; exact Hinv].
    destruct (finished th); [injection H as <-; exact Hinv|].
    destruct (step t s) as [s1| | |] eqn:Ht; cbn [bind] in H; try discriminate.
    eapply IH; [|exact H]. eapply Hstep; eassumption.
Qed.

Lemma join_all_preserves (fuel : nat) (ts : list nat) :
  forall s s', I s -> join_all fuel step ts s = Done s' -> I s'.
Proof.
  induction ts as [|t ts IH]; intros s s' Hinv H; cbn [join_all] in H.
  - injection H as <-. exact Hinv.
  - destruct (join fuel step t s) as [s1| | |] eqn:Ht; cbn [bind] in H;
      try discriminate.
    eapply IH; [|exact H]. eapply join_preserves; eassumption.
Qed.
End Preservation.

Section ThreadInvariant.
Variable c : Config.
Variable corpus : Z.
Variable more : Z -> bool.
Variable body : Z -> Thread -> outcome Thread.
Variable leave : nat -> Thread -> Globals -> Globals.
Variable P : Thread -> Prop.

Hypothesis Hmore : forall i, more i = true -> i < corpus.
Hypothesis Hleave : forall t th g, idx_ (leave t th g) = idx_ g.
Hypothesis Hchunk :
  forall chunk_idx th th',
    P th -> finished th = false -> 0 <= chunk_idx < corpus ->
    process_chunk c body chunk_idx (claim chunk_idx th) = Done th' -> P th'.
Hypothesis Hleaving :
  forall th, P th -> finished th = false -> P (finish (log epilogue th)).

Lemma turn_threads_inv (t : nat) (s s' : System) :
  0 <= idx_ (globals s) /\ Forall P (threads s) ->
  turn c more body leave t s = Done s' ->
  0 <= idx_ (globals s') /\ Forall P (threads s').
Proof.
  intros [Hidx Hall] H.
  apply turn_cases in H
    as [-> | [(th & th' & Hth & Hf & Hm & Hp & ->) | (th & Hth & Hf & Hm & ->)]].
  - auto.
  - cbn [globals threads fetch_add_idx snd idx_]. split.
    + apply wrap64_range.
    + apply Forall_insert; [exact Hall|].
      eapply Hchunk; [| exact Hf | | exact Hp].
      * eapply Forall_lookup_1; eassumption.
      * split; [exact Hidx | apply Hmore, Hm].
  - cbn [globals threads]. rewrite Hleave. cbn [fetch_add_idx snd idx_]. split.
    + apply wrap64_range.
    + apply Forall_insert; [exact Hall|].
      apply Hleaving; [|exact Hf]. eapply Forall_lookup_1; eassumption.
Qed.
End ThreadInvariant.

(** ** The calls of a session *)

Lemma fold_items_calls (c : Config) (ops : Z -> Call)
    (body : Z -> Thread -> outcome Thread) :
  (forall idx th th', body idx th = Done th' ->
     calls th' = calls th ++ item_calls c ops idx
     /\ claimed th' = claimed th /\ finished th' = finished th) ->
  forall l th th', fold_items body l th = Done th' ->
    calls th' = calls th ++ flat_map (item_calls c ops) l
    /\ claimed th' = claimed th /\ finished th' = finished th.
Proof.
  intros Hbody. induction l as [|idx l IH]; intros th th' H; cbn in H.
  - injection H as <-. rewrite app_nil_r. auto.
  - destruct (body idx th) as [th1| | |] eqn:Hb; cbn [bind] in H; try discriminate.
    destruct (Hbody _ _ _ Hb) as (Hc1 & Hcl1 & Hf1).
    destruct (IH _ _ H) as (Hc & Hcl & Hf).
    cbn [flat_map]. rewrite Hc, Hc1, <- app_assoc. split; [reflexivity|].
    split; congruence.
Qed.

Lemma items_of_app (c : Config) (l1 l2 : list Z) :
  items_of c (l1 ++ l2) = items_of c l1 ++ items_of c l2.
Proof. unfold items_of. apply flat_map_app. Qed.

Section Sessions.
Variable c : Config.
Variable corpus : Z.
Variable ops : Z -> Call.
Variable body : Z -> Thread -> outcome Thread.

Hypothesis HC : 0 < kChunkSize c.
Hypothesis Hrange : corpus + kChunkSize c + 8 <= 2 ^ 64.
Hypothesis Hbody :
  forall idx th th', body idx th = Done th' ->
    calls th' = calls th ++ item_calls c ops idx
    /\ claimed th' = claimed th /\ finished th' = finished th.

Lemma process_chunk_calls_inv (chunk_idx : Z) (th th' : Thread) :
  calls_inv c ops th -> finished th = false -> 0 <= chunk_idx < corpus ->
  process_chunk c body chunk_idx (claim chunk_idx th) = Done th' ->
  calls_inv c ops th'.
Proof.
  intros Hinv Hf Hidx Hp.
  rewrite process_chunk_fold in Hp by lia.
  apply (fold_items_calls c ops body Hbody) in Hp as (Hc & Hcl & Hf').
  unfold calls_inv in *. cbn [claim calls claimed finished] in *.
  rewrite Hc, Hcl, Hf', Hinv, Hf, items_of_app, flat_map_app.
  rewrite !app_nil_r. unfold items_of at 3. cbn [flat_map].
  rewrite app_nil_r. reflexivity.
Qed.

Lemma leaving_calls_inv (th : Thread) :
  calls_inv c ops th -> finished th = false ->
  calls_inv c ops (finish (log epilogue th)).
Proof.
  intros Hinv Hf. unfold calls_inv in *.
  cbn [finish log calls claimed finished]. rewrite Hinv, Hf, app_nil_r.
  reflexivity.
Qed.
End Sessions.

Lemma spawn_Forall (P : Thread -> Prop) (W : Z) :
  P thread_start -> Forall P (spawn W).
Proof. intros H. unfold spawn. apply Forall_replicate. exact H. Qed.

Lemma calls_inv_start (c : Config) (ops : Z -> Call) :
  calls_inv c ops thread_start.
Proof. reflexivity. Qed.

(** ** What a coordinator's result satisfies *)

Lemma run_benchmark_inv (c : Config) (o : Oracle) (FN : Z -> Op) (W : Z)
    (r : double) (s : System) (I : System -> Prop) :
  I (mkSystem (mkGlobals 0 W 0 0 0) (spawn W) []) ->
  (forall t s s', I s -> thread_run_benchmark c o FN t s = Done s' -> I s') ->
  run_benchmark c o FN W = Done (r, s) ->
  I s /\ all_finished s /\ length (threads s) = Z.to_nat W
  /\ r = ops_per_second_per_thread (globals s)
  /\ threads_waiting_ (globals s) <= 0.
Proof.
  intros H0 Hstep Hs. unfold run_benchmark in Hs.
  set (s0 := mkSystem _ (spawn W) []) in *.
  destruct (run_schedule (thread_run_benchmark c o FN) (schedule o) s0)
    as [s1| | |] eqn:H1; cbn [bind] in Hs; try discriminate.
  destruct (join_all _ (thread_run_benchmark c o FN) (thread_ids s1) s1)
    as [s2| | |] eqn:H2; cbn [bind] in Hs; try discriminate.
  destruct (Z.ltb_spec 0 (threads_waiting_ (globals s2))); [discriminate|].
  injection Hs as <- <-.
  assert (I1 : I s1) by (eapply run_schedule_preserves; eassumption).
  assert (I2 : I s2) by (eapply join_all_preserves; eassumption).
  rewrite (run_schedule_ext _ _ (thread_run_benchmark_turn c o FN)) in H1.
  rewrite (join_all_ext _ _ (thread_run_benchmark_turn c o FN)) in H2.
  apply run_schedule_length in H1.
  apply join_all_finished in H2 as [Hlen Hall].
  repeat split; try assumption.
  rewrite Hlen, H1. unfold s0, spawn. cbn. apply length_replicate.
Qed.

Lemma setup_store_inv (c : Config) (o : Oracle) (W : Z) (g : Globals)
    (s : System) (I : System -> Prop) :
  I (mkSystem (mkGlobals 0 (threads_waiting_ g) (total_duration_ g)
                         (total_reads_done_ g) (total_writes_done_ g))
              (spawn W) []) ->
  (forall t s s', I s -> thread_setup_store c t s = Done s' -> I s') ->
  setup_store c o W g = Done s ->
  I s /\ all_finished s /\ length (threads s) = Z.to_nat W.
Proof.
  intros H0 Hstep Hs. unfold setup_store in Hs.
  set (s0 := mkSystem _ (spawn W) []) in *.
  destruct (run_schedule (thread_setup_store c) (schedule o) s0)
    as [s1| | |] eqn:H1; cbn [bind] in Hs; try discriminate.
  assert (I1 : I s1) by (eapply run_schedule_preserves; eassumption).
  assert (I2 : I s) by (eapply join_all_preserves; eassumption).
  rewrite (run_schedule_ext _ _ (thread_setup_store_turn c)) in H1.
  rewrite (join_all_ext _ _ (thread_setup_store_turn c)) in Hs.
  apply run_schedule_length in H1.
  apply join_all_finished in Hs as [Hlen Hall].
  repeat split; try assumption.
  rewrite Hlen, H1. unfold s0, spawn. cbn. apply length_replicate.
Qed.

Lemma run_benchmark_calls (c : Config) (o : Oracle) (FN : Z -> Op) (W : Z)
    (r : double) (s : System) :
  0 < kChunkSize c -> 0 < kRefreshInterval c ->
  kCompletePendingInterval c mod kRefreshInterval c = 0 ->
  kTxnCount c * 8 + kChunkSize c + 8 <= 2 ^ 64 ->
  run_benchmark c o FN W = Done (r, s) ->
  Forall (fun th => calls_inv c (run_operation o FN) th
                    /\ finished th = true) (threads s).
Proof.
  intros HC HR HP Hrange Hs.
  apply (run_benchmark_inv c o FN W r s
           (fun s => 0 <= idx_ (globals s)
                     /\ Forall (calls_inv c (run_operation o FN)) (threads s)))
    in Hs as ([_ Hcalls] & Hall & _).
  - apply Forall_and. split; assumption.
  - cbn. split; [lia|]. apply spawn_Forall, calls_inv_start.
  - intros t s1 s2 Hinv Ht. rewrite thread_run_benchmark_turn in Ht.
    eapply (turn_threads_inv c (kTxnCount c * 8)); [| | | | exact Hinv | exact Ht].
    + intros i Hi. apply negb_true_iff, Z.leb_gt in Hi.
      destruct (Z.lt_ge_cases i (kTxnCount c * 8)) as [|Hge]; [assumption|].
      assert (kTxnCount c <= i / 8) by (apply Z.div_le_lower_bound; lia). lia.
    + reflexivity.
    + intros chunk_idx th th'.
      apply (process_chunk_calls_inv c (kTxnCount c * 8) _ (run_item c o FN));
        [exact HC | exact Hrange |].
      intros idx th1 th2. apply run_item_calls; assumption.
    + apply leaving_calls_inv.
Qed.

Lemma setup_store_calls (c : Config) (o : Oracle) (W : Z) (g : Globals)
    (s : System) :
  0 < kChunkSize c -> 0 < kRefreshInterval c ->
  kCompletePendingInterval c mod kRefreshInterval c = 0 ->
  wrap64 (kInitCount c * 8) + kChunkSize c + 8 <= 2 ^ 64 ->
  setup_store c o W g = Done s ->
  Forall (fun th => calls_inv c setup_operation th
                    /\ finished th = true) (threads s).
Proof.
  intros HC HR HP Hrange Hs.
  apply (setup_store_inv c o W g s
           (fun s => 0 <= idx_ (globals s)
                     /\ Forall (calls_inv c setup_operation) (threads s)))
    in Hs as ([_ Hcalls] & Hall & _).
  - apply Forall_and. split; assumption.
  - cbn. split; [lia|]. apply spawn_Forall, calls_inv_start.
  - intros t s1 s2 Hinv Ht. rewrite thread_setup_store_turn in Ht.
    eapply (turn_threads_inv c (wrap64 (kInitCount c * 8)));
      [| | | | exact Hinv | exact Ht].
    + intros i Hi. apply Z.ltb_lt in Hi. exact Hi.
    + reflexivity.
    + intros chunk_idx th th'.
      apply (process_chunk_calls_inv c _ _ (setup_item c));
        [exact HC | exact Hrange |].
      intros idx th1 th2. apply setup_item_calls; assumption.
    + apply leaving_calls_inv.
Qed.

Lemma elem_of_flat_map {A B : Type} (f : A -> list B) (l : list A) (x : B) :
  x ∈ flat_map f l <-> exists y, y ∈ l /\ x ∈ f y.
Proof.
  rewrite list_elem_of_In, in_flat_map. split; intros (y & Hy & Hx); exists y.
  - rewrite !list_elem_of_In. auto.
  - rewrite <- !list_elem_of_In. auto.
Qed.

Lemma elem_of_item_calls (c : Config) (ops : Z -> Call) (idx : Z)
    (at_ : option Z) (cl : Call) :
  (at_, cl) ∈ item_calls c ops idx
  <-> at_ = Some idx /\ (cl ∈ cadence c idx \/ cl = ops idx).
Proof.
  unfold item_calls. rewrite list_elem_of_fmap. split.
  - intros (x & [= -> ->] & Hx). split; [reflexivity|].
    apply elem_of_app in Hx as [Hx | Hx]; [left; exact Hx|].
    right. apply list_elem_of_singleton in Hx. exact Hx.
  - intros (-> & Hcl). exists cl. split; [reflexivity|].
    apply elem_of_app. destruct Hcl as [Hcl | ->]; [left; exact Hcl|].
    right. apply list_elem_of_singleton. reflexivity.
Qed.

Lemma elem_of_cadence (c : Config) (idx : Z) (cl : Call) :
  cl ∈ cadence c idx
  <-> (cl = faster_refresh_session /\ idx mod kRefreshInterval c = 0)
      \/ (cl = faster_complete_pending false
          /\ idx mod kCompletePendingInterval c = 0).
Proof.
  unfold cadence. rewrite elem_of_app.
  destruct (Z.eqb_spec (idx mod kRefreshInterval c) 0);
    destruct (Z.eqb_spec (idx mod kCompletePendingInterval c) 0);
    rewrite ?list_elem_of_singleton, ?elem_of_nil; intuition congruence.
Qed.

(** Where a call of a session stands. *)
Lemma elem_of_session_calls (c : Config) (ops : Z -> Call) (chunks : list Z)
    (at_ : option Z) (cl : Call) :
  (at_, cl) ∈ session_calls c ops chunks
  <-> (at_ = None
       /\ (cl = faster_start_session \/ cl = faster_complete_pending true
           \/ cl = faster_stop_session))
      \/ (exists idx, at_ = Some idx /\ idx ∈ items_of c chunks
                      /\ (cl ∈ cadence c idx \/ cl = ops idx)).
Proof.
  unfold session_calls.
  rewrite elem_of_cons, elem_of_app, elem_of_flat_map, elem_of_cons,
    list_elem_of_singleton.
  split.
  - intros [[= -> ->] | [(idx & Hidx & Hin) | [[= -> ->] | [= -> ->]]]].
    + left. auto.
    + apply elem_of_item_calls in Hin as [-> Hcl]. right. exists idx. auto.
    + left. auto.
    + left. auto.
  - intros [(-> & [-> | [-> | ->]]) | (idx & -> & Hidx & Hcl)].
    + left. reflexivity.
    + right; right; left. reflexivity.
    + right; right; right. reflexivity.
    + right; left. exists idx. split; [exact Hidx|].
      apply elem_of_item_calls. auto.
Qed.



Lemma run_operation_is_operation (o : Oracle) (FN : Z -> Op) (idx : Z) :
  is_operation (run_operation o FN idx) = true.
Proof. unfold run_operation. destruct (FN (draw o idx)); reflexivity. Qed.

Lemma well_formed_intervals (c : Config) :
  well_formed c ->
  0 < kRefreshInterval c
  /\ kCompletePendingInterval c mod kRefreshInterval c = 0
  /\ wrap64 (kInitCount c * 8) mod kChunkSize c = 0
  /\ wrap64 (kTxnCount c * 8) mod kChunkSize c = 0.
Proof.
  intros (_ & HR & _ & _ & _ & Hsa). unfold static_asserts in Hsa.
  apply andb_prop in Hsa as [Hsa H3]. apply andb_prop in Hsa as [H1 H2].
  apply Z.eqb_eq in H1, H2, H3. auto.
Qed.


Lemma thread_session_calls (c : Config) (o : Oracle) (FN : Z -> Op) (W : Z)
    (r : double) (s : System) (t : nat) (th : Thread) :
  well_formed c ->
  fits c (kTxnCount c * 8) W ->
  run_benchmark c o FN W = Done (r, s) ->
  threads s !! t = Some th ->
  calls th = session_calls c (run_operation o FN) (claimed th)
  /\ finished th = true.
Proof.
  intros Hwf (HL & HW & Hfit) Hs Hth.
  pose proof Hwf as (HC & HR & HP & _ & _ & _).
  pose proof (well_formed_intervals c Hwf) as (_ & Hdiv & _).
  apply run_benchmark_calls in Hs; try assumption; [|nia].
  eapply Forall_lookup_1 in Hs; [|exact Hth]. destruct Hs as [Hinv Hf].
  unfold calls_inv in Hinv. rewrite Hf in Hinv. auto.
Qed.



(** One thread over two chunks of 16 keys: within a chunk the refresh
    comes at the keys 0 and 8 of the chunk, the non-blocking drain at key
    0 only, and the blocking drain once, after the last key and before
    the session is closed. *)
Example cadence_of_sixteen :
  match run_benchmark sixteen small_oracle ycsb_read_100 1 with
  | Done (_, s) => map maintenance_calls (threads s)
  | _ => []
  end
  = [[(None, faster_start_session);
      (Some 0, faster_refresh_session);
      (Some 0, faster_complete_pending false);
      (Some 64, faster_refresh_session);
      (Some 128, faster_refresh_session);
      (Some 128, faster_complete_pending false);
      (Some 192, faster_refresh_session);
      (None, faster_complete_pending true);
      (None, faster_stop_session)]].
Proof. vm_compute. reflexivity. Qed.

(** ** The merge callback and the length it is handed *)

Lemma rmw_cb_first_byte (a : bool) (current modification modification' : list (option Z))
    (length modification_length : Z) (dst : option (list (option Z))) :
  modification !! 0%nat = modification' !! 0%nat ->
  rmw_cb a current length modification modification_length dst
  = rmw_cb a current length modification' modification_length dst.
Proof. intros H. unfold rmw_cb. rewrite H. reflexivity. Qed.

Lemma rmw_cb_asserts (current modification : list (option Z))
    (length modification_length : Z) (dst : option (list (option Z))) :
  rmw_cb true current length modification modification_length dst
  <> AssertionFailed
  -> length = 8 /\ modification_length = 8.
Proof.
  unfold rmw_cb. cbn [andb].
  destruct (Z.eqb_spec length 8); cbn [negb]; [|congruence].
  destruct (Z.eqb_spec modification_length 8); cbn [negb]; [|congruence].
  auto.
Qed.

(** C9 (as the code has it): every read-modify-write a measurement thread
    issues passes the key with length 8 and a modification of length 1
    whose first byte is 0; [rmw_cb] asserts that both lengths it receives
    are 8, so it fails its assertion whenever it is handed the length the
    harness passed; what it reads of the modification buffer is the first
    byte only, and it stores 8 bytes to the destination. *)
Theorem rmw_length_mismatch (c : Config) (o : Oracle) (FN : Z -> Op) (W : Z)
    (r : double) (s : System) (t : nat) (th : Thread) :
  well_formed c ->
  fits c (kTxnCount c * 8) W ->
  run_benchmark c o FN W = Done (r, s) ->
  threads s !! t = Some th ->
  (forall at_ key key_length modification0 length,
      (at_, faster_rmw key key_length modification0 length) ∈ calls th ->
      key_length = 8 /\ modification0 = 0
      /\ length = rmw_modification_length /\ length = 1)
  /\ (forall current length modification dst,
        rmw_cb true current length modification rmw_modification_length dst
        = AssertionFailed)
  /\ (forall current length modification modification_length dst,
        rmw_cb true current length modification modification_length dst
        <> AssertionFailed
        -> length = 8 /\ modification_length = 8)
  /\ (forall a current length modification modification' modification_length dst,
        modification !! 0%nat = modification' !! 0%nat ->
        rmw_cb a current length modification modification_length dst
        = rmw_cb a current length modification' modification_length dst)
  /\ (forall a cur0 current d,
        rmw_cb a (Some cur0 :: current) 8 rmw_modification 8 (Some d)
        = Returned 8 (Some (Some (wrap8 (cur0 + 0)) :: replicate 7 None
                            ++ drop 8 d))).
Proof.
  intros Hwf Hfits Hs Hth.
  destruct (thread_session_calls c o FN W r s t th Hwf Hfits Hs Hth) as [Hcalls _].
  split; [|split; [|split; [|split]]].
  - intros at_ key kl m len Hin. rewrite Hcalls in Hin.
    apply elem_of_session_calls in Hin
      as [(_ & [E | [E | E]]) | (idx & _ & _ & [Hc | Hop])]; try discriminate.
    + apply elem_of_cadence in Hc as [[E _] | [E _]]; discriminate.
    + unfold run_operation in Hop.
      destruct (FN (draw o idx)); try discriminate.
      injection Hop as -> -> -> ->. auto.
  - intros current length modification dst. unfold rmw_cb. cbn.
    destruct (length =? 8); reflexivity.
  - intros. eapply rmw_cb_asserts. eassumption.
  - intros. apply rmw_cb_first_byte. assumption.
  - intros a cur0 current d. unfold rmw_cb.
    rewrite !Z.eqb_refl, !andb_false_r. reflexivity.
Qed.

Lemma rmw_length_mismatch_witness :
  exists r s th,
    run_benchmark small small_oracle ycsb_rmw_100 2 = Done (r, s)
    /\ threads s !! 0%nat = Some th
    /\ (Some 64, faster_rmw 64 8 0 1) ∈ calls th
    /\ forall current length modification dst,
         rmw_cb true current length modification rmw_modification_length dst
         = AssertionFailed.
Proof.
  do 3 eexists. split; [vm_compute; reflexivity|]. split; [reflexivity|].
  split; [cbn; repeat constructor|].
  eapply (rmw_length_mismatch small small_oracle ycsb_rmw_100 2 _ _ 0%nat).
  - unfold well_formed. cbn. repeat split; try lia.
  - unfold fits. cbn. lia.
  - vm_compute. reflexivity.
  - reflexivity.
Defined.

(** C9 (as stated) fails: [rmw_cb] does not read 8 bytes of the
    modification buffer.  It returns on the buffer of the harness, where
    only the first byte was ever stored, and on a buffer of one byte. *)
Lemma rmw_cb_reads_one_byte :
  rmw_cb true (replicate 8 (Some 7)) 8 rmw_modification 8
         (Some (replicate 8 None))
  = Returned 8 (Some (Some 7 :: replicate 7 None))
  /\ rmw_cb true (replicate 8 (Some 7)) 8 [Some 0] 8
            (Some (replicate 8 None))
     = Returned 8 (Some (Some 7 :: replicate 7 None)).
Proof. split; reflexivity. Qed.

(** ** Sums over the threads *)

Lemma published_insert (f : nat -> Thread -> Z) (ths : list Thread) :
  forall (k t : nat) (th th' : Thread),
    ths !! t = Some th -> finished th = false ->
    published f k (<[t := th']> ths)
    = (if finished th' then f (k + t)%nat th' else 0) + published f k ths.
Proof.
  induction ths as [|x ths IH]; intros k t th th' Hl Hf; [discriminate|].
  destruct t as [|t]; simpl in Hl |- *.
  - injection Hl as ->. rewrite Hf, Nat.add_0_r. lia.
  - rewrite (IH (S k) t th th' Hl Hf).
    replace (S k + t)%nat with (k + S t)%nat by lia. lia.
Qed.

Lemma published_all (f : nat -> Thread -> Z) (ths : list Thread) :
  Forall (fun th => finished th = true) ths ->
  forall k, published f k ths = sum_threads_from f k ths.
Proof.
  induction 1 as [|x ths Hx _ IH]; intros k; cbn; [reflexivity|].
  rewrite Hx, IH. reflexivity.
Qed.

Lemma published_none (f : nat -> Thread -> Z) (n k : nat) :
  published f k (replicate n thread_start) = 0.
Proof.
  revert k. induction n as [|n IH]; intros k; cbn; [reflexivity|].
  rewrite IH. reflexivity.
Qed.

Lemma sum_threads_from_insert (f : nat -> Thread -> Z) (ths : list Thread) :
  forall (k t : nat) (th th' : Thread),
    ths !! t = Some th ->
    sum_threads_from f k (<[t := th']> ths)
    = sum_threads_from f k ths - f (k + t)%nat th + f (k + t)%nat th'.
Proof.
  induction ths as [|x ths IH]; intros k t th th' Hl; [discriminate|].
  destruct t as [|t]; simpl in Hl |- *.
  - injection Hl as ->. rewrite Nat.add_0_r. lia.
  - rewrite (IH (S k) t th th' Hl).
    replace (S k + t)%nat with (k + S t)%nat by lia. lia.
Qed.

Lemma sum_threads_from_durations (o : Oracle) (ths : list Thread) :
  forall k, sum_threads_from (fun t _ => duration o t) k ths
            = sum_durations o k (length ths).
Proof.
  induction ths as [|x ths IH]; intros k; cbn; [reflexivity|].
  rewrite IH. reflexivity.
Qed.

Lemma sum_threads_from_start (f : nat -> Thread -> Z) (n k : nat) :
  (forall t, f t thread_start = 0) ->
  sum_threads_from f k (replicate n thread_start) = 0.
Proof.
  intros Hf. revert k. induction n as [|n IH]; intros k; cbn; [reflexivity|].
  rewrite IH, Hf. reflexivity.
Qed.

Lemma sum_threads_from_nonneg (f : nat -> Thread -> Z) (ths : list Thread) :
  Forall (fun th => forall t, 0 <= f t th) ths ->
  forall k, 0 <= sum_threads_from f k ths.
Proof.
  induction 1 as [|x ths Hx _ IH]; intros k; cbn; [lia|].
  specialize (Hx k). specialize (IH (S k)). lia.
Qed.

Lemma sum_threads_from_add (f g : nat -> Thread -> Z) (ths : list Thread) :
  forall k, sum_threads_from (fun t th => f t th + g t th) k ths
            = sum_threads_from f k ths + sum_threads_from g k ths.
Proof.
  induction ths as [|x ths IH]; intros k; cbn; [reflexivity|].
  rewrite IH. lia.
Qed.

(** ** The accumulators of the measurement phase *)

Lemma run_item_counters (c : Config) (o : Oracle) (FN : Z -> Op)
    (idx : Z) (th th' : Thread) :
  run_item c o FN idx th = Done th' ->
  reads_done th <= reads_done th' /\ writes_done th <= writes_done th'
  /\ reads_done th' + writes_done th' <= reads_done th + writes_done th + 1.
Proof.
  unfold run_item. destruct (FN (draw o idx)); try discriminate;
    try (intros [= <-]; cbn; lia).
  destruct (wrap8 (rmw_status o idx) =? 0); intros [= <-]; cbn; lia.
Qed.

Lemma fold_items_counters (body : Z -> Thread -> outcome Thread) :
  (forall idx th th', body idx th = Done th' ->
     reads_done th <= reads_done th' /\ writes_done th <= writes_done th'
     /\ reads_done th' + writes_done th'
        <= reads_done th + writes_done th + 1) ->
  forall l th th', fold_items body l th = Done th' ->
    reads_done th <= reads_done th' /\ writes_done th <= writes_done th'
    /\ reads_done th' + writes_done th'
       <= reads_done th + writes_done th + Z.of_nat (length l).
Proof.
  intros Hbody. induction l as [|idx l IH]; intros th th' H; cbn in H.
  - injection H as <-. cbn. lia.
  - destruct (body idx th) as [th1| | |] eqn:Hb; cbn [bind] in H; try discriminate.
    apply Hbody in Hb. apply IH in H. cbn [length]. lia.
Qed.

Lemma chunk_items_length (c : Config) (chunk_idx : Z) :
  0 < kChunkSize c ->
  Z.of_nat (length (chunk_items c chunk_idx)) = items_per_chunk c.
Proof.
  intros HC. unfold chunk_items, items_per_chunk.
  assert (Hlen : forall n lo, length (items_from n lo) = n).
  { induction n as [|n IH]; intros lo; cbn; [reflexivity|]. rewrite IH. reflexivity. }
  rewrite Hlen. apply Z2Nat.id. apply Z.div_pos; lia.
Qed.

Lemma run_turn_accum_inv (c : Config) (o : Oracle) (FN : Z -> Op) (W : Z)
    (t : nat) (s s' : System) :
  accum_inv o W s -> thread_run_benchmark c o FN t s = Done s' ->
  accum_inv o W s'.
Proof.
  intros (Hd & Hr & Hw & Htw) H. rewrite thread_run_benchmark_turn in H.
  apply turn_cases in H
    as [-> | [(th & th' & Hth & Hf & Hm & Hp & ->) | (th & Hth & Hf & Hm & ->)]].
  - repeat split; assumption.
  - assert (Hf' : finished th' = false).
    { unfold process_chunk in Hp.
      apply (item_loop_finished _ (run_item_finished c o FN)) in Hp.
      rewrite Hp. exact Hf. }
    unfold accum_inv.
    cbn [globals threads fetch_add_idx snd total_duration_ total_reads_done_
         total_writes_done_ threads_waiting_].
    rewrite !(published_insert _ _ _ _ _ _ Hth Hf),
      (count_finished_insert _ _ _ _ Hth Hf), Hf'.
    cbn [Nat.add Z.add]. repeat split; assumption.
  - unfold accum_inv.
    cbn [globals threads fetch_add_idx snd publish fetch_sub_waiting
         total_duration_ total_reads_done_ total_writes_done_
         threads_waiting_ idx_].
    rewrite !(published_insert _ _ _ _ _ _ Hth Hf),
      (count_finished_insert _ _ _ _ Hth Hf).
    cbn [finish log finished reads_done writes_done Nat.add].
    rewrite Hd, Hr, Hw, Htw, !wrap64_add_l.
    split; [f_equal; unfold duration; lia|].
    split; [f_equal; lia|]. split; [f_equal; lia|].
    unfold wrap64. rewrite Zminus_mod_idemp_l. f_equal. lia.
Qed.

Lemma run_turn_ops_inv (c : Config) (o : Oracle) (FN : Z -> Op)
    (t : nat) (s s' : System) :
  0 < kChunkSize c -> kTxnCount c * 8 + kChunkSize c + 8 <= 2 ^ 64 ->
  0 <= idx_ (globals s) /\ ops_inv c s ->
  thread_run_benchmark c o FN t s = Done s' ->
  0 <= idx_ (globals s') /\ ops_inv c s'.
Proof.
  intros HC Hrange (Hidx & Hnn & Hsum) H. rewrite thread_run_benchmark_turn in H.
  apply turn_cases in H
    as [-> | [(th & th' & Hth & Hf & Hm & Hp & ->) | (th & Hth & Hf & Hm & ->)]].
  - repeat split; assumption.
  - apply run_more_spec in Hm; [|exact Hidx].
    rewrite process_chunk_fold in Hp by lia.
    apply (fold_items_counters _ (run_item_counters c o FN)) in Hp.
    cbn [claim reads_done writes_done] in Hp.
    rewrite chunk_items_length in Hp by exact HC.
    pose proof (Forall_lookup_1 _ _ _ _ Hnn Hth) as [Hr0 Hw0].
    unfold ops_inv. cbn [globals threads issued fetch_add_idx snd idx_].
    split; [apply wrap64_range|]. split.
    + apply Forall_insert; [exact Hnn | lia].
    + unfold sum_threads in *.
      rewrite (sum_threads_from_insert _ _ _ _ _ _ Hth), length_app.
      cbn [length Nat.add]. lia.
  - pose proof (Forall_lookup_1 _ _ _ _ Hnn Hth) as [Hr0 Hw0].
    unfold ops_inv.
    cbn [globals threads issued fetch_add_idx snd publish fetch_sub_waiting
         idx_].
    split; [apply wrap64_range|]. split.
    + apply Forall_insert; [exact Hnn | cbn; lia].
    + unfold sum_threads in *.
      rewrite (sum_threads_from_insert _ _ _ _ _ _ Hth). cbn. lia.
Qed.

Lemma run_turn_counter_inv (c : Config) (o : Oracle) (FN : Z -> Op) (W : nat)
    (t : nat) (s s' : System) :
  0 < kChunkSize c ->
  (kTxnCount c * 8) mod kChunkSize c = 0 ->
  kTxnCount c * 8 + Z.of_nat W * kChunkSize c <= 2 ^ 64 ->
  counter_inv c (kTxnCount c * 8) W s ->
  thread_run_benchmark c o FN t s = Done s' ->
  counter_inv c (kTxnCount c * 8) W s'.
Proof.
  intros HC Hdiv Hfit Hinv H. rewrite thread_run_benchmark_turn in H.
  eapply (turn_counter_inv c (kTxnCount c * 8) W);
    [exact HC | exact Hdiv | exact Hfit | | | | exact Hinv | exact H].
  - intros; apply run_more_spec; assumption.
  - apply (run_item_finished c o FN).
  - reflexivity.
Qed.

(** The state [run_benchmark] ends in. *)
Lemma run_benchmark_final (c : Config) (o : Oracle) (FN : Z -> Op) (W : Z)
    (r : double) (s : System) :
  well_formed c ->
  fits c (kTxnCount c * 8) W ->
  run_benchmark c o FN W = Done (r, s) ->
  r = ops_per_second_per_thread (globals s)
  /\ all_finished s /\ length (threads s) = Z.to_nat W
  /\ accum_inv o W s /\ ops_inv c s
  /\ counter_inv c (kTxnCount c * 8) (Z.to_nat W) s.
Proof.
  intros Hwf (HL & HW & Hfit) Hs.
  pose proof Hwf as (HC & HR & HP & _ & HK & _).
  pose proof (well_formed_intervals c Hwf) as (_ & _ & _ & Hdiv).
  rewrite wrap64_small in Hdiv by nia.
  assert (Hfit' : kTxnCount c * 8 + Z.of_nat (Z.to_nat W) * kChunkSize c
                  <= 2 ^ 64) by (rewrite Z2Nat.id; nia).
  apply (run_benchmark_inv c o FN W r s
           (fun s => accum_inv o W s
                     /\ (0 <= idx_ (globals s) /\ ops_inv c s)
                     /\ counter_inv c (kTxnCount c * 8) (Z.to_nat W) s))
    in Hs as ((Ha & [_ Ho] & Hc) & Hall & Hlen & Hr & _).
  - repeat split; try assumption; apply Ha || apply Ho || apply Hc.
  - split; [|split; [split|]].
    + unfold accum_inv, spawn. cbn [globals threads total_duration_
        total_reads_done_ total_writes_done_ threads_waiting_].
      rewrite !published_none, count_finished_replicate.
      repeat split; try reflexivity.
      cbn [Z.of_nat]. rewrite Z.sub_0_r, wrap64_small; [reflexivity | nia].
    + cbn. lia.
    + unfold ops_inv, spawn, sum_threads. cbn [threads issued length].
      split; [apply Forall_replicate; cbn; lia|].
      rewrite sum_threads_from_start by reflexivity. lia.
    + apply spawn_counter_inv; [lia | reflexivity].
  - intros t s1 s2 (Ha & Ho & Hc) Ht. split; [|split].
    + eapply run_turn_accum_inv; eassumption.
    + eapply run_turn_ops_inv; try eassumption. nia.
    + eapply run_turn_counter_inv; eassumption.
Qed.

(** C6: the figure [run_benchmark] returns is the sum of the threads'
    [reads_done] plus the sum of their [writes_done], divided by the sum
    of the durations the threads measured for themselves, taken in
    seconds (the arithmetic on [double] being read as exact). *)
Theorem throughput_formula (c : Config) (o : Oracle) (FN : Z -> Op) (W : Z)
    (r : double) (s : System) :
  well_formed c ->
  fits c (kTxnCount c * 8) W ->
  0 <= sum_durations o 0 (Z.to_nat W) < 2 ^ 64 ->
  run_benchmark c o FN W = Done (r, s) ->
  r = double_div
        (inject_Z (sum_threads (fun _ th => reads_done th) (threads s))
         + inject_Z (sum_threads (fun _ th => writes_done th) (threads s)))%Q
        (inject_Z (sum_durations o 0 (Z.to_nat W))
         / inject_Z kNanosPerSecond)%Q.
Proof.
  intros Hwf Hfits Hdur Hs.
  pose proof Hwf as (HC & _).
  pose proof Hfits as (HL & HW & Hfit).
  apply run_benchmark_final in Hs
    as (-> & Hall & Hlen & (Hd & Hr & Hw & _) & (Hnn & Hsum) & Hc);
    try assumption.
  destruct Hc as (_ & _ & _ & Hle & _).
  unfold all_finished in Hall.
  rewrite (published_all _ _ Hall) in Hd.
  rewrite (published_all _ _ Hall) in Hr.
  rewrite (published_all _ _ Hall) in Hw.
  rewrite sum_threads_from_durations, Hlen, wrap64_small in Hd by exact Hdur.
  unfold sum_threads in *. rewrite sum_threads_from_add in Hsum.
  assert (H0r : 0 <= sum_threads_from (fun _ th => reads_done th) 0 (threads s)).
  { apply sum_threads_from_nonneg. eapply Forall_impl; [exact Hnn|].
    cbn. intros th [? ?] _. assumption. }
  assert (H0w : 0 <= sum_threads_from (fun _ th => writes_done th) 0 (threads s)).
  { apply sum_threads_from_nonneg. eapply Forall_impl; [exact Hnn|].
    cbn. intros th [? ?] _. assumption. }
  assert (Hipc : items_per_chunk c <= kChunkSize c).
  { unfold items_per_chunk. apply Z.div_le_upper_bound; lia. }
  assert (Hbound : items_per_chunk c * Z.of_nat (length (issued s))
                   <= kTxnCount c * 8).
  { etransitivity; [|exact Hle]. rewrite Z.mul_comm.
    apply Z.mul_le_mono_nonneg_l; lia. }
  rewrite wrap64_small in Hr by nia. rewrite wrap64_small in Hw by nia.
  unfold ops_per_second_per_thread. rewrite Hd, Hr, Hw. reflexivity.
Qed.

Lemma throughput_formula_witness :
  exists s,
    run_benchmark small small_oracle ycsb_a_50_50 2
    = Done (Finite (16000000000 # 51), s)
    /\ Finite (16000000000 # 51)
       = double_div
           (inject_Z (sum_threads (fun _ th => reads_done th) (threads s))
            + inject_Z (sum_threads (fun _ th => writes_done th) (threads s)))%Q
           (inject_Z (sum_durations small_oracle 0 (Z.to_nat 2))
            / inject_Z kNanosPerSecond)%Q.
Proof.
  eexists. split; [vm_compute; reflexivity|].
  eapply (throughput_formula small small_oracle ycsb_a_50_50 2).
  - unfold well_formed. cbn. repeat split; try lia.
  - unfold fits. cbn. lia.
  - change (0 <= 51 < 2 ^ 64). lia.
  - vm_compute. reflexivity.
Defined.

(** The two threads of this run start together and the later one ends
    26 ns after; the figure divides the 16 operations by the 51 ns the
    threads add up to, not by that span. *)
Example throughput_is_not_wall_clock :
  exists s,
    run_benchmark small small_oracle ycsb_a_50_50 2
    = Done (Finite (16000000000 # 51), s)
    /\ Z.max (end_time small_oracle 0) (end_time small_oracle 1)
       - Z.min (start_time small_oracle 0) (start_time small_oracle 1) = 26
    /\ double_div (inject_Z 16) (inject_Z 26 / inject_Z kNanosPerSecond)%Q
       = Finite (16000000000 # 26).
Proof.
  eexists. split; [vm_compute; reflexivity|].
  split; vm_compute; reflexivity.
Qed.

(** ** Loading a key file *)

Lemma copy_chunk_spec (size : Z) (chunk : list byte) :
  forall pre : list byte,
    0 <= size ->
    Z.of_nat (length pre) + Z.of_nat (length chunk) < 2 ^ 64 ->
    copy_chunk chunk (keys_after size pre) (Z.of_nat (length pre))
    = (keys_after size (pre ++ chunk),
       Z.of_nat (length pre) + Z.of_nat (length chunk)).
Proof.
  induction chunk as [|b chunk IH]; intros pre Hsize Hlen.
  - cbn [copy_chunk length Z.of_nat]. rewrite app_nil_r, Z.add_0_r. reflexivity.
  - cbn [copy_chunk]. cbn [length] in Hlen.
    assert (Hstore : store (Z.of_nat (length pre)) b (keys_after size pre)
                     = keys_after size (pre ++ [b])).
    { unfold store, keys_after. cbn [capacity stored overrun].
      rewrite length_app. cbn [length].
      destruct (Z.ltb_spec (Z.of_nat (length pre)) size) as [Hlt|Hge].
      - rewrite !take_ge by (rewrite ?length_app; cbn [length]; lia).
        f_equal. destruct (Z.ltb_spec size (Z.of_nat (length pre))); [lia|].
        destruct (Z.ltb_spec size (Z.of_nat (length pre + 1))); [lia|].
        reflexivity.
      - rewrite take_app_le by lia. f_equal.
        destruct (Z.ltb_spec size (Z.of_nat (length pre + 1))); [|lia].
        reflexivity. }
    rewrite Hstore, wrap64_small by lia.
    replace (Z.of_nat (length pre) + 1) with (Z.of_nat (length (pre ++ [b])))
      by (rewrite length_app; cbn [length]; lia).
    rewrite IH by (rewrite ?length_app; cbn [length]; lia).
    rewrite <- app_assoc, length_app. cbn [app length]. f_equal. lia.
Qed.

Lemma load_loop_spec (size : Z) (file : list byte) (fuel : nat) :
  forall pre rest : list byte,
    file = pre ++ rest ->
    0 <= size ->
    Z.of_nat (length file) < 2 ^ 64 ->
    Z.of_nat (length rest) < Z.of_nat fuel * kFileChunkSize ->
    load_loop fuel file (Z.of_nat (length pre)) (keys_after size pre)
              (Z.of_nat (length pre))
    = Done (keys_after size file, Z.of_nat (length file)).
Proof.
  induction fuel as [|fuel IH]; intros pre rest Hfile Hsize Hlen Hfuel;
    [cbn in Hfuel; lia|].
  cbn [load_loop]. unfold File_Read.
  rewrite Nat2Z.id, Hfile, drop_app_length.
  assert (Hl : Z.of_nat (length file)
               = Z.of_nat (length pre) + Z.of_nat (length rest))
    by (rewrite Hfile, length_app; lia).
  set (chunk := take (Z.to_nat kFileChunkSize) rest).
  assert (Hchunk : Z.of_nat (length chunk)
                   = Z.min kFileChunkSize (Z.of_nat (length rest))).
  { unfold chunk. rewrite length_take. unfold kFileChunkSize. lia. }
  rewrite copy_chunk_spec by lia.
  destruct (Z.eqb_spec (Z.of_nat (length chunk)) kFileChunkSize) as [E|E].
  - rewrite wrap64_small by (unfold kFileChunkSize in *; lia).
    replace (Z.of_nat (length pre) + kFileChunkSize)
      with (Z.of_nat (length (pre ++ chunk)))
      by (rewrite length_app; lia).
    replace (Z.of_nat (length pre) + Z.of_nat (length chunk))
      with (Z.of_nat (length (pre ++ chunk)))
      by (rewrite length_app; lia).
    rewrite <- Hfile.
    apply (IH (pre ++ chunk) (drop (Z.to_nat kFileChunkSize) rest)).
    + rewrite Hfile, <- app_assoc. unfold chunk. rewrite take_drop. reflexivity.
    + exact Hsize.
    + exact Hlen.
    + rewrite length_drop. unfold kFileChunkSize in *. lia.
  - assert (Hall : chunk = rest).
    { unfold chunk. apply take_ge. unfold kFileChunkSize in *. lia. }
    rewrite Hall, <- Hfile, <- Hl. reflexivity.
Qed.

(** What [load_keys] does with a file: it compares the number of whole
    keys with the expected one. *)
Lemma load_keys_spec (expected : Z) (message : string) (file : list byte) :
  0 <= expected * 8 < 2 ^ 64 ->
  Z.of_nat (length file) < 2 ^ 64 ->
  load_keys expected message file
  = if expected =? Z.of_nat (length file) / 8
    then Done (keys_after (expected * 8) file)
    else if expected * 8 <? Z.of_nat (length file) then Undefined
         else Exit 1 message.
Proof.
  intros Hexp Hlen. unfold load_keys.
  rewrite wrap64_small by exact Hexp.
  assert (Halloc : alloc_aligned (expected * 8) = keys_after (expected * 8) []).
  { unfold alloc_aligned, keys_after. rewrite take_nil.
    change (Z.of_nat (length (@nil byte))) with 0.
    replace (expected * 8 <? 0) with false; [reflexivity|].
    symmetry. apply Z.ltb_ge. lia. }
  rewrite Halloc.
  change 0 with (Z.of_nat (length (@nil byte))) at 1 2.
  rewrite (load_loop_spec (expected * 8) file (S (length file)) [] file);
    try reflexivity; try lia.
  - cbn [bind]. destruct (expected =? Z.of_nat (length file) / 8); reflexivity.
  - unfold kFileChunkSize. lia.
Qed.

(** A file with fewer whole keys than expected ends the process with
    status 1 and the message of the file; one with more has by then been
    stored past the end of the allocation. *)
Lemma load_keys_wrong_count (expected : Z) (message : string)
    (file : list byte) :
  0 <= expected * 8 < 2 ^ 64 ->
  Z.of_nat (length file) < 2 ^ 64 ->
  Z.of_nat (length file) / 8 <> expected ->
  load_keys expected message file
  = if expected * 8 <? Z.of_nat (length file) then Undefined
    else Exit 1 message.
Proof.
  intros Hexp Hlen Hne. rewrite load_keys_spec by assumption.
  destruct (Z.eqb_spec expected (Z.of_nat (length file) / 8)); congruence.
Qed.

(** A file of exactly the expected number of bytes is loaded: the array
    holds the file and no store left the allocation. *)
Lemma load_keys_exact (expected : Z) (message : string) (file : list byte) :
  0 <= expected * 8 < 2 ^ 64 ->
  Z.of_nat (length file) = expected * 8 ->
  load_keys expected message file = Done (mkKeys (expected * 8) file false).
Proof.
  intros Hexp Hlen. rewrite load_keys_spec by lia.
  rewrite Hlen, Z.div_mul, Z.eqb_refl by lia.
  unfold keys_after. rewrite take_ge by lia. rewrite Hlen, Z.ltb_irrefl.
  reflexivity.
Qed.

Lemma load_keys_trailing (expected : Z) (message : string)
    (file : list byte) :
  0 <= expected ->
  expected * 8 + 8 <= 2 ^ 64 ->
  expected * 8 < Z.of_nat (length file) < expected * 8 + 8 ->
  load_keys expected message file
  = Done (mkKeys (expected * 8) (take (Z.to_nat (expected * 8)) file) true).
Proof.
  intros Hexp Hfit Hlen. rewrite load_keys_spec by lia.
  assert (Hq : Z.of_nat (length file) / 8 = expected).
  { symmetry. apply (Z.div_unique _ 8 expected
                       (Z.of_nat (length file) - expected * 8)); lia. }
  rewrite Hq, Z.eqb_refl. unfold keys_after. f_equal. f_equal.
  apply Z.ltb_lt. lia.
Qed.

(** C4 (where the code departs from it): a file with up to seven bytes
    after the expected keys, whose length is therefore no multiple of 8,
    is not turned down: the count of whole keys is the expected one, the
    load returns, and the bytes after the last key have been stored past
    the end of the allocation. *)
Theorem load_keys_accepts_trailing_bytes (expected : Z) (message : string)
    (file : list byte) :
  0 <= expected ->
  expected * 8 + 8 <= 2 ^ 64 ->
  expected * 8 < Z.of_nat (length file) < expected * 8 + 8 ->
  Z.of_nat (length file) mod 8 <> 0
  /\ load_keys expected message file
     = Done (mkKeys (expected * 8) (take (Z.to_nat (expected * 8)) file) true).
Proof.
  intros Hexp Hfit Hlen. split.
  - intros Hmod. apply Z.mod_divide in Hmod; [|lia].
    destruct Hmod as [q Hq]. lia.
  - apply load_keys_trailing; assumption.
Qed.

Lemma load_keys_accepts_trailing_bytes_witness :
  Z.of_nat (length (replicate 129 "000"%byte)) mod 8 <> 0
  /\ load_keys (kInitCount small) "Init file load fail!"
               (replicate 129 "000"%byte)
     = Done (mkKeys 128 (replicate 128 "000"%byte) true).
Proof.
  apply (load_keys_accepts_trailing_bytes (kInitCount small)
           "Init file load fail!" (replicate 129 "000"%byte));
    cbn; lia.
Defined.

(** The same for the constants of the source: [load_files] returns for any
    load file of 2000000001 bytes (and a run file as expected). *)
Lemma load_files_ycsb_trailing_byte (load_file run_file : list byte) :
  Z.of_nat (length load_file) = 2000000001 ->
  Z.of_nat (length run_file) = 8000000000 ->
  load_files ycsb load_file run_file
  = Done (mkKeys 2000000000 (take (Z.to_nat 2000000000) load_file) true,
          mkKeys 8000000000 run_file false).
Proof.
  intros Hl Hr. unfold load_files.
  rewrite (load_keys_trailing (kInitCount ycsb) "Init file load fail!"
             load_file); [| cbn; lia | cbn; lia | rewrite Hl; cbn; lia].
  cbn [bind].
  rewrite (load_keys_exact (kTxnCount ycsb) "Txn file load fail!" run_file);
    [reflexivity | cbn; lia | rewrite Hr; reflexivity].
Qed.

(** ** Every phase comes to its end *)

Section Totality.
Variable step : nat -> System -> outcome System.
Variable I : System -> Prop.
Variable remaining : System -> nat.

Hypothesis Hstep :
  forall t s, I s -> exists s', step t s = Done s' /\ I s'.
Hypothesis Hprogress :
  forall t s s' th,
    I s -> threads s !! t = Some th -> finished th = false ->
    step t s = Done s' ->
    (remaining s' <= remaining s)%nat
    /\ (finished_at s' t \/ (remaining s' < remaining s)%nat).

Lemma run_schedule_total (sched : list nat) :
  forall s, I s -> exists s', run_schedule step sched s = Done s' /\ I s'.
Proof.
  induction sched as [|t sched IH]; intros s Hinv; cbn [run_schedule].
  - exists s. auto.
  - destruct (Hstep t s Hinv) as (s1 & -> & Hinv1). cbn [bind]. auto.
Qed.

Lemma join_total (t : nat) (fuel : nat) :
  forall s, I s -> (remaining s < fuel)%nat ->
    exists s', join fuel step t s = Done s' /\ I s'
               /\ (remaining s' <= remaining s)%nat.
Proof.
  induction fuel as [|fuel IH]; intros s Hinv Hfuel; [lia|].
  cbn [join]. destruct (threads s !! t) as [th|] eqn:Hth; [|exists s; auto].
  destruct (finished th) eqn:Hf; [exists s; auto|].
  destruct (Hstep t s Hinv) as (s1 & Hs1 & Hinv1). rewrite Hs1. cbn [bind].
  destruct (Hprogress t s s1 th Hinv Hth Hf Hs1)
    as [Hle [(th1 & Hth1 & Hf1) | Hlt]].
  - exists s1. split; [|split; [exact Hinv1 | exact Hle]].
    destruct fuel; cbn [join]; rewrite Hth1, Hf1; reflexivity.
  - destruct (IH s1 Hinv1 ltac:(lia)) as (s2 & Hs2 & Hinv2 & Hle2).
    exists s2. split; [exact Hs2|]. split; [exact Hinv2 | lia].
Qed.

Lemma join_all_total (fuel : nat) (ts : list nat) :
  forall s, I s -> (remaining s < fuel)%nat ->
    exists s', join_all fuel step ts s = Done s' /\ I s'.
Proof.
  induction ts as [|t ts IH]; intros s Hinv Hfuel; cbn [join_all].
  - exists s. auto.
  - destruct (join_total t fuel s Hinv Hfuel) as (s1 & -> & Hinv1 & Hle).
    cbn [bind]. apply IH; [exact Hinv1 | lia].
Qed.
End Totality.

Lemma fold_items_total (body : Z -> Thread -> outcome Thread) :
  (forall idx th, exists th', body idx th = Done th') ->
  forall l th, exists th', fold_items body l th = Done th'.
Proof.
  intros Hbody. induction l as [|idx l IH]; intros th; cbn [fold_items].
  - exists th. reflexivity.
  - destruct (Hbody idx th) as (th1 & ->). cbn [bind]. apply IH.
Qed.

Section TurnTotality.
Variable c : Config.
Variable corpus : Z.
Variable W : nat.
Variable more : Z -> bool.
Variable body : Z -> Thread -> outcome Thread.
Variable leave : nat -> Thread -> Globals -> Globals.

Hypothesis HC : 0 < kChunkSize c.
Hypothesis Hdiv : corpus mod kChunkSize c = 0.
Hypothesis Hfit : corpus + (Z.of_nat W + 1) * kChunkSize c + 8 <= 2 ^ 64.
Hypothesis Hmore : forall i, 0 <= i -> (more i = true <-> i < corpus).
Hypothesis Hbody :
  forall idx th th', body idx th = Done th' -> finished th' = finished th.
Hypothesis Hbody_total : forall idx th, exists th', body idx th = Done th'.
Hypothesis Hleave : forall t th g, idx_ (leave t th g) = idx_ g.

Lemma turn_total (t : nat) (s : System) :
  counter_inv c corpus W s ->
  exists s', turn c more body leave t s = Done s'
             /\ counter_inv c corpus W s'.
Proof.
  intros Hinv.
  assert (exists s', turn c more body leave t s = Done s') as (s' & Hs').
  { unfold turn. destruct (threads s !! t) as [th|]; [|eauto].
    destruct (finished th); [eauto|]. cbn [fetch_add_idx].
    destruct (more (idx_ (globals s))) eqn:Hm; [|eauto].
    destruct Hinv as (_ & Hidx & _).
    assert (H0 : 0 <= idx_ (globals s)) by (rewrite Hidx; apply wrap64_range).
    apply Hmore in Hm; [|exact H0].
    rewrite process_chunk_fold by lia.
    destruct (fold_items_total body Hbody_total
                (chunk_items c (idx_ (globals s)))
                (claim (idx_ (globals s)) th)) as (th' & ->).
    cbn [bind]. eauto. }
  exists s'. split; [exact Hs'|].
  eapply (turn_counter_inv c corpus W more body leave); try eassumption. lia.
Qed.

Lemma turn_progress (t : nat) (s s' : System) (th : Thread) :
  counter_inv c corpus W s ->
  threads s !! t = Some th -> finished th = false ->
  turn c more body leave t s = Done s' ->
  (Z.to_nat (corpus / kChunkSize c) - length (issued s')
   <= Z.to_nat (corpus / kChunkSize c) - length (issued s))%nat
  /\ (finished_at s' t
      \/ (Z.to_nat (corpus / kChunkSize c) - length (issued s')
          < Z.to_nat (corpus / kChunkSize c) - length (issued s))%nat).
Proof.
  intros Hinv Hth Hf Hs'.
  assert (Hinv' : counter_inv c corpus W s').
  { eapply (turn_counter_inv c corpus W more body leave); try eassumption. lia. }
  destruct Hinv' as (_ & _ & _ & Hle' & _).
  assert (Hq : Z.of_nat (length (issued s')) <= corpus / kChunkSize c)
    by (apply Z.div_le_lower_bound; lia).
  unfold turn in Hs'. rewrite Hth, Hf in Hs'. cbn [fetch_add_idx] in Hs'.
  destruct (more (idx_ (globals s))).
  - destruct (process_chunk _ _ _ _) as [th'| | |]; cbn [bind] in Hs';
      try discriminate.
    injection Hs' as <-. cbn [issued] in *. rewrite length_app in *.
    cbn [length] in *. split; [lia | right; lia].
  - injection Hs' as <-. cbn [issued threads] in *. split; [lia|]. left.
    exists (finish (log epilogue th)). split; [|reflexivity].
    apply list_lookup_insert_eq. eapply lookup_lt_Some, Hth.
Qed.
End TurnTotality.

Lemma setup_item_total (c : Config) (idx : Z) (th : Thread) :
  exists th', setup_item c idx th = Done th'.
Proof. eexists. reflexivity. Qed.

Lemma run_item_total (c : Config) (o : Oracle) (FN : Z -> Op) :
  (forall d, FN d <> Scan) ->
  forall idx th, exists th', run_item c o FN idx th = Done th'.
Proof.
  intros HFN idx th. unfold run_item.
  destruct (FN (draw o idx)) eqn:E; eauto.
  exfalso. eapply HFN, E.
Qed.

(** The population phase ends, whatever the schedule. *)
Lemma setup_store_total (c : Config) (o : Oracle) (W : Z) (g : Globals) :
  well_formed c ->
  fits c (wrap64 (kInitCount c * 8)) W ->
  exists s, setup_store c o W g = Done s.
Proof.
  intros Hwf (HL & HW & Hfit).
  pose proof Hwf as (HC & _).
  pose proof (well_formed_intervals c Hwf) as (_ & _ & Hdiv & _).
  unfold setup_store.
  rewrite (run_schedule_ext _ _ (thread_setup_store_turn c)).
  set (s0 := mkSystem _ (spawn W) []).
  set (step := turn c (fun i => i <? wrap64 (kInitCount c * 8)) (setup_item c)
                 (fun _ _ g => g)).
  set (rem := fun s : System =>
                (Z.to_nat (wrap64 (kInitCount c * 8) / kChunkSize c)
                 - length (issued s))%nat).
  assert (Hfit' : wrap64 (kInitCount c * 8)
                  + (Z.of_nat (Z.to_nat W) + 1) * kChunkSize c + 8 <= 2 ^ 64)
    by (rewrite Z2Nat.id; lia).
  assert (Hmore : forall i, 0 <= i ->
            (i <? wrap64 (kInitCount c * 8)) = true
            <-> i < wrap64 (kInitCount c * 8))
    by (intros; apply Z.ltb_lt).
  assert (Hstep : forall t s,
            counter_inv c (wrap64 (kInitCount c * 8)) (Z.to_nat W) s ->
            exists s', step t s = Done s'
              /\ counter_inv c (wrap64 (kInitCount c * 8)) (Z.to_nat W) s').
  { intros t s. apply (turn_total c _ (Z.to_nat W)); try assumption.
    - apply setup_item_finished.
    - apply setup_item_total.
    - reflexivity. }
  assert (Hprog : forall t s s' th,
            counter_inv c (wrap64 (kInitCount c * 8)) (Z.to_nat W) s ->
            threads s !! t = Some th -> finished th = false ->
            step t s = Done s' ->
            (rem s' <= rem s)%nat /\ (finished_at s' t \/ (rem s' < rem s)%nat)).
  { intros t s s' th. apply (turn_progress c _ (Z.to_nat W)); try assumption.
    - apply setup_item_finished.
    - reflexivity. }
  destruct (run_schedule_total step _ Hstep (schedule o) s0) as (s1 & -> & Hinv1).
  { apply spawn_counter_inv; [exact HL | reflexivity]. }
  cbn [bind]. rewrite (join_all_ext _ _ (thread_setup_store_turn c)).
  fold step.
  destruct (join_all_total step _ rem Hstep Hprog
              (join_fuel c (wrap64 (kInitCount c * 8)))
              (thread_ids s1) s1 Hinv1) as (s2 & -> & _).
  { unfold rem, join_fuel. lia. }
  eauto.
Qed.

(** The measurement phase ends, whatever the schedule, when the mixer
    never selects [Scan]. *)
Lemma run_benchmark_total (c : Config) (o : Oracle) (FN : Z -> Op) (W : Z) :
  well_formed c ->
  fits c (kTxnCount c * 8) W ->
  (forall d, FN d <> Scan) ->
  exists r s, run_benchmark c o FN W = Done (r, s).
Proof.
  intros Hwf (HL & HW & Hfit) HFN.
  pose proof Hwf as (HC & _).
  pose proof (well_formed_intervals c Hwf) as (_ & _ & _ & Hdiv).
  rewrite wrap64_small in Hdiv by nia.
  unfold run_benchmark.
  rewrite (run_schedule_ext _ _ (thread_run_benchmark_turn c o FN)).
  set (s0 := mkSystem _ (spawn W) []).
  set (lv := fun (t : nat) (th : Thread) (g : Globals) =>
                publish (end_time o t - start_time o t) (reads_done th)
                        (writes_done th) (fetch_sub_waiting g)).
  set (step := turn c (fun i => negb (kTxnCount c <=? i / 8)) (run_item c o FN)
                 lv).
  set (rem := fun s : System =>
                (Z.to_nat ((kTxnCount c * 8) / kChunkSize c) - length (issued s))%nat).
  set (I := fun s => counter_inv c (kTxnCount c * 8) (Z.to_nat W) s /\ accum_inv o W s).
  assert (Hfit' : (kTxnCount c * 8) + (Z.of_nat (Z.to_nat W) + 1) * kChunkSize c + 8 <= 2 ^ 64)
    by (rewrite Z2Nat.id; lia).
  assert (Hmore : forall i, 0 <= i ->
            negb (kTxnCount c <=? i / 8) = true <-> i < (kTxnCount c * 8))
    by (intros; apply run_more_spec; assumption).
  assert (Hstep : forall t s, I s -> exists s', step t s = Done s' /\ I s').
  { intros t s [Hc Ha].
    destruct (turn_total c (kTxnCount c * 8) (Z.to_nat W) _ (run_item c o FN)
                lv HC Hdiv Hfit' Hmore (run_item_finished c o FN)
                (run_item_total c o FN HFN) (fun _ _ _ => eq_refl) t s Hc)
      as (s' & Hs' & Hc').
    exists s'. split; [exact Hs'|]. split; [exact Hc'|].
    apply (run_turn_accum_inv c o FN W t s s' Ha).
    rewrite thread_run_benchmark_turn. exact Hs'. }
  assert (Hprog : forall t s s' th, I s ->
            threads s !! t = Some th -> finished th = false ->
            step t s = Done s' ->
            (rem s' <= rem s)%nat /\ (finished_at s' t \/ (rem s' < rem s)%nat)).
  { intros t s s' th [Hc _].
    apply (turn_progress c (kTxnCount c * 8) (Z.to_nat W) _ (run_item c o FN)
             lv); try assumption.
    - apply (run_item_finished c o FN).
    - reflexivity. }
  destruct (run_schedule_total step _ Hstep (schedule o) s0) as (s1 & -> & Hinv1).
  { split.
    - apply spawn_counter_inv; [exact HL | reflexivity].
    - unfold accum_inv, s0, spawn. cbn [globals threads total_duration_
        total_reads_done_ total_writes_done_ threads_waiting_].
      rewrite !published_none, count_finished_replicate.
      repeat split; try reflexivity.
      cbn [Z.of_nat]. rewrite Z.sub_0_r, wrap64_small; [reflexivity | nia]. }
  cbn [bind]. rewrite (join_all_ext _ _ (thread_run_benchmark_turn c o FN)).
  fold lv. fold step.
  destruct (join_all_total step _ rem Hstep Hprog (join_fuel c (kTxnCount c * 8))
              (thread_ids s1) s1 Hinv1) as (s2 & Hs2 & Hc2 & Ha2).
  { unfold rem, join_fuel. lia. }
  rewrite Hs2. cbn [bind].
  apply join_all_finished in Hs2 as [_ Hall].
  destruct Hc2 as (Hlen & _). destruct Ha2 as (_ & _ & _ & Htw).
  rewrite (count_finished_all _ Hall), Hlen, Z2Nat.id, Z.sub_diag in Htw by lia.
  rewrite Htw. cbn. eauto.
Qed.

(** ** Statements of [main] *)

Section Preserves.
Variable Inv : Process -> Prop.

Lemma preserves_ret {A : Type} (a : A) : preserves Inv (ret a).
Proof. intros p Hp. exact Hp. Qed.

Lemma preserves_exit {A : Type} (code : Z) (message : string) :
  preserves Inv (@exit A code message).
Proof. intros p Hp. exact Hp. Qed.

Lemma preserves_seqM {A B : Type} (m : M A) (k : A -> M B) :
  preserves Inv m -> (forall a, preserves Inv (k a)) ->
  preserves Inv (seqM m k).
Proof.
  intros Hm Hk p Hp. unfold seqM. specialize (Hm p Hp).
  destruct (m p) as [p' [a| | |]]; cbn in *; auto. apply Hk, Hm.
Qed.

Lemma preserves_for_each {A : Type} (l : list A) (body : A -> M unit) :
  (forall a, preserves Inv (body a)) -> preserves Inv (for_each l body).
Proof.
  intros Hbody. induction l as [|a l IH]; cbn [for_each].
  - apply preserves_ret.
  - apply preserves_seqM; auto.
Qed.

Lemma preserves_if {A : Type} (b : bool) (m1 m2 : M A) :
  preserves Inv m1 -> preserves Inv m2 ->
  preserves Inv (if b then m1 else m2).
Proof. destruct b; auto. Qed.
End Preserves.

Lemma setup_store_spawned (c : Config) (o : Oracle) (W : Z) (g : Globals)
    (s : System) :
  setup_store c o W g = Done s -> length (threads s) = Z.to_nat W.
Proof.
  intros H.
  apply (setup_store_inv c o W g s (fun _ => True)) in H as (_ & _ & Hlen);
    auto.
Qed.

Lemma run_benchmark_spawned (c : Config) (o : Oracle) (FN : Z -> Op) (W : Z)
    (r : double) (s : System) :
  run_benchmark c o FN W = Done (r, s) -> length (threads s) = Z.to_nat W.
Proof.
  intros H.
  apply (run_benchmark_inv c o FN W r s (fun _ => True)) in H
    as (_ & _ & Hlen & _); auto.
Qed.

Section PhaseThreads.
Variable c : Config.
Variable num_threads : Z.

Let Inv (p : Process) : Prop :=
  Forall (phase_threads_ok num_threads) (phases p).

Lemma call_setup_store_threads (o : Oracle) :
  preserves Inv (call_setup_store c o 48).
Proof.
  intros p Hp. unfold call_setup_store.
  assert (Hrun : phase_threads_ok num_threads
                   (mkPhaseRun Populate 48 (setup_store c o 48 (atomics p)))).
  { split; [reflexivity|]. cbn. intros s. apply setup_store_spawned. }
  destruct (setup_store c o 48 (atomics p)); cbn [fst phases];
    apply Forall_app; split; auto.
Qed.

Lemma call_run_benchmark_threads (o : Oracle) (FN : Z -> Op) :
  preserves Inv (call_run_benchmark c o FN num_threads).
Proof.
  intros p Hp. unfold call_run_benchmark.
  assert (Hrun : phase_threads_ok num_threads
                   (mkPhaseRun Measure num_threads
                      (let* x := run_benchmark c o FN num_threads in
                       Done x.2))).
  { split; [reflexivity|]. cbn [phase_result phase_threads]. intros s.
    destruct (run_benchmark c o FN num_threads) as [[r s']| | |] eqn:E;
      cbn [bind]; try discriminate.
    intros [= <-]. eapply run_benchmark_spawned, E. }
  destruct (run_benchmark c o FN num_threads) as [[r s']| | |]; cbn [fst phases];
    apply Forall_app; split; auto.
Qed.

Lemma trial_threads (workload num_benchmark_threads : Z) (o : TrialOracle) :
  preserves Inv (trial c workload num_threads num_benchmark_threads o).
Proof.
  unfold trial. apply preserves_seqM; [apply call_setup_store_threads|].
  intros _. apply preserves_seqM.
  - destruct (Workload_of_int workload) as [[]|];
      try apply call_run_benchmark_threads.
    apply preserves_exit.
  - intros result. apply preserves_seqM; [intros p Hp; exact Hp|].
    intros v p Hp. exact Hp.
Qed.
End PhaseThreads.

Lemma main_phase_threads (c : Config) (argc argv1 argv2 : Z)
    (load_file run_file : list byte) (world : nat -> nat -> TrialOracle) :
  Forall (phase_threads_ok (wrap64 argv2))
         (phases (main c argc argv1 argv2 load_file run_file world
                       process_start).1).
Proof.
  assert (H : preserves (fun p => Forall (phase_threads_ok (wrap64 argv2))
                                         (phases p))
                (main c argc argv1 argv2 load_file run_file world)).
  { unfold main. apply preserves_if; [apply preserves_exit|].
    apply preserves_seqM.
    - intros p Hp. destruct (load_files c load_file run_file) as [[ik tk]| | |];
        exact Hp.
    - intros _. apply preserves_seqM; [|intros _; apply preserves_ret].
      apply preserves_for_each. intros [i n].
      apply preserves_seqM; [intros p Hp; exact Hp|].
      intros _. apply preserves_for_each. intros j. apply trial_threads. }
  apply H. constructor.
Qed.

Lemma population_spawns_48_measure (c : Config) (argc argv1 argv2 : Z)
    (load_file run_file : list byte) (world : nat -> nat -> TrialOracle)
    (run : PhaseRun) :
  run ∈ phases (main c argc argv1 argv2 load_file run_file world
                     process_start).1 ->
  phase_kind run = Measure ->
  phase_threads run = wrap64 argv2
  /\ forall s, phase_result run = Done s ->
               length (threads s) = Z.to_nat (wrap64 argv2).
Proof.
  intros Hin Hk.
  pose proof (main_phase_threads c argc argv1 argv2 load_file run_file world)
    as Hall.
  rewrite Forall_forall in Hall. destruct (Hall run Hin) as [Hn Hs].
  rewrite Hk in Hn. rewrite Hn in Hs. auto.
Qed.

(** C10: every population phase of a run of [main] is started with 48
    threads and spawns 48, whatever the thread-count argument and the
    sweep entry; every measurement phase is started with the thread-count
    argument and spawns that many. *)
Theorem population_spawns_48 (c : Config) (argc argv1 argv2 : Z)
    (load_file run_file : list byte) (world : nat -> nat -> TrialOracle)
    (run : PhaseRun) :
  run ∈ phases (main c argc argv1 argv2 load_file run_file world
                     process_start).1 ->
  match phase_kind run with
  | Populate =>
      phase_threads run = 48
      /\ forall s, phase_result run = Done s -> length (threads s) = 48%nat
  | Measure =>
      phase_threads run = wrap64 argv2
      /\ forall s, phase_result run = Done s ->
                   length (threads s) = Z.to_nat (wrap64 argv2)
  end.
Proof.
  intros Hin.
  pose proof (main_phase_threads c argc argv1 argv2 load_file run_file world)
    as Hall.
  rewrite Forall_forall in Hall. destruct (Hall run Hin) as [Hn Hs].
  destruct (phase_kind run); rewrite Hn in Hs; split; auto.
Qed.

Lemma population_spawns_48_witness :
  phase_summary (main small 5 1 2 small_file small_file small_world
                      process_start).1
  = [(Populate, 48, Some 48%nat); (Measure, 2, Some 2%nat);
     (Populate, 48, Some 48%nat); (Measure, 2, Some 2%nat);
     (Populate, 48, Some 48%nat); (Measure, 2, Some 2%nat)]
  /\ forall run,
       run ∈ phases (main small 5 1 2 small_file small_file small_world
                          process_start).1 ->
       phase_kind run = Populate -> phase_threads run = 48.
Proof.
  split; [vm_compute; reflexivity|].
  intros run Hin Hk.
  pose proof (population_spawns_48 small 5 1 2 small_file small_file
                small_world run Hin) as H.
  rewrite Hk in H. apply H.
Defined.

(** C1 (what the code does instead): with the thread-count argument 0 the
    sweep has the seven entries, but every measurement phase is started
    with the argument itself, 0, and runs without any worker, whichever
    entry of the sweep the trial belongs to. *)
Theorem sweep_measures_without_workers (c : Config) (argc argv1 : Z)
    (load_file run_file : list byte) (world : nat -> nat -> TrialOracle)
    (run : PhaseRun) :
  run ∈ phases (main c argc argv1 0 load_file run_file world
                     process_start).1 ->
  phase_kind run = Measure ->
  thread_configurations 0 = [1; 2; 4; 8; 16; 32; 48]
  /\ phase_threads run = 0
  /\ forall s, phase_result run = Done s -> threads s = [].
Proof.
  intros Hin Hk.
  pose proof (population_spawns_48_measure c argc argv1 0 load_file run_file
                world run Hin Hk) as [Hn Hs].
  split; [reflexivity|]. split; [exact Hn|].
  intros s Hres. apply Hs in Hres. apply nil_length_inv. exact Hres.
Qed.

Lemma sweep_measures_without_workers_witness :
  exists run,
    phases (main small 5 0 0 small_file small_file small_world
                 process_start).1 !! 1%nat = Some run
    /\ phase_kind run = Measure
    /\ phase_threads run = 0
    /\ forall s, phase_result run = Done s -> threads s = [].
Proof.
  eexists. split; [vm_compute; reflexivity|]. split; [reflexivity|].
  eapply (sweep_measures_without_workers small 5 0 small_file small_file
            small_world).
  - apply list_elem_of_lookup. exists 1%nat. vm_compute. reflexivity.
  - reflexivity.
Defined.

(** The whole run on the small configuration: 21 trials, each populating
    with 48 threads and measuring with none, and the exit status 0. *)
Example sweep_on_small :
  phase_summary (main small 5 0 0 small_file small_file small_world
                      process_start).1
  = concat (replicate 21 [(Populate, 48, Some 48%nat);
                          (Measure, 0, Some 0%nat)])
  /\ (main small 5 0 0 small_file small_file small_world process_start).2
     = Done 0
  /\ results_ (main small 5 0 0 small_file small_file small_world
                    process_start).1
     = {[ 0 := [NaN; NaN; NaN] ]}.
Proof. split; [|split]; vm_compute; reflexivity. Qed.

(** ** The exit status *)

Lemma load_loop_no_exit (fuel : nat) :
  forall file offset k count code message,
    load_loop fuel file offset k count <> Exit code message.
Proof.
  induction fuel as [|fuel IH]; intros file offset k count code message;
    cbn [load_loop]; [discriminate|].
  destruct (copy_chunk _ k count) as [k' count'].
  destruct (_ =? _); [apply IH | discriminate].
Qed.

Lemma load_keys_exit (expected : Z) (message : string) (file : list byte)
    (code : Z) (message' : string) :
  load_keys expected message file = Exit code message' ->
  code = 1 /\ message' = message.
Proof.
  unfold load_keys.
  destruct (load_loop _ file 0 _ 0) as [[k count]| | |] eqn:E; cbn [bind].
  - destruct (negb _); cbn [exit_after]; [|discriminate].
    destruct (overrun k); [discriminate|]. intros [= <- <-]. auto.
  - exfalso. eapply load_loop_no_exit, E.
  - discriminate.
  - discriminate.
Qed.

Lemma load_files_exit (c : Config) (load_file run_file : list byte)
    (code : Z) (message : string) :
  load_files c load_file run_file = Exit code message ->
  code = 1
  /\ (message = "Init file load fail!"%string
      \/ message = "Txn file load fail!"%string).
Proof.
  unfold load_files.
  destruct (load_keys (kInitCount c) _ load_file) as [ik| | |] eqn:E1; cbn [bind].
  - destruct (load_keys (kTxnCount c) _ run_file) as [tk| | |] eqn:E2;
      cbn [bind exit_after]; try discriminate.
    destruct (overrun ik); cbn [bind]; [discriminate|].
    intros [= <- <-]. apply load_keys_exit in E2 as [-> ->]. auto.
  - intros [= <- <-]. apply load_keys_exit in E1 as [-> ->]. auto.
  - discriminate.
  - discriminate.
Qed.

Lemma succeeds_ret {A : Type} (a : A) : succeeds (ret a).
Proof. intros p. exists p, a. reflexivity. Qed.

Lemma succeeds_seqM {A B : Type} (m : M A) (k : A -> M B) :
  succeeds m -> (forall a, succeeds (k a)) -> succeeds (seqM m k).
Proof.
  intros Hm Hk p. unfold seqM. destruct (Hm p) as (p1 & a & ->). apply Hk.
Qed.

Lemma succeeds_for_each {A : Type} (l : list A) (body : A -> M unit) :
  (forall a, succeeds (body a)) -> succeeds (for_each l body).
Proof.
  intros Hbody. induction l as [|a l IH]; cbn [for_each].
  - apply succeeds_ret.
  - apply succeeds_seqM; auto.
Qed.

Lemma succeeds_call_setup_store (c : Config) (o : Oracle) :
  well_formed c -> fits c (kInitCount c * 8) 48 ->
  succeeds (call_setup_store c o 48).
Proof.
  intros Hwf Hfits p. unfold call_setup_store.
  destruct (setup_store_total c o 48 (atomics p) Hwf) as (s & ->); [|eauto].
  rewrite wrap64_small; [exact Hfits|].
  destruct Hfits as (? & _ & ?). destruct Hwf as (? & _). nia.
Qed.

Lemma succeeds_call_run_benchmark (c : Config) (o : Oracle) (FN : Z -> Op)
    (W : Z) :
  well_formed c -> fits c (kTxnCount c * 8) W -> (forall d, FN d <> Scan) ->
  succeeds (call_run_benchmark c o FN W).
Proof.
  intros Hwf Hfits HFN p. unfold call_run_benchmark.
  destruct (run_benchmark_total c o FN W Hwf Hfits HFN) as (r & s & ->). eauto.
Qed.

Lemma mixers_never_scan :
  (forall d, ycsb_a_50_50 d <> Scan) /\ (forall d, ycsb_rmw_100 d <> Scan)
  /\ (forall d, ycsb_upsert_100 d <> Scan) /\ (forall d, ycsb_read_100 d <> Scan).
Proof.
  repeat split; intros d; try discriminate.
  unfold ycsb_a_50_50. destruct (_ <? _); discriminate.
Qed.

(** C2: in either phase, with constants that are positive and pass the
    [static_assert]s (so that the chunk size divides the corpus length), at
    least one thread and no wrap-around of [idx_], the phase comes to its
    end whatever the schedule decides (a measurement: when its mixer never
    selects [Scan]), and the chunks handed out between the reset of [idx_]
    and the return of the last thread are the consecutive chunks of the
    corpus: no two of them overlap and together they cover [[0, corpus)]
    and nothing else. *)
Theorem chunks_partition_corpus (c : Config) (o : Oracle) (k : PhaseKind)
    (FN : Z -> Op) (W : Z) (g : Globals) :
  well_formed c ->
  1 <= W ->
  fits c (corpus_length c k) W ->
  (k = Measure -> forall d, FN d <> Scan) ->
  exists chunks,
    phase_chunks c o k FN W g = Done chunks
    /\ chunks = chunk_starts c (Z.to_nat (corpus_length c k / kChunkSize c))
    /\ partitions c (corpus_length c k) chunks.
Proof.
  intros Hwf HW Hfits HFN.
  pose proof Hwf as (HC & _ & _ & HKi & HKt & _).
  pose proof (well_formed_intervals c Hwf) as (_ & _ & Hdi & Hdt).
  pose proof Hfits as (HL & _ & Hfit).
  assert (Hex : exists chunks, phase_chunks c o k FN W g = Done chunks).
  { destruct k; cbn [phase_chunks corpus_length] in *.
    - destruct (setup_store_total c o W g Hwf) as (s & ->);
        [|cbn [bind]; eauto].
      rewrite wrap64_small by nia. exact Hfits.
    - destruct (run_benchmark_total c o FN W Hwf Hfits (HFN eq_refl))
        as (r & s & ->).
      cbn [bind]. eauto. }
  destruct Hex as (chunks & Hc). exists chunks. split; [exact Hc|].
  apply (phase_chunks_tile c o k FN W g chunks); try assumption; [|nia].
  destruct k; cbn [corpus_length] in *.
  - rewrite wrap64_small in Hdi by nia. exact Hdi.
  - rewrite wrap64_small in Hdt by nia. exact Hdt.
Qed.

(** Two threads on 16 keys in chunks of 8 keys, in a population and in a
    measurement. *)
Lemma chunks_partition_corpus_witness :
  (phase_chunks small small_oracle Populate ycsb_a_50_50 2
                (mkGlobals 0 0 0 0 0) = Done [0; 64]
   /\ partitions small 128 [0; 64])
  /\ (phase_chunks small small_oracle Measure ycsb_a_50_50 2
                   (mkGlobals 0 0 0 0 0) = Done [0; 64]
      /\ partitions small 128 [0; 64]).
Proof.
  assert (Hwf : well_formed small)
    by (unfold well_formed; cbn; repeat split; lia).
  assert (Hscan : forall k, k = Measure -> forall d, ycsb_a_50_50 d <> Scan)
    by (intros k _; apply mixers_never_scan).
  split.
  - destruct (chunks_partition_corpus small small_oracle Populate
                ycsb_a_50_50 2 (mkGlobals 0 0 0 0 0) Hwf ltac:(lia)
                ltac:(unfold fits; cbn; lia) (Hscan Populate))
      as (chunks & Hc & -> & Hp).
    split; [exact Hc | exact Hp].
  - destruct (chunks_partition_corpus small small_oracle Measure
                ycsb_a_50_50 2 (mkGlobals 0 0 0 0 0) Hwf ltac:(lia)
                ltac:(unfold fits; cbn; lia) (Hscan Measure))
      as (chunks & Hc & -> & Hp).
    split; [exact Hc | exact Hp].
Defined.

Lemma Workload_of_int_None (n : Z) :
  Workload_of_int n = None <-> ~ 0 <= n <= 3.
Proof.
  unfold Workload_of_int.
  destruct (Z.eqb_spec n 0); [split; [discriminate | lia]|].
  destruct (Z.eqb_spec n 1); [split; [discriminate | lia]|].
  destruct (Z.eqb_spec n 2); [split; [discriminate | lia]|].
  destruct (Z.eqb_spec n 3); [split; [discriminate | lia]|].
  split; [lia | reflexivity].
Qed.

Lemma succeeds_trial (c : Config) (workload num_threads nbt : Z)
    (o : TrialOracle) :
  well_formed c -> fits c (kInitCount c * 8) 48 ->
  fits c (kTxnCount c * 8) num_threads ->
  0 <= workload <= 3 ->
  succeeds (trial c workload num_threads nbt o).
Proof.
  intros Hwf Hi Ht Hw. unfold trial.
  destruct mixers_never_scan as (Ha & Hr & Hu & Hd).
  apply succeeds_seqM; [apply succeeds_call_setup_store; assumption|].
  intros _. apply succeeds_seqM.
  - destruct (Workload_of_int workload) as [[]|] eqn:E;
      try (apply succeeds_call_run_benchmark; assumption).
    apply Workload_of_int_None in E. lia.
  - intros result. apply succeeds_seqM.
    + intros p. unfold get_results. eauto.
    + intros v p. unfold set_results. eauto.
Qed.

Lemma trial_unknown_workload (c : Config) (workload num_threads nbt : Z)
    (o : TrialOracle) (p : Process) :
  well_formed c -> fits c (kInitCount c * 8) 48 ->
  ~ 0 <= workload <= 3 ->
  (trial c workload num_threads nbt o p).2 = Exit 1 "Unknown workload!".
Proof.
  intros Hwf Hi Hw. unfold trial, seqM.
  destruct (succeeds_call_setup_store c (populate_oracle o) Hwf Hi p)
    as (p1 & [] & ->).
  apply Workload_of_int_None in Hw. rewrite Hw. reflexivity.
Qed.

Lemma load_files_spec (c : Config) (load_file run_file : list byte) :
  0 <= kInitCount c * 8 < 2 ^ 64 -> 0 <= kTxnCount c * 8 < 2 ^ 64 ->
  Z.of_nat (length load_file) < 2 ^ 64 ->
  Z.of_nat (length run_file) < 2 ^ 64 ->
  load_files c load_file run_file
  = if negb (kInitCount c =? Z.of_nat (length load_file) / 8)
    then (if kInitCount c * 8 <? Z.of_nat (length load_file) then Undefined
          else Exit 1 "Init file load fail!")
    else if negb (kTxnCount c =? Z.of_nat (length run_file) / 8)
         then (if kTxnCount c * 8 <? Z.of_nat (length run_file)
               then Undefined
               else if kInitCount c * 8 <? Z.of_nat (length load_file)
                    then Undefined
                    else Exit 1 "Txn file load fail!")
         else Done (keys_after (kInitCount c * 8) load_file,
                    keys_after (kTxnCount c * 8) run_file).
Proof.
  intros Hi Ht Hl Hr. unfold load_files.
  rewrite !load_keys_spec by assumption.
  destruct (kInitCount c =? _); cbn [negb bind].
  - destruct (kTxnCount c =? _); cbn [negb bind exit_after]; [reflexivity|].
    destruct (kTxnCount c * 8 <? _); cbn [bind exit_after]; [reflexivity|].
    unfold keys_after. cbn [overrun].
    destruct (_ <? _); reflexivity.
  - destruct (_ <? _); reflexivity.
Qed.

(** A mixer that selects [Scan] ends the process with status 1 at the
    first item. *)
Lemma run_benchmark_scan (c : Config) (o : Oracle) (FN : Z -> Op) (W : Z) :
  (forall d, FN d = Scan) ->
  1 <= W -> 0 < kTxnCount c -> 0 < kChunkSize c < 2 ^ 64 ->
  run_benchmark c o FN W = Exit 1 "Scan currently not supported!".
Proof.
  intros HFN HW HK HC. unfold run_benchmark, spawn.
  destruct (Z.to_nat W) as [|n] eqn:En; [lia|].
  set (ths := replicate (S n) thread_start).
  set (s0 := mkSystem (mkGlobals 0 W 0 0 0) ths []).
  assert (Hstep : forall t th, ths !! t = Some th ->
            thread_run_benchmark c o FN t s0
            = Exit 1 "Scan currently not supported!").
  { intros t th Hth. unfold thread_run_benchmark, s0. cbn [threads].
    rewrite Hth. apply lookup_replicate in Hth as [-> _].
    cbn [thread_start finished fetch_add_idx globals idx_].
    change (0 / 8) with 0.
    destruct (Z.leb_spec (kTxnCount c) 0); [lia|].
    unfold process_chunk. cbn [item_loop].
    rewrite Z.add_0_l, wrap64_small by lia.
    destruct (Z.ltb_spec 0 (kChunkSize c)); [|lia].
    unfold run_item. rewrite HFN. reflexivity. }
  assert (Hsched : forall sched,
            run_schedule (thread_run_benchmark c o FN) sched s0 = Done s0
            \/ run_schedule (thread_run_benchmark c o FN) sched s0
               = Exit 1 "Scan currently not supported!").
  { induction sched as [|t sched IH]; cbn [run_schedule]; [left; reflexivity|].
    destruct (ths !! t) as [th|] eqn:Hth.
    - rewrite (Hstep t th Hth). right. reflexivity.
    - assert (Hnone : thread_run_benchmark c o FN t s0 = Done s0).
      { unfold thread_run_benchmark. unfold s0 at 1. cbn [threads].
        rewrite Hth. reflexivity. }
      rewrite Hnone. cbn [bind]. exact IH. }
  destruct (Hsched (schedule o)) as [-> | ->]; [|reflexivity].
  cbn [bind]. unfold thread_ids.
  assert (Hlen : length (threads s0) = S n)
    by (unfold s0, ths; cbn [threads]; apply length_replicate).
  rewrite Hlen. cbn [seq join_all]. unfold join_fuel. cbn [join].
  assert (Hth : ths !! 0%nat = Some thread_start) by reflexivity.
  replace (threads s0 !! 0%nat) with (Some thread_start) by reflexivity.
  cbn [thread_start finished].
  rewrite (Hstep 0%nat thread_start Hth). reflexivity.
Qed.

Lemma seqM_exit {A B : Type} (m : M A) (k : A -> M B) (p : Process)
    (code : Z) (message : string) :
  (m p).2 = Exit code message -> (seqM m k p).2 = Exit code message.
Proof.
  unfold seqM. destruct (m p) as [p' [a| | |]]; cbn; congruence.
Qed.

Lemma seqM_done {A B : Type} (m : M A) (k : A -> M B) (p p' : Process)
    (a : A) :
  m p = (p', Done a) -> seqM m k p = k a p'.
Proof. unfold seqM. intros ->. reflexivity. Qed.

Lemma thread_configurations_cons (num_threads : Z) :
  exists x rest, thread_configurations num_threads = x :: rest.
Proof. unfold thread_configurations. destruct (_ =? _); eauto. Qed.

Lemma seqM_undefined {A B : Type} (m : M A) (k : A -> M B) (p : Process) :
  (m p).2 = Undefined -> (seqM m k p).2 = Undefined.
Proof.
  unfold seqM. destruct (m p) as [p' [a| | |]]; cbn; congruence.
Qed.

Lemma main_load_exit (c : Config) (argv1 argv2 : Z)
    (load_file run_file : list byte) (world : nat -> nat -> TrialOracle)
    (p : Process) (code : Z) (message : string) :
  load_files c load_file run_file = Exit code message ->
  (main c 5 argv1 argv2 load_file run_file world p).2 = Exit code message.
Proof.
  intros H. unfold main. change (5 =? 4 + 1) with true. cbn [negb].
  apply seqM_exit. rewrite H. reflexivity.
Qed.

Lemma main_load_undefined (c : Config) (argv1 argv2 : Z)
    (load_file run_file : list byte) (world : nat -> nat -> TrialOracle)
    (p : Process) :
  load_files c load_file run_file = Undefined ->
  (main c 5 argv1 argv2 load_file run_file world p).2 = Undefined.
Proof.
  intros H. unfold main. change (5 =? 4 + 1) with true. cbn [negb].
  apply seqM_undefined. rewrite H. reflexivity.
Qed.

Lemma main_unknown_workload (c : Config) (argv1 argv2 : Z)
    (load_file run_file : list byte) (world : nat -> nat -> TrialOracle)
    (p : Process) (ik tk : Keys) :
  well_formed c -> fits c (kInitCount c * 8) 48 ->
  load_files c load_file run_file = Done (ik, tk) ->
  ~ 0 <= to_int32 argv1 <= 3 ->
  (main c 5 argv1 argv2 load_file run_file world p).2
  = Exit 1 "Unknown workload!".
Proof.
  intros Hwf Hi Hload Hw. unfold main.
  change (5 =? 4 + 1) with true. cbn [negb]. rewrite Hload.
  erewrite seqM_done by reflexivity.
  apply seqM_exit.
  destruct (thread_configurations_cons (wrap64 argv2)) as (x & rest & ->).
  cbn [imap for_each]. apply seqM_exit.
  erewrite seqM_done by reflexivity.
  cbn [seq for_each]. apply seqM_exit.
  apply trial_unknown_workload; assumption.
Qed.

Lemma main_all_trials (c : Config) (argv1 argv2 : Z)
    (load_file run_file : list byte) (world : nat -> nat -> TrialOracle)
    (p : Process) (ik tk : Keys) :
  well_formed c -> fits c (kInitCount c * 8) 48 ->
  fits c (kTxnCount c * 8) (wrap64 argv2) ->
  load_files c load_file run_file = Done (ik, tk) ->
  0 <= to_int32 argv1 <= 3 ->
  (main c 5 argv1 argv2 load_file run_file world p).2 = Done 0.
Proof.
  intros Hwf Hi Ht Hload Hw. unfold main.
  change (5 =? 4 + 1) with true. cbn [negb]. rewrite Hload.
  erewrite seqM_done by reflexivity.
  match goal with
  | |- (seqM ?m _ ?q).2 = _ =>
      assert (Hm : succeeds m); [|destruct (Hm q) as (p' & [] & Hp')]
  end.
  - apply succeeds_for_each. intros [i n]. apply succeeds_seqM.
    + intros q. unfold set_results. eauto.
    + intros _. apply succeeds_for_each. intros j.
      apply succeeds_trial; assumption.
  - erewrite seqM_done by exact Hp'. reflexivity.
Qed.

(** C7 (where the code departs from it): a load file that holds up to
    seven bytes after the expected keys is a file-load mismatch, its
    length being no multiple of 8, and yet [main] goes through all its
    trials and ends with status 0.  For the rest the status is as stated:
    0 when the argument count is wrong and when all trials have run; 1,
    with the message of the file, when a key file holds fewer whole keys
    than expected (and no store has left an array); 1 when the workload,
    taken as an [int], is none of 0..3; 1 at an item for which the mixer
    selects [Scan], and for a measurement whose mixer always selects it.
    A key file with more whole keys than expected has been stored past the
    end of its array before the count is looked at, so that no status can
    be stated for it, nor for a run file that is turned down after such
    stores of the load file. *)
Theorem exit_statuses (c : Config) (argc argv1 argv2 : Z)
    (load_file run_file : list byte) (world : nat -> nat -> TrialOracle) :
  well_formed c ->
  fits c (kInitCount c * 8) 48 ->
  fits c (kTxnCount c * 8) (wrap64 argv2) ->
  Z.of_nat (length load_file) < 2 ^ 64 ->
  Z.of_nat (length run_file) < 2 ^ 64 ->
  let r := (main c argc argv1 argv2 load_file run_file world
                 process_start).2 in
  let loaded := Z.of_nat (length load_file) in
  let run := Z.of_nat (length run_file) in
  let counts_match := loaded / 8 = kInitCount c /\ run / 8 = kTxnCount c in
  (argc = 5 -> 0 <= to_int32 argv1 <= 3 -> run / 8 = kTxnCount c ->
   forall rem, 1 <= rem <= 7 -> loaded = kInitCount c * 8 + rem ->
   loaded mod 8 <> 0 /\ r = Done 0)
  /\ (argc <> 5 -> exists message, r = Exit 0 message)
  /\ (argc = 5 -> loaded / 8 <> kInitCount c -> loaded <= kInitCount c * 8 ->
      r = Exit 1 "Init file load fail!")
  /\ (argc = 5 -> loaded = kInitCount c * 8 -> run / 8 <> kTxnCount c ->
      run <= kTxnCount c * 8 -> r = Exit 1 "Txn file load fail!")
  /\ (argc = 5 ->
      (loaded / 8 <> kInitCount c /\ kInitCount c * 8 < loaded)
      \/ (loaded / 8 = kInitCount c /\ run / 8 <> kTxnCount c
          /\ (kTxnCount c * 8 < run \/ kInitCount c * 8 < loaded)) ->
      r = Undefined)
  /\ (argc = 5 -> counts_match -> ~ 0 <= to_int32 argv1 <= 3 ->
      r = Exit 1 "Unknown workload!")
  /\ (argc = 5 -> counts_match -> 0 <= to_int32 argv1 <= 3 -> r = Done 0)
  /\ (forall o FN idx th,
        FN (draw o idx) = Scan ->
        run_item c o FN idx th = Exit 1 "Scan currently not supported!")
  /\ (forall o FN W,
        (forall d, FN d = Scan) -> 1 <= W -> 0 < kTxnCount c ->
        run_benchmark c o FN W = Exit 1 "Scan currently not supported!").
Proof.
  intros Hwf Hi Ht Hl Hr r loaded run counts_match.
  pose proof Hwf as (HC & _ & _ & HKi & HKt & _).
  assert (Hli : 0 <= kInitCount c * 8 < 2 ^ 64)
    by (destruct Hi as (? & _ & ?); nia).
  assert (Hlt : 0 <= kTxnCount c * 8 < 2 ^ 64)
    by (destruct Ht as (? & ? & ?); nia).
  pose proof (load_files_spec c load_file run_file Hli Hlt Hl Hr) as Hload.
  fold loaded run in Hload.
  assert (Hdone : counts_match ->
            load_files c load_file run_file
            = Done (keys_after (kInitCount c * 8) load_file,
                    keys_after (kTxnCount c * 8) run_file)).
  { intros [Hc1 Hc2]. rewrite Hload, Hc1, Hc2, !Z.eqb_refl. reflexivity. }
  split; [|split; [|split; [|split; [|split; [|split; [|split; [|split]]]]]]].
  - intros -> Hw Hc2 rem Hrem Hlen.
    assert (Hc1 : loaded / 8 = kInitCount c) by div_lia.
    split; [div_lia|]. unfold r.
    eapply main_all_trials; try eassumption. apply Hdone. split; assumption.
  - intros Hargc. unfold r, main.
    destruct (Z.eqb_spec argc (4 + 1)); [lia|]. cbn. eauto.
  - intros -> Hc1 Hle. unfold r. apply main_load_exit. rewrite Hload.
    destruct (Z.eqb_spec (kInitCount c) (loaded / 8)); [congruence|].
    cbn [negb]. destruct (Z.ltb_spec (kInitCount c * 8) loaded); [lia|].
    reflexivity.
  - intros -> Hc1 Hc2 Hle. unfold r. apply main_load_exit. rewrite Hload.
    rewrite Hc1, Z.div_mul, Z.eqb_refl by lia. cbn [negb].
    destruct (Z.eqb_spec (kTxnCount c) (run / 8)); [congruence|].
    cbn [negb]. destruct (Z.ltb_spec (kTxnCount c * 8) run); [lia|].
    rewrite Z.ltb_irrefl. reflexivity.
  - intros -> Hover. unfold r. apply main_load_undefined. rewrite Hload.
    destruct Hover as [[Hc1 Hlt1] | (Hc1 & Hc2 & Hlt2)].
    + destruct (Z.eqb_spec (kInitCount c) (loaded / 8)); [congruence|].
      cbn [negb]. destruct (Z.ltb_spec (kInitCount c * 8) loaded); [|lia].
      reflexivity.
    + rewrite Hc1, Z.eqb_refl. cbn [negb].
      destruct (Z.eqb_spec (kTxnCount c) (run / 8)); [congruence|].
      cbn [negb].
      destruct (Z.ltb_spec (kTxnCount c * 8) run); [reflexivity|].
      destruct (Z.ltb_spec (kInitCount c * 8) loaded); [reflexivity | lia].
  - intros -> Hcm Hw. unfold r.
    eapply main_unknown_workload; try eassumption. apply Hdone, Hcm.
  - intros -> Hcm Hw. unfold r.
    eapply main_all_trials; try eassumption. apply Hdone, Hcm.
  - intros o FN idx th HFN. unfold run_item. rewrite HFN. reflexivity.
  - intros o FN W HFN HW HK. apply run_benchmark_scan; try assumption.
    destruct Ht as (? & ? & ?). split; [exact HC | nia].
Qed.

(** A load file of 16 keys and one byte is accepted and the run ends with
    status 0; one of 15 keys ends it with status 1; a workload 7 ends it
    with status 1. *)
Lemma exit_statuses_witness :
  (Z.of_nat (length (replicate 129 "000"%byte)) mod 8 <> 0
   /\ (main small 5 1 2 (replicate 129 "000"%byte) small_file small_world
            process_start).2 = Done 0)
  /\ (main small 5 1 2 (replicate 120 "000"%byte) small_file small_world
           process_start).2 = Exit 1 "Init file load fail!"
  /\ (main small 5 7 2 small_file small_file small_world process_start).2
     = Exit 1 "Unknown workload!".
Proof.
  assert (Hwf : well_formed small) by (unfold well_formed; cbn; repeat split; lia).
  assert (Hi : fits small (kInitCount small * 8) 48) by (unfold fits; cbn; lia).
  assert (Ht : fits small (kTxnCount small * 8) (wrap64 2))
    by (unfold fits; change (wrap64 2) with 2; cbn; lia).
  assert (Hl : Z.of_nat (length small_file) < 2 ^ 64) by (cbn; lia).
  split; [|split].
  - apply (exit_statuses small 5 1 2 (replicate 129 "000"%byte) small_file
             small_world Hwf Hi Ht ltac:(cbn; lia) Hl) with (rem := 1);
      [reflexivity | change (to_int32 1) with 1; lia | reflexivity | lia
      | reflexivity].
  - apply (exit_statuses small 5 1 2 (replicate 120 "000"%byte) small_file
             small_world Hwf Hi Ht ltac:(cbn; lia) Hl);
      [reflexivity | vm_compute; discriminate | vm_compute; discriminate].
  - apply (exit_statuses small 5 7 2 small_file small_file small_world
             Hwf Hi Ht Hl Hl);
      [reflexivity | split; reflexivity | change (to_int32 7) with 7; lia].
Defined.

(** ** The constants of the source *)

Lemma ycsb_well_formed : well_formed ycsb.
Proof. unfold well_formed. cbn. repeat split; try lia. Qed.

Lemma ycsb_fits (k : PhaseKind) (W : Z) :
  0 <= W <= 2 ^ 32 -> fits ycsb (corpus_length ycsb k) W.
Proof. intros HW. unfold fits. destruct k; cbn; lia. Qed.

(** With the constants of the source and up to [2^32] threads, both
    phases end and hand out the chunks of their corpus, 78125 chunks of
    the load file and 312500 of the run file, each once. *)
Lemma ycsb_chunks_partition (o : Oracle) (k : PhaseKind) (W : Z)
    (g : Globals) :
  1 <= W <= 2 ^ 32 ->
  exists chunks,
    phase_chunks ycsb o k ycsb_a_50_50 W g = Done chunks
    /\ partitions ycsb (corpus_length ycsb k) chunks
    /\ Z.of_nat (length chunks)
       = match k with Populate => 78125 | Measure => 312500 end.
Proof.
  intros HW.
  assert (exists chunks, phase_chunks ycsb o k ycsb_a_50_50 W g = Done chunks)
    as (chunks & Hc).
  { destruct k; cbn [phase_chunks].
    - destruct (setup_store_total ycsb o W g ycsb_well_formed) as (s & ->);
        [|cbn [bind]; eauto].
      apply (ycsb_fits Populate). lia.
    - destruct (run_benchmark_total ycsb o ycsb_a_50_50 W ycsb_well_formed)
        as (r & s & ->); [| |cbn [bind]; eauto].
      + apply (ycsb_fits Measure). lia.
      + apply mixers_never_scan. }
  exists chunks. split; [exact Hc|].
  apply phase_chunks_tile in Hc as [-> Hp].
  - split; [exact Hp|]. unfold chunk_starts.
    rewrite length_map, length_seq. destruct k; reflexivity.
  - reflexivity.
  - destruct k; cbn; lia.
  - destruct k; reflexivity.
  - lia.
  - destruct k; cbn; lia.
Qed.

(** With the constants of the source and up to [2^32] threads, the
    measurement phase ends for each of the four mixers, whatever the
    draws, the status codes, the clock and the schedule. *)
Lemma ycsb_run_benchmark_total (o : Oracle) (w : Workload) (W : Z) :
  0 <= W <= 2 ^ 32 ->
  exists r s,
    run_benchmark ycsb o
      (match w with
       | A_50_50 => ycsb_a_50_50
       | RMW_100 => ycsb_rmw_100
       | UPSERT_100 => ycsb_upsert_100
       | READ_100 => ycsb_read_100
       end) W = Done (r, s).
Proof.
  intros HW. apply run_benchmark_total.
  - exact ycsb_well_formed.
  - apply (ycsb_fits Measure). exact HW.
  - destruct mixers_never_scan as (Ha & Hr & Hu & Hd). destruct w; assumption.
Qed.

(** ** Thread affinity *)

Lemma SetThreadAffinity_even (core : Z) :
  core mod 2 = 0 -> SetThreadAffinity core = core.
Proof. intros H. unfold SetThreadAffinity. rewrite H. reflexivity. Qed.

Lemma SetThreadAffinity_odd (core : Z) :
  0 <= core < 2 ^ 64 - 36 -> core mod 2 = 1 ->
  SetThreadAffinity core = core + 35.
Proof.
  intros Hr H. unfold SetThreadAffinity, kCoreCount. rewrite H.
  change (1 =? 0) with false. cbn match.
  assert (core <> 0) by (intros ->; discriminate).
  rewrite (wrap64_small (core - 1)) by lia. rewrite wrap64_small by lia. lia.
Qed.

Lemma SetThreadAffinity_same (a b : Z) :
  0 <= a -> a < b -> b < 2 ^ 64 - 36 ->
  SetThreadAffinity a = SetThreadAffinity b <-> a mod 2 = 1 /\ b = a + 35.
Proof.
  intros Ha Hab Hb.
  destruct (Z.eq_dec (a mod 2) 0) as [Ea|Ea];
    destruct (Z.eq_dec (b mod 2) 0) as [Eb|Eb].
  - rewrite !SetThreadAffinity_even by assumption. div_lia.
  - rewrite (SetThreadAffinity_even a), (SetThreadAffinity_odd b)
      by (assumption || div_lia). div_lia.
  - rewrite (SetThreadAffinity_odd a), (SetThreadAffinity_even b)
      by (assumption || div_lia). div_lia.
  - rewrite !SetThreadAffinity_odd by div_lia. div_lia.
Qed.

(** X1: in the default build, two thread indices are pinned to the same
    CPU exactly when the smaller is odd and the larger is 35 more; the
    first 36 threads get 36 different CPUs, and of the 48 threads of a
    population the threads 1 and 36 share CPU 36. *)
Theorem SetThreadAffinity_collisions (a b : Z) :
  0 <= a -> a < b -> b < 2 ^ 64 - 36 ->
  (SetThreadAffinity a = SetThreadAffinity b <-> a mod 2 = 1 /\ b = a + 35)
  /\ (b < 36 -> SetThreadAffinity a <> SetThreadAffinity b)
  /\ SetThreadAffinity 1 = SetThreadAffinity 36.
Proof.
  intros Ha Hab Hb.
  pose proof (SetThreadAffinity_same a b Ha Hab Hb) as Hiff.
  split; [exact Hiff|]. split; [|reflexivity].
  intros Hlt E. apply Hiff in E. div_lia.
Qed.

Lemma SetThreadAffinity_collisions_witness :
  SetThreadAffinity 3 = SetThreadAffinity 38 <-> 3 mod 2 = 1 /\ 38 = 3 + 35.
Proof.
  apply (proj1 (SetThreadAffinity_collisions 3 38 ltac:(lia) ltac:(lia) ltac:(lia))).
Defined.

Lemma SetThreadAffinity_NUMA_even (core : Z) :
  core mod 2 = 0 -> SetThreadAffinity_NUMA core = core / 2.
Proof.
  intros H. unfold SetThreadAffinity_NUMA.
  assert (core mod 4 = 0 \/ core mod 4 = 2) as [-> | ->] by div_lia;
    reflexivity.
Qed.

Lemma SetThreadAffinity_NUMA_odd (core : Z) :
  0 <= core < 2 ^ 64 - 36 -> core mod 2 = 1 ->
  SetThreadAffinity_NUMA core = 36 + (core - 1) / 2.
Proof.
  intros Hr H. unfold SetThreadAffinity_NUMA, kCoreCount.
  assert (Hq : 0 <= (core - 1) / 2 <= core /\ 1 <= core) by div_lia.
  assert (core mod 4 = 1 \/ core mod 4 = 3) as [-> | ->] by div_lia.
  - cbn match. rewrite (wrap64_small (core - 1)) by lia.
    apply wrap64_small. lia.
  - cbn match. rewrite (wrap64_small (core - 1)) by lia.
    apply wrap64_small. lia.
Qed.

Lemma SetThreadAffinity_NUMA_same (a b : Z) :
  0 <= a -> a < b -> b < 2 ^ 64 - 36 ->
  SetThreadAffinity_NUMA a = SetThreadAffinity_NUMA b
  <-> a mod 2 = 1 /\ b = a + 71.
Proof.
  intros Ha Hab Hb.
  destruct (Z.eq_dec (a mod 2) 0) as [Ea|Ea];
    destruct (Z.eq_dec (b mod 2) 0) as [Eb|Eb].
  - rewrite !SetThreadAffinity_NUMA_even by assumption. div_lia.
  - rewrite (SetThreadAffinity_NUMA_even a), (SetThreadAffinity_NUMA_odd b)
      by (assumption || div_lia). div_lia.
  - rewrite (SetThreadAffinity_NUMA_odd a), (SetThreadAffinity_NUMA_even b)
      by (assumption || div_lia). div_lia.
  - rewrite !SetThreadAffinity_NUMA_odd by div_lia. div_lia.
Qed.

Lemma SetThreadAffinity_NUMA_range (core : Z) :
  0 <= core < 72 -> 0 <= SetThreadAffinity_NUMA core < 72.
Proof.
  intros Hr. destruct (Z.eq_dec (core mod 2) 0) as [E|E].
  - rewrite SetThreadAffinity_NUMA_even by assumption. div_lia.
  - rewrite SetThreadAffinity_NUMA_odd by div_lia. div_lia.
Qed.

(** X2: in the [NUMA] build, even indices go to the CPUs [core / 2] and
    odd ones to [36 + (core - 1) / 2], so that two indices are pinned to
    the same CPU exactly when the smaller is odd and the larger is 71
    more; the first 72 threads get 72 different CPUs, all below 72, and
    the indices [2k] and [2k + 1] get the CPUs [k] and [36 + k]. *)
Theorem SetThreadAffinity_NUMA_collisions (a b : Z) :
  0 <= a -> a < b -> b < 2 ^ 64 - 36 ->
  (SetThreadAffinity_NUMA a = SetThreadAffinity_NUMA b
   <-> a mod 2 = 1 /\ b = a + 71)
  /\ (b < 72 -> SetThreadAffinity_NUMA a <> SetThreadAffinity_NUMA b
                /\ 0 <= SetThreadAffinity_NUMA a < 72
                /\ 0 <= SetThreadAffinity_NUMA b < 72)
  /\ (a mod 2 = 0 -> b = a + 1 ->
      SetThreadAffinity_NUMA a = a / 2
      /\ SetThreadAffinity_NUMA b = 36 + a / 2).
Proof.
  intros Ha Hab Hb.
  pose proof (SetThreadAffinity_NUMA_same a b Ha Hab Hb) as Hiff.
  split; [exact Hiff|]. split.
  - intros Hlt. split; [|split].
    + intros E. apply Hiff in E. div_lia.
    + apply SetThreadAffinity_NUMA_range. lia.
    + apply SetThreadAffinity_NUMA_range. lia.
  - intros Ea ->. split.
    + apply SetThreadAffinity_NUMA_even, Ea.
    + rewrite SetThreadAffinity_NUMA_odd by div_lia. div_lia.
Qed.

Lemma SetThreadAffinity_NUMA_collisions_witness :
  SetThreadAffinity_NUMA 1 = SetThreadAffinity_NUMA 72
  <-> 1 mod 2 = 1 /\ 72 = 1 + 71.
Proof.
  apply (proj1 (SetThreadAffinity_NUMA_collisions 1 72 ltac:(lia) ltac:(lia) ltac:(lia))).
Defined.

(** X3: in the [_WIN32] build, a thread index below [36 * 2^16] gets the
    group [core / 36] and the mask with the single bit [core mod 36], so
    that different indices get different (group, mask) pairs. *)
Theorem SetThreadAffinity_WIN32_injective (a b : Z) :
  0 <= a < 36 * 2 ^ 16 -> 0 <= b < 36 * 2 ^ 16 ->
  SetThreadAffinity_WIN32 a = (a / 36, 2 ^ (a mod 36))
  /\ (SetThreadAffinity_WIN32 a = SetThreadAffinity_WIN32 b -> a = b).
Proof.
  intros Ha Hb.
  assert (Hval : forall core, 0 <= core < 36 * 2 ^ 16 ->
            SetThreadAffinity_WIN32 core = (core / 36, 2 ^ (core mod 36))).
  { intros core Hc. unfold SetThreadAffinity_WIN32, kCoreCount.
    assert (Hg : (core / 36) mod 2 ^ 16 = core / 36)
      by (apply Z.mod_small; div_lia).
    rewrite Hg.
    assert (Hm : wrap64 (36 * (core / 36)) = 36 * (core / 36))
      by (apply wrap64_small; div_lia).
    rewrite Hm.
    assert (Hs : wrap64 (core - 36 * (core / 36)) = core mod 36)
      by (rewrite wrap64_small; div_lia).
    rewrite Hs.
    destruct (Z.ltb_spec (core mod 36) 64); [reflexivity | div_lia]. }
  split; [apply Hval, Ha|].
  rewrite (Hval a Ha), (Hval b Hb). intros [= Hq Hp].
  apply Z.pow_inj_r in Hp; div_lia.
Qed.

Lemma SetThreadAffinity_WIN32_injective_witness :
  SetThreadAffinity_WIN32 37 = (37 / 36, 2 ^ (37 mod 36)).
Proof.
  apply (proj1 (SetThreadAffinity_WIN32_injective 37 37 ltac:(lia) ltac:(lia))).
Defined.

(** ** Every key of a corpus is operated on once *)

Lemma item_loop_keeps {A : Type} (f : Thread -> A)
    (body : Z -> Thread -> outcome Thread) :
  (forall idx th th', body idx th = Done th' -> f th' = f th) ->
  forall fuel idx hi th th',
    item_loop fuel body idx hi th = Done th' -> f th' = f th.
Proof.
  intros Hbody. induction fuel as [|fuel IH]; intros idx hi th th' H;
    cbn [item_loop] in H; [discriminate|].
  destruct (idx <? hi); [|injection H as <-; reflexivity].
  destruct (body idx th) as [th1| | |] eqn:Hb; cbn [bind] in H; try discriminate.
  rewrite (IH _ _ _ _ H). eapply Hbody, Hb.
Qed.

Lemma setup_item_claimed (c : Config) (idx : Z) (th th' : Thread) :
  setup_item c idx th = Done th' -> claimed th' = claimed th.
Proof. intros [= <-]. reflexivity. Qed.

Lemma run_item_claimed (c : Config) (o : Oracle) (FN : Z -> Op)
    (idx : Z) (th th' : Thread) :
  run_item c o FN idx th = Done th' -> claimed th' = claimed th.
Proof.
  unfold run_item. destruct (FN (draw o idx)); try discriminate;
    try (intros [= <-]; reflexivity).
  destruct (wrap8 (rmw_status o idx) =? 0); intros [= <-]; reflexivity.
Qed.

Lemma flat_map_claimed_insert (ths : list Thread) :
  forall (t : nat) (th th' : Thread) (l : list Z),
    ths !! t = Some th -> claimed th' = claimed th ++ l ->
    flat_map claimed (<[t := th']> ths) ≡ₚ flat_map claimed ths ++ l.
Proof.
  induction ths as [|x ths IH]; intros t th th' l Hl Hc; [discriminate|].
  destruct t as [|t]; simpl in Hl |- *.
  - injection Hl as ->. rewrite Hc, <- !app_assoc.
    apply Permutation_app_head, Permutation_app_comm.
  - rewrite (IH t th th' l Hl Hc), app_assoc. reflexivity.
Qed.

Lemma turn_claims_inv (c : Config) (more : Z -> bool)
    (body : Z -> Thread -> outcome Thread)
    (leave : nat -> Thread -> Globals -> Globals)
    (t : nat) (s s' : System) :
  (forall idx th th', body idx th = Done th' -> claimed th' = claimed th) ->
  claims_inv s -> turn c more body leave t s = Done s' -> claims_inv s'.
Proof.
  intros Hbody Hinv H. unfold claims_inv in *.
  apply turn_cases in H
    as [-> | [(th & th' & Hth & Hf & Hm & Hp & ->) | (th & Hth & Hf & Hm & ->)]].
  - exact Hinv.
  - cbn [threads issued]. unfold process_chunk in Hp.
    apply (item_loop_keeps claimed body Hbody) in Hp. cbn [claim claimed] in Hp.
    rewrite (flat_map_claimed_insert _ _ _ _ _ Hth Hp), map_app, Hinv.
    reflexivity.
  - cbn [threads issued].
    rewrite (flat_map_claimed_insert _ t th _ [] Hth), app_nil_r;
      [exact Hinv|].
    cbn [finish log claimed]. rewrite app_nil_r. reflexivity.
Qed.

Lemma chunk_items_aligned (c : Config) (q chunk_idx : Z) :
  kChunkSize c = 8 * q ->
  chunk_items c chunk_idx = items_from (Z.to_nat q) chunk_idx.
Proof.
  intros Hq. unfold chunk_items. f_equal. f_equal. rewrite Hq. div_lia.
Qed.

Lemma items_of_chunk_starts (c : Config) (q : Z) (n : nat) :
  kChunkSize c = 8 * q -> 0 <= q ->
  items_of c (chunk_starts c n) = items_from (n * Z.to_nat q) 0.
Proof.
  intros Hq Hq0. induction n as [|n IH]; [reflexivity|].
  rewrite chunk_starts_S, items_of_app, IH.
  replace (S n * Z.to_nat q)%nat with (n * Z.to_nat q + Z.to_nat q)%nat by lia.
  rewrite items_from_app. f_equal.
  unfold items_of. cbn [flat_map]. rewrite app_nil_r.
  rewrite (chunk_items_aligned c q) by exact Hq. f_equal.
  rewrite Hq, Nat2Z.inj_mul, Z2Nat.id by exact Hq0. lia.
Qed.

Lemma items_of_corpus (c : Config) (count : Z) :
  0 < kChunkSize c -> kChunkSize c mod 8 = 0 -> 0 <= count ->
  (count * 8) mod kChunkSize c = 0 ->
  items_of c (chunk_starts c (Z.to_nat (count * 8 / kChunkSize c)))
  = corpus_keys count.
Proof.
  intros HC H8 Hcount Hdiv.
  apply Z.mod_divide in H8 as [q Hq]; [|lia].
  apply Z.mod_divide in Hdiv as [n Hn]; [|lia].
  assert (Hq0 : 0 < q) by lia.
  rewrite (items_of_chunk_starts c q) by lia.
  unfold corpus_keys. f_equal.
  rewrite Hn, Z.div_mul by lia.
  assert (count = n * q) by lia. subst count.
  assert (0 <= n) by nia.
  rewrite Z2Nat.inj_mul by lia. reflexivity.
Qed.

Lemma filter_operations_cadence (c : Config) (idx : Z) :
  filter (fun cl => is_operation cl = true) (cadence c idx) = [].
Proof.
  unfold cadence.
  destruct (_ =? 0); destruct (_ =? 0); reflexivity.
Qed.

Lemma operations_items (c : Config) (ops : Z -> Call) (l : list Z) :
  (forall idx, is_operation (ops idx) = true) ->
  filter (fun cl => is_operation cl = true)
         (map snd (flat_map (item_calls c ops) l))
  = map ops l.
Proof.
  intros Hop. induction l as [|idx l IH]; [reflexivity|].
  cbn [flat_map map]. rewrite map_app, filter_app.
  change (ops idx :: map ops l) with ([ops idx] ++ map ops l).
  f_equal; [|exact IH].
  unfold item_calls. rewrite map_map. cbn [snd]. rewrite map_id.
  rewrite filter_app, filter_operations_cadence.
  rewrite filter_cons_True by apply Hop. reflexivity.
Qed.

Lemma operations_calls_inv (c : Config) (ops : Z -> Call) (th : Thread) :
  (forall idx, is_operation (ops idx) = true) ->
  calls_inv c ops th ->
  operations th = map ops (items_of c (claimed th)).
Proof.
  intros Hop Hinv. unfold operations. rewrite Hinv.
  cbn [map]. rewrite filter_cons_False by discriminate.
  rewrite map_app, filter_app, (operations_items c ops _ Hop).
  destruct (finished th); cbn; rewrite app_nil_r; reflexivity.
Qed.

Lemma operations_of_threads (c : Config) (ops : Z -> Call)
    (ths : list Thread) :
  (forall idx, is_operation (ops idx) = true) ->
  Forall (calls_inv c ops) ths ->
  flat_map operations ths = map ops (items_of c (flat_map claimed ths)).
Proof.
  intros Hop. induction 1 as [|th ths Hth _ IH]; [reflexivity|].
  cbn [flat_map]. rewrite items_of_app, map_app, IH.
  rewrite (operations_calls_inv c ops th Hop Hth). reflexivity.
Qed.

Lemma items_of_Permutation (c : Config) (l1 l2 : list Z) :
  l1 ≡ₚ l2 -> items_of c l1 ≡ₚ items_of c l2.
Proof.
  unfold items_of. induction 1 as [|x l1 l2 _ IH|x y l|l1 l2 l3 _ IH1 _ IH2];
    cbn [flat_map].
  - reflexivity.
  - rewrite IH. reflexivity.
  - rewrite !app_assoc. apply Permutation_app_tail, Permutation_app_comm.
  - etransitivity; eassumption.
Qed.

Lemma setup_operation_is_operation (idx : Z) :
  is_operation (setup_operation idx) = true.
Proof. reflexivity. Qed.

Lemma setup_store_claims (c : Config) (o : Oracle) (W : Z) (g : Globals)
    (s : System) :
  setup_store c o W g = Done s -> claims_inv s.
Proof.
  intros Hs.
  apply (setup_store_inv c o W g s claims_inv) in Hs as (H & _); [exact H| |].
  - unfold claims_inv, spawn. cbn [threads issued map].
    induction (Z.to_nat W) as [|n IH]; [reflexivity | exact IH].
  - intros t s1 s2 Hinv Ht. rewrite thread_setup_store_turn in Ht.
    eapply turn_claims_inv; [apply setup_item_claimed | exact Hinv | exact Ht].
Qed.

Lemma run_benchmark_claims (c : Config) (o : Oracle) (FN : Z -> Op) (W : Z)
    (r : double) (s : System) :
  run_benchmark c o FN W = Done (r, s) -> claims_inv s.
Proof.
  intros Hs.
  apply (run_benchmark_inv c o FN W r s claims_inv) in Hs as (H & _);
    [exact H| |].
  - unfold claims_inv, spawn. cbn [threads issued map].
    induction (Z.to_nat W) as [|n IH]; [reflexivity | exact IH].
  - intros t s1 s2 Hinv Ht. rewrite thread_run_benchmark_turn in Ht.
    eapply turn_claims_inv;
      [apply (run_item_claimed c o FN) | exact Hinv | exact Ht].
Qed.

(** The chunks of all threads of a finished phase are, up to their order,
    the chunks of the corpus, and so are their items its keys. *)
Lemma items_of_claimed (c : Config) (count : Z) (W : nat) (s : System) :
  0 < kChunkSize c -> kChunkSize c mod 8 = 0 -> 0 <= count ->
  (count * 8) mod kChunkSize c = 0 -> (0 < W)%nat ->
  counter_inv c (count * 8) W s -> all_finished s -> claims_inv s ->
  items_of c (flat_map claimed (threads s)) ≡ₚ corpus_keys count.
Proof.
  intros HC H8 Hcount Hdiv HW Hinv Hall Hcl.
  rewrite (items_of_Permutation c _ _ Hcl).
  destruct Hinv as (Hlen & _ & Hst & _ & Hfin).
  assert (Hn : Z.of_nat (length (issued s)) * kChunkSize c = count * 8).
  { apply Hfin. rewrite (count_finished_all _ Hall). lia. }
  rewrite Hst, <- (items_of_corpus c count) by assumption.
  rewrite <- Hn, Z.div_mul, Nat2Z.id by lia. reflexivity.
Qed.

Lemma setup_store_operations (c : Config) (o : Oracle) (W : Z)
    (g : Globals) (s : System) :
  well_formed c -> kChunkSize c mod 8 = 0 -> 1 <= W ->
  fits c (kInitCount c * 8) W ->
  setup_store c o W g = Done s ->
  all_operations s ≡ₚ map setup_operation (corpus_keys (kInitCount c))
  /\ NoDup (all_operations s).
Proof.
  intros Hwf H8 HW Hfits Hs.
  pose proof Hwf as (HC & HR & HP & HKi & _ & _).
  pose proof (well_formed_intervals c Hwf) as (_ & HPR & Hdiv & _).
  pose proof Hfits as (HL & _ & Hfit).
  assert (Hw : wrap64 (kInitCount c * 8) = kInitCount c * 8)
    by (apply wrap64_small; nia).
  rewrite Hw in Hdiv.
  pose proof (setup_store_claims c o W g s Hs) as Hcl.
  pose proof (setup_store_calls c o W g s HC HR HPR ltac:(rewrite Hw; nia) Hs)
    as Hcalls.
  apply Forall_and in Hcalls as [Hcalls _].
  apply setup_store_counter in Hs as [Hinv Hall];
    [|exact HC | rewrite Hw; exact Hdiv | rewrite Hw, Z2Nat.id; nia].
  rewrite Hw in Hinv.
  assert (Hperm : all_operations s
                  ≡ₚ map setup_operation (corpus_keys (kInitCount c))).
  { unfold all_operations.
    rewrite (operations_of_threads c setup_operation _
               setup_operation_is_operation Hcalls).
    apply Permutation_map.
    apply (items_of_claimed c (kInitCount c) (Z.to_nat W)); try assumption.
    lia. }
  split; [exact Hperm|].
  rewrite Hperm. apply NoDup_fmap_2; [|apply items_from_NoDup].
  intros x y [= E]. exact E.
Qed.

(** X4: the population phase upserts every key of the load file exactly
    once, with the value byte 42 and the lengths 8 and 8: the upserts of all
    its threads together are, up to the order the schedule puts them in,
    one upsert per key offset 0, 8, ..., 8 * (kInitCount - 1).  This needs
    at least one thread, a chunk size that is a multiple of the key size,
    and no wrap-around of [idx_]. *)
Theorem population_upserts_each_key_once (c : Config) (o : Oracle) (W : Z)
    (g : Globals) (s : System) :
  well_formed c -> kChunkSize c mod 8 = 0 -> 1 <= W ->
  fits c (kInitCount c * 8) W ->
  setup_store c o W g = Done s ->
  all_operations s ≡ₚ map setup_operation (corpus_keys (kInitCount c))
  /\ NoDup (all_operations s).
Proof. apply setup_store_operations. Qed.

Lemma population_upserts_each_key_once_witness :
  exists s,
    setup_store small small_oracle 2 (mkGlobals 0 0 0 0 0) = Done s
    /\ all_operations s ≡ₚ map setup_operation (corpus_keys (kInitCount small))
    /\ NoDup (all_operations s).
Proof.
  eexists. split; [vm_compute; reflexivity|].
  eapply (population_upserts_each_key_once small small_oracle 2
            (mkGlobals 0 0 0 0 0)).
  - unfold well_formed. cbn. repeat split; try lia.
  - reflexivity.
  - lia.
  - unfold fits. cbn. lia.
  - vm_compute. reflexivity.
Defined.

Lemma run_operation_inj (o : Oracle) (FN : Z -> Op) (x y : Z) :
  run_operation o FN x = run_operation o FN y -> x = y.
Proof.
  unfold run_operation.
  destruct (FN (draw o x)); destruct (FN (draw o y)); intros [= E];
    exact E.
Qed.

Lemma run_benchmark_operations (c : Config) (o : Oracle)
    (FN : Z -> Op) (W : Z) (r : double) (s : System) :
  well_formed c -> kChunkSize c mod 8 = 0 -> 1 <= W ->
  fits c (kTxnCount c * 8) W ->
  run_benchmark c o FN W = Done (r, s) ->
  all_operations s ≡ₚ map (run_operation o FN) (corpus_keys (kTxnCount c))
  /\ NoDup (all_operations s).
Proof.
  intros Hwf H8 HW Hfits Hs.
  pose proof Hwf as (HC & HR & HP & _ & HKt & _).
  pose proof (well_formed_intervals c Hwf) as (_ & HPR & _ & Hdiv).
  pose proof Hfits as (HL & _ & Hfit).
  rewrite wrap64_small in Hdiv by nia.
  pose proof (run_benchmark_claims c o FN W r s Hs) as Hcl.
  pose proof (run_benchmark_calls c o FN W r s HC HR HPR ltac:(nia) Hs)
    as Hcalls.
  apply Forall_and in Hcalls as [Hcalls _].
  apply run_benchmark_counter in Hs as [Hinv Hall];
    [|exact HC | exact Hdiv | exact HL | rewrite Z2Nat.id; nia].
  assert (Hperm : all_operations s
                  ≡ₚ map (run_operation o FN) (corpus_keys (kTxnCount c))).
  { unfold all_operations.
    rewrite (operations_of_threads c (run_operation o FN) _
               (run_operation_is_operation o FN) Hcalls).
    apply Permutation_map.
    apply (items_of_claimed c (kTxnCount c) (Z.to_nat W)); try assumption.
    lia. }
  split; [exact Hperm|].
  rewrite Hperm. apply NoDup_fmap_2; [|apply items_from_NoDup].
  intros x y. apply run_operation_inj.
Qed.

(** X5: a measurement phase that ends has issued exactly one data
    operation for every key of the run file, the one the mixer selected at
    that key: the operations of all its threads together are, up to the
    order the schedule puts them in, one operation per key offset
    0, 8, ..., 8 * (kTxnCount - 1). *)
Theorem measurement_operates_on_each_key_once (c : Config) (o : Oracle)
    (FN : Z -> Op) (W : Z) (r : double) (s : System) :
  well_formed c -> kChunkSize c mod 8 = 0 -> 1 <= W ->
  fits c (kTxnCount c * 8) W ->
  run_benchmark c o FN W = Done (r, s) ->
  all_operations s ≡ₚ map (run_operation o FN) (corpus_keys (kTxnCount c))
  /\ NoDup (all_operations s).
Proof. apply run_benchmark_operations. Qed.

Lemma measurement_operates_on_each_key_once_witness :
  exists r s,
    run_benchmark small small_oracle ycsb_a_50_50 2 = Done (r, s)
    /\ all_operations s
       ≡ₚ map (run_operation small_oracle ycsb_a_50_50)
              (corpus_keys (kTxnCount small))
    /\ NoDup (all_operations s).
Proof.
  eexists. eexists. split; [vm_compute; reflexivity|].
  eapply (measurement_operates_on_each_key_once small small_oracle
            ycsb_a_50_50 2).
  - unfold well_formed. cbn. repeat split; try lia.
  - reflexivity.
  - lia.
  - unfold fits. cbn. lia.
  - vm_compute. reflexivity.
Defined.

(** ** The totals of a measurement *)

Lemma sum_items_app (f : Z -> Z) (l1 l2 : list Z) :
  sum_items f (l1 ++ l2) = sum_items f l1 + sum_items f l2.
Proof.
  unfold sum_items. induction l1 as [|x l1 IH]; cbn [app foldr];
    [reflexivity|].
  rewrite IH. lia.
Qed.

Lemma sum_items_Permutation (f : Z -> Z) (l1 l2 : list Z) :
  l1 ≡ₚ l2 -> sum_items f l1 = sum_items f l2.
Proof.
  unfold sum_items.
  induction 1 as [|x l1 l2 _ IH|x y l|l1 l2 l3 _ IH1 _ IH2]; cbn [foldr].
  - reflexivity.
  - rewrite IH. reflexivity.
  - lia.
  - congruence.
Qed.

Lemma sum_items_bounds (f : Z -> Z) (l : list Z) :
  (forall idx, 0 <= f idx <= 1) ->
  0 <= sum_items f l <= Z.of_nat (length l).
Proof.
  intros Hf. unfold sum_items.
  induction l as [|x l IH]; cbn [foldr length]; [lia|].
  specialize (Hf x). lia.
Qed.

Lemma sum_items_const (f : Z -> Z) (k : Z) (l : list Z) :
  (forall idx, f idx = k) -> sum_items f l = k * Z.of_nat (length l).
Proof.
  intros Hf. unfold sum_items.
  induction l as [|x l IH]; cbn [foldr length]; [lia|].
  rewrite IH, Hf. lia.
Qed.

Lemma sum_items_add (f g : Z -> Z) (l : list Z) :
  sum_items f l + sum_items g l = sum_items (fun idx => f idx + g idx) l.
Proof.
  unfold sum_items. induction l as [|x l IH]; cbn [foldr]; [reflexivity|].
  rewrite <- IH. lia.
Qed.

Lemma sum_items_ext (f g : Z -> Z) (l : list Z) :
  (forall idx, f idx = g idx) -> sum_items f l = sum_items g l.
Proof.
  intros Hfg. unfold sum_items.
  induction l as [|x l IH]; cbn [foldr]; [reflexivity|].
  rewrite IH, Hfg. reflexivity.
Qed.

Lemma items_from_length (n : nat) (lo : Z) : length (items_from n lo) = n.
Proof.
  revert lo. induction n as [|n IH]; intros lo; cbn; [reflexivity|].
  rewrite IH. reflexivity.
Qed.

Lemma run_item_exact (c : Config) (o : Oracle) (FN : Z -> Op)
    (idx : Z) (th th' : Thread) :
  run_item c o FN idx th = Done th' ->
  reads_done th' = reads_done th + item_reads o FN idx
  /\ writes_done th' = writes_done th + item_writes o FN idx
  /\ claimed th' = claimed th.
Proof.
  unfold run_item, item_reads, item_writes.
  destruct (FN (draw o idx)); try discriminate;
    try (intros [= <-]; cbn; repeat split; lia).
  destruct (wrap8 (rmw_status o idx) =? 0); intros [= <-]; cbn;
    repeat split; lia.
Qed.

Lemma fold_items_run_counters (c : Config) (o : Oracle) (FN : Z -> Op)
    (l : list Z) :
  forall th th', fold_items (run_item c o FN) l th = Done th' ->
    reads_done th' = reads_done th + sum_items (item_reads o FN) l
    /\ writes_done th' = writes_done th + sum_items (item_writes o FN) l
    /\ claimed th' = claimed th.
Proof.
  induction l as [|idx l IH]; intros th th' H; cbn [fold_items] in H.
  - injection H as <-. cbn. repeat split; lia.
  - destruct (run_item c o FN idx th) as [th1| | |] eqn:Hb; cbn [bind] in H;
      try discriminate.
    apply run_item_exact in Hb as (Hr1 & Hw1 & Hc1).
    apply IH in H as (Hr & Hw & Hc).
    cbn [sum_items foldr]. unfold sum_items in *.
    repeat split; [lia | lia | congruence].
Qed.

Lemma run_benchmark_counters (c : Config) (o : Oracle) (FN : Z -> Op) (W : Z)
    (r : double) (s : System) :
  0 < kChunkSize c -> kTxnCount c * 8 + kChunkSize c + 8 <= 2 ^ 64 ->
  run_benchmark c o FN W = Done (r, s) ->
  Forall (counters_inv c o FN) (threads s).
Proof.
  intros HC Hrange Hs.
  apply (run_benchmark_inv c o FN W r s
           (fun s => 0 <= idx_ (globals s)
                     /\ Forall (counters_inv c o FN) (threads s)))
    in Hs as ([_ H] & _); [exact H| |].
  - cbn. split; [lia|]. apply spawn_Forall. split; reflexivity.
  - intros t s1 s2 Hinv Ht. rewrite thread_run_benchmark_turn in Ht.
    eapply (turn_threads_inv c (kTxnCount c * 8)); [| | | | exact Hinv | exact Ht].
    + intros i Hi. apply negb_true_iff, Z.leb_gt in Hi.
      destruct (Z.lt_ge_cases i (kTxnCount c * 8)) as [|Hge]; [assumption|].
      assert (kTxnCount c <= i / 8) by (apply Z.div_le_lower_bound; lia). lia.
    + reflexivity.
    + intros chunk_idx th th' [Hr Hw] Hf Hidx Hp.
      rewrite process_chunk_fold in Hp by lia.
      apply fold_items_run_counters in Hp as (Hr' & Hw' & Hc').
      cbn [claim reads_done writes_done claimed] in *.
      unfold counters_inv. rewrite Hc', items_of_app, !sum_items_app.
      unfold items_of at 2 4. cbn [flat_map]. rewrite app_nil_r.
      split; lia.
    + intros th [Hr Hw] Hf. split; assumption.
Qed.

Lemma sum_threads_counters (c : Config) (f : Z -> Z) (g : Thread -> Z)
    (ths : list Thread) :
  Forall (fun th => g th = sum_items f (items_of c (claimed th))) ths ->
  forall k, sum_threads_from (fun _ th => g th) k ths
            = sum_items f (items_of c (flat_map claimed ths)).
Proof.
  induction 1 as [|th ths Hth _ IH]; intros k; [reflexivity|].
  cbn [sum_threads_from flat_map].
  rewrite items_of_app, sum_items_app, IH, Hth. reflexivity.
Qed.

Lemma item_reads_bounds (o : Oracle) (FN : Z -> Op) (idx : Z) :
  0 <= item_reads o FN idx <= 1.
Proof. unfold item_reads. destruct (FN (draw o idx)); lia. Qed.

Lemma item_writes_bounds (o : Oracle) (FN : Z -> Op) (idx : Z) :
  0 <= item_writes o FN idx <= 1.
Proof.
  unfold item_writes. destruct (FN (draw o idx)); try lia.
  destruct (_ =? 0); lia.
Qed.

Lemma run_benchmark_totals (c : Config) (o : Oracle) (FN : Z -> Op) (W : Z)
    (r : double) (s : System) :
  well_formed c -> kChunkSize c mod 8 = 0 -> 1 <= W ->
  fits c (kTxnCount c * 8) W ->
  run_benchmark c o FN W = Done (r, s) ->
  total_reads_done_ (globals s)
  = sum_items (item_reads o FN) (corpus_keys (kTxnCount c))
  /\ total_writes_done_ (globals s)
     = sum_items (item_writes o FN) (corpus_keys (kTxnCount c)).
Proof.
  intros Hwf H8 HW Hfits Hs.
  pose proof Hwf as (HC & HR & HP & _ & HKt & _).
  pose proof (well_formed_intervals c Hwf) as (_ & HPR & _ & Hdiv).
  pose proof Hfits as (HL & _ & Hfit).
  rewrite wrap64_small in Hdiv by nia.
  pose proof (run_benchmark_claims c o FN W r s Hs) as Hcl.
  pose proof (run_benchmark_counters c o FN W r s HC ltac:(nia) Hs) as Hcnt.
  apply run_benchmark_final in Hs
    as (_ & Hall & _ & (_ & Hr & Hw & _) & _ & Hinv); try assumption.
  pose proof (items_of_claimed c (kTxnCount c) (Z.to_nat W) s HC H8 HKt Hdiv
                ltac:(lia) Hinv Hall Hcl) as Hperm.
  unfold all_finished in Hall.
  rewrite (published_all _ _ Hall) in Hr.
  rewrite (published_all _ _ Hall) in Hw.
  rewrite (sum_threads_counters c (item_reads o FN)) in Hr
    by (eapply Forall_impl; [exact Hcnt | intros th [E _]; exact E]).
  rewrite (sum_threads_counters c (item_writes o FN)) in Hw
    by (eapply Forall_impl; [exact Hcnt | intros th [_ E]; exact E]).
  rewrite (sum_items_Permutation _ _ _ Hperm) in Hr.
  rewrite (sum_items_Permutation _ _ _ Hperm) in Hw.
  pose proof (sum_items_bounds _ (corpus_keys (kTxnCount c))
                (item_reads_bounds o FN)) as Hbr.
  pose proof (sum_items_bounds _ (corpus_keys (kTxnCount c))
                (item_writes_bounds o FN)) as Hbw.
  unfold corpus_keys in Hbr, Hbw.
  rewrite items_from_length, Z2Nat.id in Hbr, Hbw by exact HKt.
  rewrite wrap64_small in Hr by (unfold corpus_keys; nia).
  rewrite wrap64_small in Hw by (unfold corpus_keys; nia).
  split; assumption.
Qed.

(** X6: the totals a measurement phase ends with depend on the draws and
    on the status codes only, not on the number of threads (one at least)
    or on the schedule: [total_reads_done_] is the number of keys of the
    run file at which the mixer selected a read, [total_writes_done_] the
    number of those at which it selected an insert or upsert or a
    read-modify-write that the engine answered with status 0. *)
Theorem totals_count_the_corpus (c : Config) (o : Oracle) (FN : Z -> Op)
    (W : Z) (r : double) (s : System) :
  well_formed c -> kChunkSize c mod 8 = 0 -> 1 <= W ->
  fits c (kTxnCount c * 8) W ->
  run_benchmark c o FN W = Done (r, s) ->
  total_reads_done_ (globals s)
  = sum_items (item_reads o FN) (corpus_keys (kTxnCount c))
  /\ total_writes_done_ (globals s)
     = sum_items (item_writes o FN) (corpus_keys (kTxnCount c)).
Proof. apply run_benchmark_totals. Qed.

Lemma totals_count_the_corpus_witness :
  exists r s,
    run_benchmark small small_oracle ycsb_rmw_100 2 = Done (r, s)
    /\ total_reads_done_ (globals s)
       = sum_items (item_reads small_oracle ycsb_rmw_100)
                   (corpus_keys (kTxnCount small))
    /\ total_writes_done_ (globals s) = 15.
Proof.
  eexists. eexists. split; [vm_compute; reflexivity|].
  split.
  - eapply (totals_count_the_corpus small small_oracle ycsb_rmw_100 2).
    + unfold well_formed. cbn. repeat split; try lia.
    + reflexivity.
    + lia.
    + unfold fits. cbn. lia.
    + vm_compute. reflexivity.
  - reflexivity.
Defined.

Lemma run_benchmark_workload_totals (c : Config) (o : Oracle)
    (w : Workload) (W : Z) (r : double) (s : System) :
  well_formed c -> kChunkSize c mod 8 = 0 -> 1 <= W ->
  fits c (kTxnCount c * 8) W ->
  run_benchmark c o (workload_mixer w) W = Done (r, s) ->
  let reads := total_reads_done_ (globals s) in
  let writes := total_writes_done_ (globals s) in
  match w with
  | A_50_50 => reads + writes = kTxnCount c /\ 0 <= reads /\ 0 <= writes
  | RMW_100 =>
      reads = 0
      /\ writes = sum_items (fun idx => if wrap8 (rmw_status o idx) =? 0
                                        then 1 else 0)
                            (corpus_keys (kTxnCount c))
      /\ 0 <= writes <= kTxnCount c
  | UPSERT_100 => reads = 0 /\ writes = kTxnCount c
  | READ_100 => reads = kTxnCount c /\ writes = 0
  end.
Proof.
  intros Hwf H8 HW Hfits Hs reads writes.
  pose proof Hwf as (_ & _ & _ & _ & HKt & _).
  apply run_benchmark_totals in Hs as [Hr Hw]; try assumption.
  assert (Hlen : Z.of_nat (length (corpus_keys (kTxnCount c))) = kTxnCount c).
  { unfold corpus_keys. rewrite items_from_length. lia. }
  unfold reads, writes. rewrite Hr, Hw. destruct w; cbn [workload_mixer].
  - rewrite sum_items_add.
    rewrite (sum_items_const _ 1).
    + rewrite Hlen. split; [lia|].
      split; apply sum_items_bounds;
        [apply item_reads_bounds | apply item_writes_bounds].
    + intros idx. unfold item_reads, item_writes, ycsb_a_50_50.
      destruct (_ <? 50); reflexivity.
  - split; [rewrite (sum_items_const _ 0); [lia | reflexivity]|].
    split; [reflexivity|].
    pose proof (sum_items_bounds _ (corpus_keys (kTxnCount c))
                  (item_writes_bounds o ycsb_rmw_100)) as Hb.
    rewrite Hlen in Hb. exact Hb.
  - rewrite (sum_items_const _ 0) by reflexivity.
    rewrite (sum_items_const _ 1) by reflexivity. lia.
  - rewrite (sum_items_const _ 1) by reflexivity.
    rewrite (sum_items_const _ 0) by reflexivity. lia.
Qed.



(** ** Where the atomics end *)

Lemma counter_inv_idx_final (c : Config) (corpus : Z) (W : nat) (s : System) :
  0 < kChunkSize c -> 0 <= corpus -> (0 < W)%nat ->
  corpus + Z.of_nat W * kChunkSize c < 2 ^ 64 ->
  counter_inv c corpus W s -> all_finished s ->
  idx_ (globals s) = corpus + Z.of_nat W * kChunkSize c.
Proof.
  intros HC HL HW Hfit (Hlen & Hidx & _ & _ & Hfin) Hall.
  rewrite (count_finished_all _ Hall), Hlen in *.
  specialize (Hfin HW). rewrite Hidx, Nat2Z.inj_add, Z.mul_add_distr_r, Hfin.
  apply wrap64_small. nia.
Qed.

Lemma setup_store_keeps_accumulators (c : Config) (o : Oracle) (W : Z)
    (g : Globals) (s : System) :
  setup_store c o W g = Done s ->
  threads_waiting_ (globals s) = threads_waiting_ g
  /\ total_duration_ (globals s) = total_duration_ g
  /\ total_reads_done_ (globals s) = total_reads_done_ g
  /\ total_writes_done_ (globals s) = total_writes_done_ g.
Proof.
  intros Hs.
  apply (setup_store_inv c o W g s
           (fun s => threads_waiting_ (globals s) = threads_waiting_ g
                     /\ total_duration_ (globals s) = total_duration_ g
                     /\ total_reads_done_ (globals s) = total_reads_done_ g
                     /\ total_writes_done_ (globals s) = total_writes_done_ g))
    in Hs as (H & _); [exact H| |].
  - cbn. auto.
  - intros t s1 s2 Hinv Ht. rewrite thread_setup_store_turn in Ht.
    apply turn_cases in Ht
      as [-> | [(th & th' & _ & _ & _ & _ & ->) | (th & _ & _ & _ & ->)]];
      [exact Hinv | exact Hinv | exact Hinv].
Qed.

(** X8: the population phase ends, whatever the schedule decides, with
    every thread returned; [idx_] is then one chunk per thread past the end
    of the load file, and the atomics of the measurement are as they
    were. *)
Theorem setup_store_ends (c : Config) (o : Oracle) (W : Z) (g : Globals) :
  well_formed c -> 1 <= W -> fits c (kInitCount c * 8) W ->
  exists s,
    setup_store c o W g = Done s
    /\ all_finished s /\ length (threads s) = Z.to_nat W
    /\ idx_ (globals s) = kInitCount c * 8 + W * kChunkSize c
    /\ threads_waiting_ (globals s) = threads_waiting_ g
    /\ total_duration_ (globals s) = total_duration_ g
    /\ total_reads_done_ (globals s) = total_reads_done_ g
    /\ total_writes_done_ (globals s) = total_writes_done_ g.
Proof.
  intros Hwf HW Hfits.
  pose proof Hwf as (HC & _ & _ & HKi & _ & _).
  pose proof (well_formed_intervals c Hwf) as (_ & _ & Hdiv & _).
  pose proof Hfits as (HL & _ & Hfit).
  assert (Hw : wrap64 (kInitCount c * 8) = kInitCount c * 8)
    by (apply wrap64_small; nia).
  destruct (setup_store_total c o W g Hwf) as (s & Hs);
    [rewrite Hw; exact Hfits|].
  exists s. split; [exact Hs|].
  pose proof (setup_store_keeps_accumulators c o W g s Hs) as Hacc.
  pose proof (setup_store_spawned c o W g s Hs) as Hlen.
  apply setup_store_counter in Hs as [Hinv Hall];
    [|exact HC | exact Hdiv | rewrite Hw, Z2Nat.id; nia].
  rewrite Hw in Hinv.
  split; [exact Hall|]. split; [exact Hlen|]. split; [|exact Hacc].
  rewrite (counter_inv_idx_final c (kInitCount c * 8) (Z.to_nat W) s);
    try assumption; rewrite ?Z2Nat.id; try lia; nia.
Qed.

Lemma setup_store_ends_witness :
  exists s,
    setup_store small small_oracle 2 (mkGlobals 7 5 4 3 2) = Done s
    /\ all_finished s /\ length (threads s) = Z.to_nat 2
    /\ idx_ (globals s) = kInitCount small * 8 + 2 * kChunkSize small
    /\ threads_waiting_ (globals s) = 5
    /\ total_duration_ (globals s) = 4
    /\ total_reads_done_ (globals s) = 3
    /\ total_writes_done_ (globals s) = 2.
Proof.
  apply (setup_store_ends small small_oracle 2 (mkGlobals 7 5 4 3 2)).
  - unfold well_formed. cbn. repeat split; try lia.
  - lia.
  - unfold fits. cbn. lia.
Defined.

(** X9: the measurement phase ends, whatever the draws, the status codes,
    the clock and the schedule, when the mixer never selects [Scan]: every
    thread has returned, [threads_waiting_] is back at 0, so that the
    polling loop is left, and [idx_] is one chunk per thread past the end
    of the run file. *)
Theorem run_benchmark_ends (c : Config) (o : Oracle) (FN : Z -> Op) (W : Z) :
  well_formed c -> 1 <= W -> fits c (kTxnCount c * 8) W ->
  (forall d, FN d <> Scan) ->
  exists r s,
    run_benchmark c o FN W = Done (r, s)
    /\ all_finished s /\ length (threads s) = Z.to_nat W
    /\ idx_ (globals s) = kTxnCount c * 8 + W * kChunkSize c
    /\ threads_waiting_ (globals s) = 0.
Proof.
  intros Hwf HW Hfits HFN.
  pose proof Hwf as (HC & _ & _ & _ & HKt & _).
  pose proof Hfits as (HL & _ & Hfit).
  destruct (run_benchmark_total c o FN W Hwf Hfits HFN) as (r & s & Hs).
  exists r, s. split; [exact Hs|].
  apply run_benchmark_final in Hs
    as (_ & Hall & Hlen & (_ & _ & _ & Htw) & _ & Hinv); try assumption.
  split; [exact Hall|]. split; [exact Hlen|]. split.
  - rewrite (counter_inv_idx_final c (kTxnCount c * 8) (Z.to_nat W) s);
      try assumption; rewrite ?Z2Nat.id; try lia; nia.
  - rewrite Htw, (count_finished_all _ Hall), Hlen, Z2Nat.id, Z.sub_diag by lia.
    reflexivity.
Qed.

Lemma run_benchmark_ends_witness :
  exists r s,
    run_benchmark small small_oracle ycsb_a_50_50 2 = Done (r, s)
    /\ all_finished s /\ length (threads s) = Z.to_nat 2
    /\ idx_ (globals s) = kTxnCount small * 8 + 2 * kChunkSize small
    /\ threads_waiting_ (globals s) = 0.
Proof.
  apply (run_benchmark_ends small small_oracle ycsb_a_50_50 2).
  - unfold well_formed. cbn. repeat split; try lia.
  - lia.
  - unfold fits. cbn. lia.
  - apply mixers_never_scan.
Defined.

(** ** The loader, block by block *)

Lemma alloc_aligned_keys_after (size : Z) :
  0 <= size -> alloc_aligned size = keys_after size [].
Proof.
  intros Hsize. unfold alloc_aligned, keys_after. rewrite take_nil.
  change (Z.of_nat (length (@nil byte))) with 0.
  replace (size <? 0) with false; [reflexivity|].
  symmetry. apply Z.ltb_ge. exact Hsize.
Qed.

Lemma load_loop_out_of_fuel (file : list byte) (fuel : nat) :
  forall (pre rest : list byte) (k : Keys) (count : Z),
    file = pre ++ rest ->
    Z.of_nat (length file) < 2 ^ 64 ->
    Z.of_nat fuel * kFileChunkSize <= Z.of_nat (length rest) ->
    load_loop fuel file (Z.of_nat (length pre)) k count = OutOfFuel.
Proof.
  induction fuel as [|fuel IH]; intros pre rest k count Hfile Hlen Hfuel;
    [reflexivity|].
  cbn [load_loop]. unfold File_Read.
  rewrite Nat2Z.id, Hfile, drop_app_length.
  assert (Hl : Z.of_nat (length file)
               = Z.of_nat (length pre) + Z.of_nat (length rest))
    by (rewrite Hfile, length_app; lia).
  set (chunk := take (Z.to_nat kFileChunkSize) rest).
  assert (Hchunk : Z.of_nat (length chunk) = kFileChunkSize).
  { unfold chunk. rewrite length_take. unfold kFileChunkSize in *. lia. }
  destruct (copy_chunk chunk k count) as [k' count'].
  rewrite Hchunk, Z.eqb_refl.
  rewrite wrap64_small by (unfold kFileChunkSize in *; lia).
  replace (Z.of_nat (length pre) + kFileChunkSize)
    with (Z.of_nat (length (pre ++ chunk)))
    by (rewrite length_app; lia).
  rewrite <- Hfile.
  apply (IH (pre ++ chunk) (drop (Z.to_nat kFileChunkSize) rest)).
  - rewrite Hfile, <- app_assoc. unfold chunk. rewrite take_drop. reflexivity.
  - exact Hlen.
  - rewrite length_drop. unfold kFileChunkSize in *. lia.
Qed.

(** X10: the [while(true)] loop of the loader, started on a fresh
    allocation of [size] bytes, comes to its [break] after exactly
    [length / 131072 + 1] reads (one more than the file has full blocks,
    also when the last block is full); it has then counted every byte of
    the file and stored the first [size] of them in order, and it has
    stored past the end of the allocation exactly when the file is longer
    than [size] bytes, before the count is compared with anything. *)
Theorem load_loop_reads_whole_file (size : Z) (file : list byte)
    (fuel : nat) :
  0 <= size -> Z.of_nat (length file) < 2 ^ 64 ->
  load_loop fuel file 0 (alloc_aligned size) 0
  = if Z.of_nat (length file) / kFileChunkSize <? Z.of_nat fuel
    then Done (mkKeys size (take (Z.to_nat size) file)
                      (size <? Z.of_nat (length file)),
               Z.of_nat (length file))
    else OutOfFuel.
Proof.
  intros Hsize Hlen.
  change 0 with (Z.of_nat (length (@nil byte))) at 1 2.
  destruct (Z.ltb_spec (Z.of_nat (length file) / kFileChunkSize)
                       (Z.of_nat fuel)) as [Hlt|Hge].
  - rewrite alloc_aligned_keys_after by exact Hsize.
    apply (load_loop_spec size file fuel [] file);
      [reflexivity | exact Hsize | exact Hlen|].
    unfold kFileChunkSize in *. div_lia.
  - apply (load_loop_out_of_fuel file fuel [] file);
      [reflexivity | exact Hlen|].
    unfold kFileChunkSize in *. div_lia.
Qed.

Lemma load_loop_reads_whole_file_witness :
  load_loop 1 small_file 0 (alloc_aligned 64) 0
  = if Z.of_nat (length small_file) / kFileChunkSize <? Z.of_nat 1
    then Done (mkKeys 64 (take (Z.to_nat 64) small_file)
                      (64 <? Z.of_nat (length small_file)),
               Z.of_nat (length small_file))
    else OutOfFuel.
Proof.
  apply (load_loop_reads_whole_file 64 small_file 1); cbn; lia.
Defined.

(** X11: [load_files] returns with both key arrays holding the bytes of
    their files, in order and with no store outside the allocations,
    exactly when the load file has [8 * kInitCount] bytes and the run file
    [8 * kTxnCount]. *)
Theorem load_files_round_trip (c : Config) (load_file run_file : list byte) :
  0 <= kInitCount c * 8 < 2 ^ 64 -> 0 <= kTxnCount c * 8 < 2 ^ 64 ->
  Z.of_nat (length load_file) < 2 ^ 64 ->
  Z.of_nat (length run_file) < 2 ^ 64 ->
  (Z.of_nat (length load_file) = kInitCount c * 8
   /\ Z.of_nat (length run_file) = kTxnCount c * 8)
  <-> load_files c load_file run_file
      = Done (mkKeys (kInitCount c * 8) load_file false,
              mkKeys (kTxnCount c * 8) run_file false).
Proof.
  intros Hi Ht Hl Hr. split.
  - intros [El Er]. unfold load_files.
    rewrite (load_keys_exact _ _ load_file Hi El). cbn [bind].
    rewrite (load_keys_exact _ _ run_file Ht Er). reflexivity.
  - rewrite (load_files_spec c load_file run_file Hi Ht Hl Hr).
    destruct (Z.eqb_spec (kInitCount c) (Z.of_nat (length load_file) / 8))
      as [Ei|]; cbn [negb]; [|destruct (_ <? _); discriminate].
    destruct (Z.eqb_spec (kTxnCount c) (Z.of_nat (length run_file) / 8))
      as [Et|]; cbn [negb];
      [|destruct (_ <? _); [|destruct (_ <? _)]; discriminate].
    unfold keys_after. intros [= _ Hoi _ Hot].
    apply Z.ltb_ge in Hoi, Hot. split; div_lia.
Qed.

Lemma load_files_round_trip_witness :
  load_files small small_file small_file
  = Done (mkKeys (kInitCount small * 8) small_file false,
          mkKeys (kTxnCount small * 8) small_file false).
Proof.
  apply (load_files_round_trip small small_file small_file); cbn; lia.
Defined.

(** ** A whole run of [main] *)



Lemma workload_mixer_never_scan (w : Workload) (d : Z) :
  workload_mixer w d <> Scan.
Proof.
  destruct mixers_never_scan as (Ha & Hr & Hu & Hd). destruct w; cbn; auto.
Qed.






Section Sweep.
Variable c : Config.
Variable workload N : Z.
Variable w : Workload.
Variable world : nat -> nat -> TrialOracle.

Hypothesis Hwf : well_formed c.
Hypothesis Hi : fits c (kInitCount c * 8) 48.
Hypothesis Ht : fits c (kTxnCount c * 8) N.
Hypothesis Hw : Workload_of_int workload = Some w.

Let body : nat * Z -> M unit :=
  fun '(i, num_benchmark_threads) =>
    do _ <- set_results N [];
    for_each (seq 0 3)
      (fun j => trial c workload N num_benchmark_threads (world i j)).




End Sweep.









(** ** A phase without threads *)

Lemma run_schedule_no_threads (step : nat -> System -> outcome System)
    (s : System) :
  (forall t, step t s = Done s) ->
  forall sched, run_schedule step sched s = Done s.
Proof.
  intros Hstep. induction sched as [|t sched IH]; cbn [run_schedule];
    [reflexivity|].
  rewrite Hstep. cbn [bind]. exact IH.
Qed.

Lemma no_threads_spec (c : Config) (o : Oracle) (FN : Z -> Op)
    (g : Globals) :
  setup_store c o 0 g
  = Done (mkSystem (mkGlobals 0 (threads_waiting_ g) (total_duration_ g)
                              (total_reads_done_ g) (total_writes_done_ g))
                   [] [])
  /\ run_benchmark c o FN 0
     = Done (NaN, mkSystem (mkGlobals 0 0 0 0 0) [] []).
Proof.
  split.
  - unfold setup_store, spawn. cbn [Z.to_nat replicate].
    rewrite run_schedule_no_threads by reflexivity. reflexivity.
  - unfold run_benchmark, spawn. cbn [Z.to_nat replicate].
    rewrite run_schedule_no_threads by reflexivity. reflexivity.
Qed.

(** X14: with no thread, neither phase issues a call or hands out a
    chunk, whatever the constants, the mixer (one that selects [Scan]
    included) and the schedule: [setup_store] only resets [idx_], and
    [run_benchmark] resets the atomics, finds [threads_waiting_] at 0 at
    the first test of its polling loop and returns 0/0, which is no
    number.  The time the call takes (the sleep before that test) is not
    part of the statement. *)
Theorem phases_without_threads (c : Config) (o : Oracle) (FN : Z -> Op)
    (g : Globals) :
  setup_store c o 0 g
  = Done (mkSystem (mkGlobals 0 (threads_waiting_ g) (total_duration_ g)
                              (total_reads_done_ g) (total_writes_done_ g))
                   [] [])
  /\ run_benchmark c o FN 0
     = Done (NaN, mkSystem (mkGlobals 0 0 0 0 0) [] []).
Proof. apply no_threads_spec. Qed.

(** ** Merging twice *)

Lemma wrap8_add_l (a b : Z) : wrap8 (wrap8 a + b) = wrap8 (a + b).
Proof. unfold wrap8. apply Zplus_mod_idemp_l. Qed.

Lemma rmw_cb_returns (current modification d : list (option Z))
    (cur0 mod0 : Z) :
  current !! 0%nat = Some (Some cur0) ->
  modification !! 0%nat = Some (Some mod0) ->
  rmw_cb true current 8 modification 8 (Some d)
  = Returned 8 (Some (Some (wrap8 (cur0 + mod0)) :: replicate 7 None
                      ++ drop 8 d)).
Proof. intros Hc Hm. unfold rmw_cb. cbn. rewrite Hc, Hm. reflexivity. Qed.

(** X15: the merge callback, called with the lengths it asserts, adds the
    first byte of the modification to the first byte of the current value
    modulo 256 and leaves the bytes 1 to 7 of the new value without a
    value, whatever the current value holds there.  Two merges in a row
    therefore give the same new value in either order: its first byte is
    the sum of the three first bytes modulo 256. *)
Theorem rmw_cb_merges_commute (current m1 m2 d1 d1' d2 : list (option Z))
    (cur0 x y : Z) :
  current !! 0%nat = Some (Some cur0) ->
  m1 !! 0%nat = Some (Some x) ->
  m2 !! 0%nat = Some (Some y) ->
  exists v1 v1',
    rmw_cb true current 8 m1 8 (Some d1) = Returned 8 (Some v1)
    /\ rmw_cb true current 8 m2 8 (Some d1') = Returned 8 (Some v1')
    /\ rmw_cb true v1 8 m2 8 (Some d2) = rmw_cb true v1' 8 m1 8 (Some d2)
    /\ rmw_cb true v1 8 m2 8 (Some d2)
       = Returned 8 (Some (Some (wrap8 (cur0 + x + y)) :: replicate 7 None
                           ++ drop 8 d2)).
Proof.
  intros Hc H1 H2.
  exists (Some (wrap8 (cur0 + x)) :: replicate 7 None ++ drop 8 d1),
         (Some (wrap8 (cur0 + y)) :: replicate 7 None ++ drop 8 d1').
  split; [apply rmw_cb_returns; assumption|].
  split; [apply rmw_cb_returns; assumption|].
  rewrite (rmw_cb_returns
             (Some (wrap8 (cur0 + x)) :: replicate 7 None ++ drop 8 d1)
             m2 d2 (wrap8 (cur0 + x)) y eq_refl H2).
  rewrite (rmw_cb_returns
             (Some (wrap8 (cur0 + y)) :: replicate 7 None ++ drop 8 d1')
             m1 d2 (wrap8 (cur0 + y)) x eq_refl H1).
  rewrite !wrap8_add_l.
  replace (cur0 + y + x) with (cur0 + x + y) by lia.
  split; reflexivity.
Qed.

Lemma rmw_cb_merges_commute_witness :
  exists v1 v1',
    rmw_cb true (replicate 8 (Some 250)) 8 [Some 3] 8 (Some (replicate 8 None))
    = Returned 8 (Some v1)
    /\ rmw_cb true (replicate 8 (Some 250)) 8 [Some 5] 8
              (Some (replicate 8 None))
       = Returned 8 (Some v1')
    /\ rmw_cb true v1 8 [Some 5] 8 (Some (replicate 9 (Some 1)))
       = rmw_cb true v1' 8 [Some 3] 8 (Some (replicate 9 (Some 1)))
    /\ rmw_cb true v1 8 [Some 5] 8 (Some (replicate 9 (Some 1)))
       = Returned 8 (Some (Some (wrap8 (250 + 3 + 5)) :: replicate 7 None
                           ++ drop 8 (replicate 9 (Some 1)))).
Proof.
  apply (rmw_cb_merges_commute (replicate 8 (Some 250)) [Some 3] [Some 5]
           (replicate 8 None) (replicate 8 None) (replicate 9 (Some 1))
           250 3 5); reflexivity.
Defined.

(** ** The benchmark as it is compiled *)

(** X16: with the constants of the source (250000000 keys to load,
    1000000000 to run, chunks of 3200 keys) and from 1 to [2^32] threads,
    whatever the draws, the status codes, the clock and the schedule: the
    population ends with one upsert for each key of the load file; the
    measurement ends, for each of the four workloads, with one operation
    for each key of the run file, and its two totals add up to 1000000000
    operations, or for RMW_100 to the number of read-modify-writes that
    were answered with status 0. *)
Theorem ycsb_phases_cover_their_files (o : Oracle) (w : Workload) (W : Z)
    (g : Globals) :
  1 <= W <= 2 ^ 32 ->
  (exists s,
      setup_store ycsb o W g = Done s
      /\ all_operations s
         ≡ₚ map setup_operation (corpus_keys (kInitCount ycsb)))
  /\ (exists r s,
         run_benchmark ycsb o (workload_mixer w) W = Done (r, s)
         /\ all_operations s
            ≡ₚ map (run_operation o (workload_mixer w))
                   (corpus_keys (kTxnCount ycsb))
         /\ total_reads_done_ (globals s) + total_writes_done_ (globals s)
            <= 1000000000
         /\ (w <> RMW_100 ->
             total_reads_done_ (globals s) + total_writes_done_ (globals s)
             = 1000000000)).
Proof.
  intros HW.
  assert (H8 : kChunkSize ycsb mod 8 = 0) by reflexivity.
  assert (Hfi : fits ycsb (kInitCount ycsb * 8) W)
    by (apply (ycsb_fits Populate); lia).
  assert (Hft : fits ycsb (kTxnCount ycsb * 8) W)
    by (apply (ycsb_fits Measure); lia).
  split.
  - destruct (setup_store_total ycsb o W g ycsb_well_formed) as (s & Hs).
    { apply (ycsb_fits Populate). lia. }
    exists s. split; [exact Hs|].
    apply (setup_store_operations ycsb o W g s ycsb_well_formed H8);
      [lia | exact Hfi | exact Hs].
  - destruct (run_benchmark_total ycsb o (workload_mixer w) W
                ycsb_well_formed Hft (workload_mixer_never_scan w))
      as (r & s & Hs).
    exists r, s. split; [exact Hs|]. split.
    + apply (run_benchmark_operations ycsb o (workload_mixer w) W r s
               ycsb_well_formed H8); [lia | exact Hft | exact Hs].
    + pose proof (run_benchmark_workload_totals ycsb o w W r s
                    ycsb_well_formed H8 ltac:(lia) Hft Hs) as Htot.
      change (kTxnCount ycsb) with 1000000000 in Htot.
      cbv zeta in Htot.
      destruct w;
        (split; [lia | intros Hne; first [lia | exfalso; apply Hne; reflexivity]]).
Qed.

Lemma ycsb_phases_cover_their_files_witness :
  exists s,
    setup_store ycsb small_oracle 48 (mkGlobals 0 0 0 0 0) = Done s
    /\ all_operations s
       ≡ₚ map setup_operation (corpus_keys (kInitCount ycsb)).
Proof.
  apply (proj1 (ycsb_phases_cover_their_files small_oracle READ_100 48
                  (mkGlobals 0 0 0 0 0) ltac:(lia))).
Defined.

(** ** The figure of a workload *)

Lemma double_div_pos (a : Q) (d : Z) :
  0 < d ->
  double_div a (inject_Z d / inject_Z kNanosPerSecond)
  = Finite (a / (inject_Z d / inject_Z kNanosPerSecond)).
Proof.
  intros Hd. unfold double_div.
  destruct (Qeq_bool (inject_Z d / inject_Z kNanosPerSecond) 0) eqn:E;
    [|reflexivity].
  apply Qeq_bool_iff in E. exfalso.
  unfold Qeq, Qdiv, Qmult, Qinv, inject_Z, kNanosPerSecond in E.
  cbn in E. lia.
Qed.

(** X17: for the workloads READ_100, UPSERT_100 and A_50_50 the figure
    [run_benchmark] returns does not depend on the draws or on the
    schedule: it is the number of keys of the run file divided by the sum,
    in seconds, of the durations the threads measured for themselves (the
    arithmetic on [double] being read as exact). *)
Theorem figure_of_a_workload (c : Config) (o : Oracle) (w : Workload)
    (W : Z) (r : double) (s : System) :
  well_formed c -> kChunkSize c mod 8 = 0 -> 1 <= W ->
  fits c (kTxnCount c * 8) W ->
  0 < sum_durations o 0 (Z.to_nat W) < 2 ^ 64 ->
  w <> RMW_100 ->
  run_benchmark c o (workload_mixer w) W = Done (r, s) ->
  exists q,
    r = Finite q
    /\ Qeq q (inject_Z (kTxnCount c)
              / (inject_Z (sum_durations o 0 (Z.to_nat W))
                 / inject_Z kNanosPerSecond)).
Proof.
  intros Hwf H8 HW Hfits Hdur Hw Hs.
  pose proof (run_benchmark_workload_totals c o w W r s Hwf H8 HW Hfits Hs)
    as Htot.
  cbv zeta in Htot.
  assert (Hsum : total_reads_done_ (globals s) + total_writes_done_ (globals s)
                 = kTxnCount c)
    by (destruct w; [lia | congruence | lia | lia]).
  apply run_benchmark_final in Hs
    as (-> & Hall & Hlen & (Hd & _) & _); try assumption.
  unfold all_finished in Hall.
  rewrite (published_all _ _ Hall) in Hd.
  rewrite sum_threads_from_durations, Hlen, wrap64_small in Hd by lia.
  unfold ops_per_second_per_thread. rewrite Hd.
  rewrite double_div_pos by lia.
  eexists. split; [reflexivity|].
  rewrite <- inject_Z_plus, Hsum. reflexivity.
Qed.

Lemma figure_of_a_workload_witness :
  exists s,
    run_benchmark small small_oracle ycsb_a_50_50 2
    = Done (Finite (16000000000 # 51), s)
    /\ Qeq (16000000000 # 51)
           (inject_Z (kTxnCount small)
            / (inject_Z (sum_durations small_oracle 0 (Z.to_nat 2))
               / inject_Z kNanosPerSecond)).
Proof.
  eexists. split; [vm_compute; reflexivity|].
  edestruct (figure_of_a_workload small small_oracle A_50_50 2)
    as (q & Hq & Heq);
    [ unfold well_formed; cbn; repeat split; lia
    | reflexivity
    | lia
    | unfold fits; cbn; lia
    | change (0 < 51 < 2 ^ 64); lia
    | discriminate
    | vm_compute; reflexivity
    | ].
  injection Hq as <-. exact Heq.
Defined.

(** ** The sweep *)



(** ** The session of a population thread *)




(** ** The order of a thread's work *)

Lemma spaced_snoc (gap : Z) (l : list Z) (x : Z) :
  spaced gap l -> Forall (fun a => a + gap <= x) l -> spaced gap (l ++ [x]).
Proof.
  induction l as [|a l IH]; intros Hs Hall; cbn [app spaced].
  - split; [constructor | exact I].
  - destruct Hs as [Ha Hs]. apply Forall_cons in Hall as [Hax Hall].
    split; [|apply IH; assumption].
    apply Forall_app. split; [exact Ha|]. constructor; [exact Hax|constructor].
Qed.

Lemma spaced_app (gap : Z) (l1 l2 : list Z) :
  spaced gap l1 -> spaced gap l2 ->
  (forall a b, a ∈ l1 -> b ∈ l2 -> a + gap <= b) ->
  spaced gap (l1 ++ l2).
Proof.
  induction l1 as [|a l1 IH]; intros H1 H2 Hx; cbn [app spaced];
    [exact H2|].
  destruct H1 as [Ha H1]. split.
  - apply Forall_app. split; [exact Ha|].
    apply Forall_forall. intros b Hb. apply Hx; [left | exact Hb].
  - apply IH; [exact H1 | exact H2|].
    intros x y Hx1 Hy. apply Hx; [right; exact Hx1 | exact Hy].
Qed.

Lemma spaced_ascending (l : list Z) : spaced 1 l -> ascending l.
Proof.
  induction l as [|x l IH]; intros Hs i j a b Hij Ha Hb; [discriminate|].
  destruct Hs as [Hx Hs]. destruct j as [|j]; [lia|]. cbn in Hb.
  destruct i as [|i]; cbn in Ha.
  - injection Ha as ->.
    assert (a + 1 <= b)
      by (eapply (proj1 (Forall_forall _ _) Hx), list_elem_of_lookup_2, Hb).
    lia.
  - apply (IH Hs i j a b); [lia | exact Ha | exact Hb].
Qed.

Lemma items_from_spaced (n : nat) (lo : Z) : spaced 1 (items_from n lo).
Proof.
  revert lo. induction n as [|n IH]; intros lo; cbn [items_from spaced];
    [exact I|].
  split; [|apply IH]. apply Forall_forall. intros b Hb.
  apply elem_of_items_from in Hb as (k & Hk & ->). lia.
Qed.

Lemma elem_of_chunk_items (c : Config) (start x : Z) :
  0 < kChunkSize c -> x ∈ chunk_items c start ->
  start <= x < start + kChunkSize c.
Proof.
  intros HC Hx. unfold chunk_items in Hx.
  apply elem_of_items_from in Hx as (k & Hk & ->).
  rewrite Z2Nat.id in Hk by (apply Z.div_pos; lia).
  div_lia.
Qed.

Lemma items_of_spaced (c : Config) (l : list Z) :
  0 < kChunkSize c -> spaced (kChunkSize c) l -> spaced 1 (items_of c l).
Proof.
  intros HC. induction l as [|x l IH]; intros Hs; [exact I|].
  destruct Hs as [Hx Hs]. unfold items_of. cbn [flat_map].
  apply spaced_app; [apply items_from_spaced | apply IH, Hs|].
  intros a b Ha Hb. apply elem_of_chunk_items in Ha; [|exact HC].
  apply elem_of_flat_map in Hb as (y & Hy & Hb).
  apply elem_of_chunk_items in Hb; [|exact HC].
  assert (x + kChunkSize c <= y)
    by (apply (proj1 (Forall_forall _ _) Hx y Hy)).
  lia.
Qed.

Section Order.
Variable c : Config.
Variable corpus : Z.
Variable W : nat.
Variable more : Z -> bool.
Variable body : Z -> Thread -> outcome Thread.
Variable leave : nat -> Thread -> Globals -> Globals.

Hypothesis HC : 0 < kChunkSize c.
Hypothesis Hdiv : corpus mod kChunkSize c = 0.
Hypothesis Hfit : corpus + Z.of_nat W * kChunkSize c <= 2 ^ 64.
Hypothesis Hmore : forall i, 0 <= i -> (more i = true <-> i < corpus).
Hypothesis Hbody :
  forall idx th th', body idx th = Done th' -> finished th' = finished th.
Hypothesis Hclaimed :
  forall idx th th', body idx th = Done th' -> claimed th' = claimed th.
Hypothesis Hleave : forall t th g, idx_ (leave t th g) = idx_ g.

Lemma turn_order_inv (t : nat) (s s' : System) :
  counter_inv c corpus W s /\ order_inv c s ->
  turn c more body leave t s = Done s' ->
  counter_inv c corpus W s' /\ order_inv c s'.
Proof.
  intros [Hcnt Hord] H.
  assert (Hcnt' : counter_inv c corpus W s')
    by (eapply (turn_counter_inv c corpus W more body leave); eassumption).
  split; [exact Hcnt'|].
  apply turn_cases in H
    as [-> | [(th & th' & Hth & Hf & Hm & Hp & ->) | (th & Hth & Hf & Hm & ->)]].
  - exact Hord.
  - destruct Hcnt' as (_ & _ & Hst' & _). cbn [issued] in Hst'.
    destruct Hcnt as (_ & _ & Hst & _).
    rewrite map_app, length_app, Hst in Hst'. cbn [map length snd] in Hst'.
    rewrite Nat.add_1_r, chunk_starts_S in Hst'.
    apply app_inj_tail in Hst' as [_ Hidx].
    unfold process_chunk in Hp.
    apply (item_loop_keeps claimed body Hclaimed) in Hp.
    cbn [claim claimed] in Hp.
    unfold order_inv in *. cbn [threads issued].
    rewrite length_app. cbn [length].
    replace (Z.of_nat (length (issued s) + 1) * kChunkSize c)
      with (Z.of_nat (length (issued s)) * kChunkSize c + kChunkSize c)
      by lia.
    pose proof (Forall_lookup_1 _ _ _ _ Hord Hth) as [Hsp Hbd].
    apply Forall_insert.
    + eapply Forall_impl; [exact Hord|]. cbn. intros x [Hx1 Hx2].
      split; [exact Hx1|]. eapply Forall_impl; [exact Hx2|].
      cbn. intros a Ha. lia.
    + rewrite Hp, Hidx. split.
      * apply spaced_snoc; assumption.
      * apply Forall_app. split.
        -- eapply Forall_impl; [exact Hbd|]. cbn. intros a Ha. lia.
        -- constructor; [lia | constructor].
  - unfold order_inv in *. cbn [threads issued].
    apply Forall_insert; [exact Hord|].
    cbn [finish log claimed]. exact (Forall_lookup_1 _ _ _ _ Hord Hth).
Qed.
End Order.

Lemma order_inv_start (c : Config) (W : Z) (g : Globals) :
  order_inv c (mkSystem g (spawn W) []).
Proof.
  unfold order_inv. cbn [threads issued]. apply spawn_Forall.
  cbn. split; [exact I | constructor].
Qed.

Lemma setup_store_order (c : Config) (o : Oracle) (W : Z) (g : Globals)
    (s : System) :
  well_formed c -> fits c (kInitCount c * 8) W ->
  setup_store c o W g = Done s ->
  Forall (fun th => ascending (items_of c (claimed th))) (threads s).
Proof.
  intros Hwf (HL & HW & Hfit) Hs.
  pose proof Hwf as (HC & _ & _ & HKi & _ & _).
  pose proof (well_formed_intervals c Hwf) as (_ & _ & Hdiv & _).
  assert (Hw : wrap64 (kInitCount c * 8) = kInitCount c * 8)
    by (apply wrap64_small; nia).
  apply (setup_store_inv c o W g s
           (fun s => counter_inv c (wrap64 (kInitCount c * 8)) (Z.to_nat W) s
                     /\ order_inv c s)) in Hs as ([_ Hord] & _).
  - eapply Forall_impl; [exact Hord|]. cbn. intros th [Hsp _].
    apply spaced_ascending, items_of_spaced; assumption.
  - split; [|apply order_inv_start].
    apply spawn_counter_inv; [apply wrap64_range | reflexivity].
  - intros t s1 s2 Hinv Ht. rewrite thread_setup_store_turn in Ht.
    eapply (turn_order_inv c (wrap64 (kInitCount c * 8)) (Z.to_nat W));
      [exact HC | exact Hdiv | rewrite Hw, Z2Nat.id; nia | | | | | exact Hinv
      | exact Ht].
    + intros; apply Z.ltb_lt.
    + apply setup_item_finished.
    + apply setup_item_claimed.
    + reflexivity.
Qed.

Lemma run_benchmark_order (c : Config) (o : Oracle) (FN : Z -> Op) (W : Z)
    (r : double) (s : System) :
  well_formed c -> fits c (kTxnCount c * 8) W ->
  run_benchmark c o FN W = Done (r, s) ->
  Forall (fun th => ascending (items_of c (claimed th))) (threads s).
Proof.
  intros Hwf (HL & HW & Hfit) Hs.
  pose proof Hwf as (HC & _ & _ & _ & HKt & _).
  pose proof (well_formed_intervals c Hwf) as (_ & _ & _ & Hdiv).
  rewrite wrap64_small in Hdiv by nia.
  apply (run_benchmark_inv c o FN W r s
           (fun s => counter_inv c (kTxnCount c * 8) (Z.to_nat W) s
                     /\ order_inv c s)) in Hs as ([_ Hord] & _).
  - eapply Forall_impl; [exact Hord|]. cbn. intros th [Hsp _].
    apply spaced_ascending, items_of_spaced; assumption.
  - split; [|apply order_inv_start].
    apply spawn_counter_inv; [exact HL | reflexivity].
  - intros t s1 s2 Hinv Ht. rewrite thread_run_benchmark_turn in Ht.
    eapply (turn_order_inv c (kTxnCount c * 8) (Z.to_nat W));
      [exact HC | exact Hdiv | rewrite Z2Nat.id; nia | | | | | exact Hinv
      | exact Ht].
    + intros; apply run_more_spec; assumption.
    + apply (run_item_finished c o FN).
    + apply (run_item_claimed c o FN).
    + reflexivity.
Qed.

(** X20: in either phase every thread goes through the file forwards:
    the data operations it has issued when the phase ends are, in program
    order, the operations for a strictly increasing sequence of key
    offsets (the keys of its chunks, chunk after chunk), whatever the
    schedule. *)
Theorem threads_go_forwards (c : Config) (o : Oracle) (FN : Z -> Op) (W : Z)
    (g : Globals) :
  well_formed c ->
  fits c (kInitCount c * 8) W ->
  fits c (kTxnCount c * 8) W ->
  (forall s th,
      setup_store c o W g = Done s -> th ∈ threads s ->
      exists keys,
        operations th = map setup_operation keys /\ ascending keys)
  /\ (forall r s th,
         run_benchmark c o FN W = Done (r, s) -> th ∈ threads s ->
         exists keys,
           operations th = map (run_operation o FN) keys /\ ascending keys).
Proof.
  intros Hwf Hi Ht.
  pose proof Hwf as (HC & HR & HP & HKi & HKt & _).
  pose proof (well_formed_intervals c Hwf) as (_ & HPR & _ & _).
  split.
  - intros s th Hs Hth. exists (items_of c (claimed th)). split.
    + apply operations_calls_inv; [apply setup_operation_is_operation|].
      assert (Hw : wrap64 (kInitCount c * 8) = kInitCount c * 8)
        by (apply wrap64_small; destruct Hi as (? & ? & ?); nia).
      apply setup_store_calls in Hs; try assumption.
      * apply (proj1 (Forall_forall _ _) Hs th Hth).
      * rewrite Hw. destruct Hi as (? & ? & ?). nia.
    + apply (setup_store_order c o W g s Hwf Hi) in Hs.
      apply (proj1 (Forall_forall _ _) Hs th Hth).
  - intros r s th Hs Hth. exists (items_of c (claimed th)). split.
    + apply operations_calls_inv; [apply run_operation_is_operation|].
      apply run_benchmark_calls in Hs; try assumption.
      * apply (proj1 (Forall_forall _ _) Hs th Hth).
      * destruct Ht as (? & ? & ?). nia.
    + apply (run_benchmark_order c o FN W r s Hwf Ht) in Hs.
      apply (proj1 (Forall_forall _ _) Hs th Hth).
Qed.

Lemma threads_go_forwards_witness :
  exists s,
    setup_store small small_oracle 2 (mkGlobals 0 0 0 0 0) = Done s
    /\ forall th, th ∈ threads s ->
         exists keys,
           operations th = map setup_operation keys /\ ascending keys.
Proof.
  assert (Hwf : well_formed small)
    by (unfold well_formed; cbn; repeat split; lia).
  assert (Hi : fits small (kInitCount small * 8) 2) by (unfold fits; cbn; lia).
  assert (Ht : fits small (kTxnCount small * 8) 2) by (unfold fits; cbn; lia).
  pose proof (threads_go_forwards small small_oracle ycsb_a_50_50 2
                (mkGlobals 0 0 0 0 0) Hwf Hi Ht) as [H _].
  eexists. split; [vm_compute; reflexivity|].
  intros th Hth. eapply H; [vm_compute; reflexivity | exact Hth].
Defined.
